(** * The SELECT query builder of bun (query_select.go)

    A shallow embedding of [SelectQuery]: the builder state, the chained
    configuration calls, the renderer [appendQuery] and the operations that
    execute the rendered text ([Rows], [Exec], [Scan], [Count]).

    Go strings and byte slices are both modelled by [string] (a sequence of
    8-bit characters); [append(b, s...)] is string concatenation.  A nil slice
    whose nil-ness the code tests is an [option]; a slice that is only
    measured and ranged over is a [list].

    A method on [*SelectQuery] that updates the builder and returns it is a
    function from the builder to the updated builder.  Code declared in other
    files of the package is a parameter of the development ([Externals]),
    except [setErr] and [addWhereGroup], which are modelled from the
    description of the builder; what a hook or a relation's apply function
    does to the builder it is handed is not followed. *)

From Stdlib Require Import ZArith Lia Bool.
From Stdlib Require Import Strings.String Strings.Ascii.
From Stdlib Require Import Numbers.DecimalString.
From stdpp Require Import base option list gmap strings.

Open Scope string_scope.
Open Scope list_scope.
Open Scope Z_scope.

(** ** Go standard library functions used by the file *)

Module Go.

Abbreviation bytes := string (only parsing).

(** [len(s)] *)
Definition len (s : string) : nat := String.length s.

(** [strings.IndexByte(s, c)]: index of the first [c] in [s], or -1. *)
Fixpoint IndexByte (s : string) (c : ascii) : Z :=
  match s with
  | EmptyString => -1
  | String a r =>
      if Ascii.eqb a c then 0
      else let i := IndexByte r c in if i =? -1 then -1 else i + 1
  end.

(** [s[:i]] *)
Definition slice_to (s : string) (i : Z) : string :=
  substring 0%nat (Z.to_nat i) s.

(** [s[i:]] *)
Definition slice_from (s : string) (i : Z) : string :=
  substring (Z.to_nat i) (String.length s - Z.to_nat i)%nat s.

(** [bytes.HasSuffix(s, suffix)]:
    [len(s) >= len(suffix) && Equal(s[len(s)-len(suffix):], suffix)] *)
Definition HasSuffix (s suffix : string) : bool :=
  (len suffix <=? len s)%nat
  && String.eqb (slice_from s (Z.of_nat (len s) - Z.of_nat (len suffix))) suffix.

(** [bytes.TrimSuffix(s, suffix)]: [s[:len(s)-len(suffix)]] when [s] has
    the suffix, [s] itself otherwise. *)
Definition TrimSuffix (s suffix : string) : string :=
  if HasSuffix s suffix
  then slice_to s (Z.of_nat (len s) - Z.of_nat (len suffix))
  else s.

(** [strconv.AppendInt(b, i, 10)] *)
Definition itoa (i : Z) : string := NilZero.string_of_int (Z.to_int i).
Definition AppendInt (b : bytes) (i : Z) : bytes := b +:+ itoa i.

(** [int32(n)] for a machine integer [n]: the low 32 bits, signed. *)
Definition int32 (n : Z) : Z := (n + 2 ^ 31) mod 2 ^ 32 - 2 ^ 31.

(** [append(l, x)] on a slice that may be nil. *)
Definition append_nilable {A} (l : option (list A)) (x : A) : option (list A) :=
  Some (default [] l ++ [x]).

(** [len(l)] of a slice that may be nil. *)
Definition len_nilable {A} (l : option (list A)) : nat :=
  length (default [] l).

End Go.

Import Go.

Example itoa_neg : itoa (-1) = "-1".
Proof. reflexivity. Qed.

Example itoa_zero : itoa 0 = "0".
Proof. reflexivity. Qed.

Example TrimSuffix_ex : TrimSuffix "a, b, " ", " = "a, b" /\ TrimSuffix "a, b" ", " = "a, b".
Proof. split; reflexivity. Qed.

Example IndexByte_ex : IndexByte "id DESC" " " = 2 /\ IndexByte "id" " " = -1.
Proof. split; reflexivity. Qed.

(** ** Facts about concatenation and [TrimSuffix] *)

Module Str.

(** stdpp keeps [simpl] from unfolding concatenation; these two equations
    do it by rewriting. *)
Lemma app_nil_l (b : string) : "" +:+ b = b.
Proof. reflexivity. Qed.

Lemma app_cons (x : ascii) (a b : string) :
  String x a +:+ b = String x (a +:+ b).
Proof. reflexivity. Qed.

Lemma app_assoc (a b c : string) : (a +:+ b) +:+ c = a +:+ b +:+ c.
Proof.
  induction a as [|x a IH]; [reflexivity|].
  rewrite !app_cons. now f_equal.
Qed.

Lemma app_nil_r (a : string) : a +:+ "" = a.
Proof.
  induction a as [|x a IH]; [reflexivity|].
  rewrite app_cons. now f_equal.
Qed.

Lemma length_app (a b : string) :
  String.length (a +:+ b) = (String.length a + String.length b)%nat.
Proof.
  induction a as [|x a IH]; [reflexivity|].
  rewrite app_cons. cbn [String.length]. now rewrite IH.
Qed.

Lemma app_inv_head (a b c : string) : a +:+ b = a +:+ c -> b = c.
Proof.
  induction a as [|x a IH]; [tauto|].
  rewrite !app_cons. intros [= H]. auto.
Qed.

Lemma length_zero (a : string) : String.length a = 0%nat <-> a = "".
Proof. destruct a; cbn [String.length]; split; congruence. Qed.

Lemma eqb_length (a b : string) :
  String.length a <> String.length b -> String.eqb a b = false.
Proof.
  intros H. apply String.eqb_neq. intros ->. now apply H.
Qed.

Lemma substring_all (s : string) : substring 0 (String.length s) s = s.
Proof. induction s as [|a s IH]; cbn; [reflexivity | now rewrite IH]. Qed.

(** A string one character longer has the suffix when it is the suffix or
    when its tail has it. *)
Lemma HasSuffix_cons (a : ascii) (r suffix : string) :
  HasSuffix (String a r) suffix
  = String.eqb (String a r) suffix || HasSuffix r suffix.
Proof.
  unfold HasSuffix, slice_from, len. cbn [String.length].
  destruct (Nat.leb_spec (String.length suffix) (String.length r)) as [Hle|Hgt].
  - rewrite (eqb_length (String a r)) by (cbn [String.length]; lia).
    replace (String.length suffix <=? S (String.length r))%nat with true
      by (symmetry; apply Nat.leb_le; lia).
    cbn [andb orb].
    replace (Z.to_nat (Z.of_nat (S (String.length r)) - Z.of_nat (String.length suffix)))
      with (S (String.length r - String.length suffix)) by lia.
    replace (Z.to_nat (Z.of_nat (String.length r) - Z.of_nat (String.length suffix)))
      with (String.length r - String.length suffix)%nat by lia.
    cbn [substring]. reflexivity.
  - cbn [andb]. rewrite orb_false_r.
    destruct (Nat.eq_dec (String.length suffix) (S (String.length r))) as [He|Hne].
    + rewrite He, Nat.leb_refl. cbn [andb].
      replace (Z.to_nat (Z.of_nat (S (String.length r)) - Z.of_nat (S (String.length r))))
        with 0%nat by lia.
      rewrite Nat.sub_0_r.
      change (S (String.length r)) with (String.length (String a r)).
      now rewrite substring_all.
    + replace (String.length suffix <=? S (String.length r))%nat with false
        by (symmetry; apply Nat.leb_gt; lia).
      rewrite (eqb_length (String a r)) by (cbn [String.length]; lia).
      reflexivity.
Qed.

(** [TrimSuffix] peels characters until the rest is the suffix. *)
Lemma TrimSuffix_cons (a : ascii) (r suffix : string) :
  TrimSuffix (String a r) suffix
  = if String.eqb (String a r) suffix then ""
    else String a (TrimSuffix r suffix).
Proof.
  unfold TrimSuffix at 1. rewrite HasSuffix_cons.
  destruct (String.eqb_spec (String a r) suffix) as [<-|Hne]; cbn [orb].
  - unfold slice_to, len. now rewrite Z.sub_diag.
  - unfold TrimSuffix. destruct (HasSuffix r suffix) eqn:Hs; [|reflexivity].
    unfold HasSuffix in Hs. apply andb_true_iff in Hs as [Hle _].
    apply Nat.leb_le in Hle. unfold slice_to, len in *. cbn [String.length].
    replace (Z.to_nat (Z.of_nat (S (String.length r)) - Z.of_nat (String.length suffix)))
      with (S (String.length r - String.length suffix)) by lia.
    replace (Z.to_nat (Z.of_nat (String.length r) - Z.of_nat (String.length suffix)))
      with (String.length r - String.length suffix)%nat by lia.
    reflexivity.
Qed.

(** Trimming [", "] never reaches into a prefix that ends in a character
    other than a comma followed by a space. *)
Lemma TrimSuffix_after_space (p : string) (a : ascii) (c : string) :
  a <> ","%char ->
  TrimSuffix ((p +:+ String a " ") +:+ c) ", "
  = (p +:+ String a " ") +:+ TrimSuffix c ", ".
Proof.
  intros Ha. induction p as [|x p IH].
  - rewrite !app_nil_l, !app_cons, !app_nil_l.
    rewrite !TrimSuffix_cons.
    replace (String.eqb (String a (String " " c)) ", ") with false.
    2:{ symmetry. apply String.eqb_neq. intros [= ? _]. now apply Ha. }
    replace (String.eqb (String " " c) ", ") with false.
    2:{ symmetry. apply String.eqb_neq. intros [= ?]. }
    reflexivity.
  - rewrite !app_cons, TrimSuffix_cons.
    rewrite eqb_length.
    + now rewrite <- IH.
    + cbn [String.length]. rewrite !length_app. cbn [String.length]. lia.
Qed.

End Str.

(** ** Results of fallible calls

    A Go function returning [(T, error)] returns [Ok] or [Err]; a run-time
    panic (a nil dereference, an explicit [panic]) is [Panic]. *)

Inductive result (E A : Type) : Type :=
| Ok (a : A)
| Err (e : E)
| Panic (msg : string).

Arguments Ok {E A} a.
Arguments Err {E A} e.
Arguments Panic {E A} msg.

#[global] Instance result_ret {E} : MRet (result E) := fun _ a => Ok a.
#[global] Instance result_bind {E} : MBind (result E) := fun _ _ f r =>
  match r with
  | Ok a => f a
  | Err e => Err e
  | Panic m => Panic m
  end.
#[global] Instance result_fmap {E} : FMap (result E) := fun _ _ f r =>
  match r with
  | Ok a => Ok (f a)
  | Err e => Err e
  | Panic m => Panic m
  end.

(** [for i, x := range l { s, err = body(i, x, s); if err != nil { return } }] *)
Fixpoint for_range {E A St} (body : nat -> A -> St -> result E St)
    (i : nat) (l : list A) (s : St) : result E St :=
  match l with
  | [] => Ok s
  | x :: l' => s' ← body i x s; for_range body (S i) l' s'
  end.

(** Texts rendered in order and concatenated; texts rendered in order and
    separated.  The first failure is the result. *)
Fixpoint concat_texts {E A} (f : A -> result E string) (l : list A)
    : result E string :=
  match l with
  | [] => Ok ""
  | x :: r => t ← f x; ts ← concat_texts f r; Ok (t +:+ ts)
  end.

Definition sep_texts {E A} (sep : string) (f : A -> result E string)
    (l : list A) : result E string :=
  match l with
  | [] => Ok ""
  | x :: r =>
      t ← f x; ts ← concat_texts (fun y => u ← f y; Ok (sep +:+ u)) r;
      Ok (t +:+ ts)
  end.

(** The texts of a list of clauses, in order. *)
Definition concat_clauses {E} (l : list (result E string)) : result E string :=
  concat_texts id l.

(** The texts rendered by a loop whose body may look at the index. *)
Fixpoint texts_from {E A} (g : nat -> A -> result E string) (i : nat)
    (l : list A) : result E string :=
  match l with
  | [] => Ok ""
  | x :: r => t ← g i x; ts ← texts_from g (S i) r; Ok (t +:+ ts)
  end.

Module Loops.
Section Loops.
Context {E A : Type}.
Implicit Types (l : list A) (b : string).

Lemma bind_Ok {X Y} (x : X) (k : X -> result E Y) : (Ok x ≫= k) = k x.
Proof. reflexivity. Qed.

Lemma bind_assoc {X Y Z} (m : result E X) (k : X -> result E Y)
    (k' : Y -> result E Z) :
  ((m ≫= k) ≫= k') = (m ≫= fun x => k x ≫= k').
Proof. now destruct m. Qed.

Lemma bind_ext {X Y} (m : result E X) (k k' : X -> result E Y) :
  (forall x, k x = k' x) -> (m ≫= k) = (m ≫= k').
Proof. intros Hk. destruct m; [apply Hk | reflexivity..]. Qed.

Lemma bind_ret_r {X} (m : result E X) : (m ≫= fun x => Ok x) = m.
Proof. now destruct m. Qed.

Lemma for_range_ext {St} (body body' : nat -> A -> St -> result E St) :
  (forall i x s, body i x s = body' i x s) ->
  forall l i s, for_range body i l s = for_range body' i l s.
Proof.
  intros Hb l. induction l as [|x l IH]; intros i s; [reflexivity|].
  cbn [for_range]. rewrite Hb. apply bind_ext. intros s'. apply IH.
Qed.

Lemma for_range_app {St} (body : nat -> A -> St -> result E St) l1 l2 :
  forall i s,
    for_range body i (l1 ++ l2) s
    = (for_range body i l1 s ≫= for_range body (i + length l1) l2).
Proof.
  induction l1 as [|x l1 IH]; intros i s.
  - cbn [for_range app length]. rewrite Nat.add_0_r. reflexivity.
  - cbn [for_range app length]. rewrite bind_assoc. apply bind_ext.
    intros s'. rewrite IH. now rewrite Nat.add_succ_r.
Qed.

(** A body that does not look at the index. *)
Lemma for_range_shift {St} (f : A -> St -> result E St) l :
  forall i j s,
    for_range (fun _ => f) i l s = for_range (fun _ => f) j l s.
Proof.
  induction l as [|x l IH]; intros i j s; [reflexivity|].
  cbn [for_range]. apply bind_ext. intros s'. apply IH.
Qed.

(** A loop whose body appends a text to the buffer appends the texts. *)
Lemma for_range_texts (g : nat -> A -> result E string)
    (body : nat -> A -> string -> result E string) :
  (forall i x b, body i x b = (g i x ≫= fun t => Ok (b +:+ t))) ->
  forall l i b,
    for_range body i l b = (texts_from g i l ≫= fun ts => Ok (b +:+ ts)).
Proof.
  intros Hb l. induction l as [|x l IH]; intros i b.
  - cbn [for_range texts_from]. rewrite bind_Ok. now rewrite Str.app_nil_r.
  - cbn [for_range texts_from]. rewrite Hb, !bind_assoc.
    apply bind_ext. intros t. rewrite bind_Ok, IH, bind_assoc.
    apply bind_ext. intros ts. rewrite !bind_Ok. now rewrite Str.app_assoc.
Qed.

Lemma texts_from_const (f : A -> result E string) l :
  forall i, texts_from (fun _ => f) i l = concat_texts f l.
Proof.
  induction l as [|x l IH]; intros i; [reflexivity|].
  cbn [texts_from concat_texts]. apply bind_ext. intros t. now rewrite IH.
Qed.

Lemma texts_from_pos (g g' : nat -> A -> result E string) l :
  (forall i x, g (S i) x = g' (S i) x) ->
  forall i, texts_from g (S i) l = texts_from g' (S i) l.
Proof.
  intros Hg. induction l as [|x l IH]; intros i; [reflexivity|].
  cbn [texts_from]. rewrite Hg. apply bind_ext. intros t. now rewrite IH.
Qed.

(** The separator goes before every element but the first. *)
Lemma texts_from_sep (sep : string) (f : A -> result E string) l :
  texts_from (fun i x => f x ≫= fun t =>
                Ok ((if (0 <? i)%nat then sep else "") +:+ t)) 0 l
  = sep_texts sep f l.
Proof.
  destruct l as [|x l]; [reflexivity|].
  cbn [texts_from sep_texts]. rewrite bind_assoc. apply bind_ext. intros t.
  rewrite bind_Ok, Str.app_nil_l.
  rewrite (texts_from_pos _ (fun _ y => f y ≫= fun u => Ok (sep +:+ u)))
    by reflexivity.
  now rewrite texts_from_const.
Qed.

(** The same when the body is known on the elements of the list only. *)
Lemma for_range_texts_Forall (g : A -> result E string)
    (body : nat -> A -> string -> result E string) l :
  Forall (fun x => forall i b, body i x b = (g x ≫= fun t => Ok (b +:+ t))) l ->
  forall i b,
    for_range body i l b = (concat_texts g l ≫= fun ts => Ok (b +:+ ts)).
Proof.
  induction 1 as [|x l Hx _ IH]; intros i b.
  - cbn [for_range concat_texts]. rewrite bind_Ok. now rewrite Str.app_nil_r.
  - cbn [for_range concat_texts]. rewrite Hx, !bind_assoc.
    apply bind_ext. intros t. rewrite bind_Ok, IH, bind_assoc.
    apply bind_ext. intros ts. rewrite !bind_Ok. now rewrite Str.app_assoc.
Qed.

(** A loop that puts [sep] before every element but the first. *)
Lemma for_range_sep (sep : string) (f : A -> result E string)
    (body : nat -> A -> string -> result E string) :
  (forall i x b,
      body i x b
      = (f x ≫= fun t => Ok ((if (0 <? i)%nat then b +:+ sep else b) +:+ t))) ->
  forall l b,
    for_range body 0 l b = (sep_texts sep f l ≫= fun ts => Ok (b +:+ ts)).
Proof.
  intros Hb l b. rewrite <- texts_from_sep.
  apply for_range_texts. intros i x b'.
  rewrite Hb, bind_assoc. apply bind_ext. intros t. rewrite bind_Ok.
  destruct (0 <? i)%nat; now rewrite ?Str.app_assoc, ?Str.app_nil_l.
Qed.

End Loops.
End Loops.

(** Concatenations are compared after reassociating to the right. *)
Ltac str_norm :=
  repeat first
    [ rewrite Str.app_assoc
    | rewrite Str.app_cons
    | rewrite Str.app_nil_l
    | rewrite Str.app_nil_r ].

(** ** Package schema: fragments *)

Module schema.

(** Values passed as [interface{}] arguments of a fragment: the two
    wrappers this file builds, and literals. *)
Inductive Arg :=
| Ident (name : string)
| Safe (query : string)
| ArgInt (z : Z)
| ArgString (s : string).

(** [Args] is a slice whose nil-ness [appendColumns] tests. *)
Record QueryWithArgs := mkQueryWithArgs {
  Query : string;
  Args : option (list Arg)
}.

Record QueryWithSep := mkQueryWithSep {
  QueryWithArgs_ : QueryWithArgs;
  Sep : string
}.

Record Field := mkField {
  Name : string;
  SQLName : string
}.

Inductive RelationType :=
| HasOneRelation
| BelongsToRelation
| HasManyRelation
| ManyToManyRelation.

Record Relation := mkRelation {
  Type_ : RelationType
}.

Definition is_to_one (t : RelationType) : bool :=
  match t with
  | HasOneRelation | BelongsToRelation => true
  | _ => false
  end.

End schema.

Import schema.

(** ** The builder state *)

Section SelectQuery.

(** Types declared elsewhere (the formatter, the database handle and its
    connection, the zero value of the model type, destination models, CTE
    bodies, driver results, the state of the world outside the program);
    this file only passes them around. *)
Context {Formatter DB IConn Iface Model Dest QueryAppender SqlRows SqlResult World : Type}.

(** [schema.Table]: the fields of the table metadata that this file reads. *)
Record Table := mkTable {
  SQLAlias : string;
  Fields : list Field;
  FieldMap : gmap string Field;
  ZeroIface : Iface
}.

(** The relation joins of a table model: [j.Relation.Type],
    [j.JoinModel.GetJoins()] and [j.JoinModel.Table()]. *)
Inductive join := mkJoin {
  Relation_ : schema.Relation;
  JoinModel : TableModel
}
with TableModel := mkTableModel {
  Table_ : Table;
  GetJoins : list join
}.

Inductive fmtArg :=
| fmtTable (t : option Table)
| fmtString (s : string).

(** Error values: [errors.New(msg)] and [fmt.Errorf(format, args...)]. *)
Inductive error :=
| errors_New (msg : string)
| fmt_Errorf (format : string) (args : list fmtArg).

Record baseQuery := mkBaseQuery {
  db : DB;
  conn : IConn;
  err : option error;
  tableModel : option TableModel;
  table : option Table;
  with_ : list (string * QueryAppender);
  modelTable : QueryWithArgs;
  tables : list QueryWithArgs;
  columns : option (list QueryWithArgs);
  flags : Z
}.

Record whereBaseQuery := mkWhereBaseQuery {
  baseQuery_ :> baseQuery;
  where_ : list QueryWithSep
}.

Record joinQuery := mkJoinQuery {
  jq_join : QueryWithArgs;
  jq_on : list QueryWithSep
}.

Inductive SelectQuery := mkSelectQuery {
  whereBaseQuery_ : whereBaseQuery;
  distinctOn : option (list QueryWithArgs);
  joins : list joinQuery;
  group : list QueryWithArgs;
  having : list QueryWithArgs;
  order : list QueryWithArgs;
  limit : Z;
  offset : Z;
  selFor : QueryWithArgs;
  union_ : list union
}
with union := mkUnion {
  expr : string;
  query : SelectQuery
}.

Coercion whereBaseQuery_ : SelectQuery >-> whereBaseQuery.

(** *** Field updates *)

Definition set_err (e : option error) (q : baseQuery) : baseQuery :=
  mkBaseQuery (db q) (conn q) e (tableModel q) (table q) (with_ q)
    (modelTable q) (tables q) (columns q) (flags q).

Definition set_tableModel (tm : option TableModel) (q : baseQuery) : baseQuery :=
  mkBaseQuery (db q) (conn q) (err q) tm (table q) (with_ q)
    (modelTable q) (tables q) (columns q) (flags q).

Definition set_modelTable (m : QueryWithArgs) (q : baseQuery) : baseQuery :=
  mkBaseQuery (db q) (conn q) (err q) (tableModel q) (table q) (with_ q)
    m (tables q) (columns q) (flags q).

Definition set_baseQuery (b : baseQuery) (q : whereBaseQuery) : whereBaseQuery :=
  mkWhereBaseQuery b (where_ q).

Definition set_where (w : list QueryWithSep) (q : whereBaseQuery) : whereBaseQuery :=
  mkWhereBaseQuery (baseQuery_ q) w.

Definition set_whereBaseQuery (w : whereBaseQuery) (q : SelectQuery) : SelectQuery :=
  mkSelectQuery w (distinctOn q) (joins q) (group q) (having q) (order q)
    (limit q) (offset q) (selFor q) (union_ q).

Definition set_distinctOn (d : option (list QueryWithArgs)) (q : SelectQuery) :=
  mkSelectQuery q d (joins q) (group q) (having q) (order q)
    (limit q) (offset q) (selFor q) (union_ q).

Definition set_joins (j : list joinQuery) (q : SelectQuery) :=
  mkSelectQuery q (distinctOn q) j (group q) (having q) (order q)
    (limit q) (offset q) (selFor q) (union_ q).

Definition set_group (g : list QueryWithArgs) (q : SelectQuery) :=
  mkSelectQuery q (distinctOn q) (joins q) g (having q) (order q)
    (limit q) (offset q) (selFor q) (union_ q).

Definition set_having (h : list QueryWithArgs) (q : SelectQuery) :=
  mkSelectQuery q (distinctOn q) (joins q) (group q) h (order q)
    (limit q) (offset q) (selFor q) (union_ q).

Definition set_order (o : list QueryWithArgs) (q : SelectQuery) :=
  mkSelectQuery q (distinctOn q) (joins q) (group q) (having q) o
    (limit q) (offset q) (selFor q) (union_ q).

Definition set_limit (n : Z) (q : SelectQuery) :=
  mkSelectQuery q (distinctOn q) (joins q) (group q) (having q) (order q)
    n (offset q) (selFor q) (union_ q).

Definition set_offset (n : Z) (q : SelectQuery) :=
  mkSelectQuery q (distinctOn q) (joins q) (group q) (having q) (order q)
    (limit q) n (selFor q) (union_ q).

Definition set_selFor (f : QueryWithArgs) (q : SelectQuery) :=
  mkSelectQuery q (distinctOn q) (joins q) (group q) (having q) (order q)
    (limit q) (offset q) f (union_ q).

Definition set_union (u : list union) (q : SelectQuery) :=
  mkSelectQuery q (distinctOn q) (joins q) (group q) (having q) (order q)
    (limit q) (offset q) (selFor q) u.

(** A call on the embedded base query: [q.f(...)] for a method [f] of
    [baseQuery] or of [whereBaseQuery]. *)
Definition on_whereBase (f : whereBaseQuery -> whereBaseQuery) (q : SelectQuery) :=
  set_whereBaseQuery (f q) q.

Definition on_base (f : baseQuery -> baseQuery) (q : SelectQuery) :=
  on_whereBase (fun w => set_baseQuery (f w) w) q.

(** The model argument of [formatterWithModel]: the query itself, or the
    query wrapped as a [countQuery]. *)
Inductive namedArgAppender :=
| SelectQuery_arg (q : SelectQuery)
| countQuery_arg (q : SelectQuery).

(** ** Code declared outside this file

    Methods of the embedded base query, of the fragments, of the relation
    joins and of the database handle are called here but declared in other
    files.  They are parameters.  A helper with Go's append signature
    [f(fmter, b) (b', err)] returns its buffer extended by the text it
    renders; the parameter is that text.  A helper that talks to the
    database, or runs user code, transforms the world. *)
Class Externals := {
  (* package schema *)
  SafeQuery : string -> list Arg -> QueryWithArgs;
  UnsafeIdent : string -> QueryWithArgs;
  SafeQueryWithSep : string -> list Arg -> string -> QueryWithSep;
  IsZero : QueryWithArgs -> bool;
  IsNop : Formatter -> bool;
  QueryWithArgs_text : QueryWithArgs -> Formatter -> result error string;
  formatterWithModel : Formatter -> namedArgAppender -> Formatter;
  (* package dialect; package strings *)
  AppendString_text : string -> string;
  ToUpper : string -> string;
  (* the base query *)
  errNilModel : error;
  addColumn : QueryWithArgs -> baseQuery -> baseQuery;
  addWhere : QueryWithSep -> whereBaseQuery -> whereBaseQuery;
  hasTables : baseQuery -> bool;
  with_text : baseQuery -> Formatter -> result error string;
  tables_text : baseQuery -> Formatter -> result error string;
  where_text : whereBaseQuery -> Formatter -> bool -> result error string;
  fields_text : string -> list Field -> string;
  (* table models and relation joins *)
  TableModel_Join :
    TableModel -> string -> option (SelectQuery -> SelectQuery) ->
    TableModel * option join;
  join_columns : join -> SelectQuery -> option (list QueryWithArgs);
  alias_text : join -> Formatter -> string;
  aliasColumn_text : join -> Formatter -> string -> string;
  hasOneJoin_text : join -> Formatter -> SelectQuery -> result error string;
  join_Select : join -> DB -> World -> World * option error;
  (* the database handle, the connection, models and hooks *)
  DB_fmter : DB -> Formatter;
  makeQueryBytes : DB -> string;
  getModel : SelectQuery -> list Dest -> result error Model;
  as_SetCap : Model -> option (Z -> Model);
  as_tableModel : Model -> option TableModel;
  as_BeforeSelectHook : Iface -> option (SelectQuery -> World -> World * option error);
  as_AfterSelectHook : Iface -> option (SelectQuery -> World -> World * option error);
  conn_QueryContext : IConn -> string -> World -> World * result error SqlRows;
  base_exec : SelectQuery -> string -> World -> World * result error SqlResult;
  base_scan : SelectQuery -> string -> Model -> bool -> World -> World * result error (Z * Model);
  db_beforeQuery : DB -> string -> World -> World;
  db_afterQuery : DB -> option error -> World -> World;
  conn_QueryRow_Scan : IConn -> string -> World -> World * (Z * option error)
}.

Context `{Externals}.

Abbreviation res := (result error) (only parsing).

(** *** The append-style wrappers of the text parameters *)

Definition QueryWithArgs_AppendQuery (a : QueryWithArgs) (fmter : Formatter)
    (b : string) : res string :=
  t ← QueryWithArgs_text a fmter; Ok (b +:+ t).

Definition appendWith (q : baseQuery) (fmter : Formatter) (b : string) : res string :=
  t ← with_text q fmter; Ok (b +:+ t).

Definition appendTablesWithAlias (q : baseQuery) (fmter : Formatter)
    (b : string) : res string :=
  t ← tables_text q fmter; Ok (b +:+ t).

Definition appendWhere (q : whereBaseQuery) (fmter : Formatter) (b : string)
    (withAlias : bool) : res string :=
  t ← where_text q fmter withAlias; Ok (b +:+ t).

Definition appendHasOneJoin (j : join) (fmter : Formatter) (b : string)
    (q : SelectQuery) : res string :=
  t ← hasOneJoin_text j fmter q; Ok (b +:+ t).

Definition appendAlias (j : join) (fmter : Formatter) (b : string) : string :=
  b +:+ alias_text j fmter.

Definition appendAliasColumn (j : join) (fmter : Formatter) (b : string)
    (name : string) : string :=
  b +:+ aliasColumn_text j fmter name.

Definition dialect_AppendString (b : string) (s : string) : string :=
  b +:+ AppendString_text s.

(** The package-level [appendColumns(b, table, fields)]. *)
Definition appendColumns_fields (b : string) (alias : string)
    (fields : list Field) : string :=
  b +:+ fields_text alias fields.

(** Modelled from the spec: [setErr], the method of the base query that
    records a build error, is declared outside this file.  The builder
    carries a first-error slot, and the first error wins. *)
Definition setErr (e : error) (q : baseQuery) : baseQuery :=
  match err q with
  | None => set_err (Some e) q
  | Some _ => q
  end.

(** Modelled from the spec: [addWhereGroup], the method of the base query
    that takes the separator and the conditions built inside [WhereGroup],
    is declared outside this file.  It appends the conditions to the WHERE
    list as one explicit group with that separator: the separator, an
    opening parenthesis, the conditions in their order, a closing
    parenthesis.  The separator and the parentheses are entries without a
    condition. *)
Definition where_mark (text : string) : QueryWithSep :=
  mkQueryWithSep (mkQueryWithArgs "" None) text.

Definition where_group (sep : string) (where' : list QueryWithSep)
    : list QueryWithSep :=
  [where_mark sep; where_mark "("] ++ where' ++ [where_mark ")"].

Definition addWhereGroup (sep : string) (where' : list QueryWithSep)
    (q : whereBaseQuery) : whereBaseQuery :=
  set_where (where_ q ++ where_group sep where') q.

(** ** Configuration calls *)

Definition Apply (fn : SelectQuery -> SelectQuery) (q : SelectQuery) : SelectQuery :=
  fn q.

Definition Distinct (q : SelectQuery) : SelectQuery :=
  set_distinctOn (Some []) q.

Definition DistinctOn (query : string) (args : list Arg) (q : SelectQuery) :=
  set_distinctOn (append_nilable (distinctOn q) (SafeQuery query args)) q.

Definition ModelTableExpr (query : string) (args : list Arg) (q : SelectQuery) :=
  on_base (set_modelTable (SafeQuery query args)) q.

Definition Column (columns : list string) (q : SelectQuery) : SelectQuery :=
  foldl (fun q column => on_base (addColumn (UnsafeIdent column)) q) q columns.

Definition ColumnExpr (query : string) (args : list Arg) (q : SelectQuery) :=
  on_base (addColumn (SafeQuery query args)) q.

Definition Where (query : string) (args : list Arg) (q : SelectQuery) :=
  on_whereBase (addWhere (SafeQueryWithSep query args " AND ")) q.

Definition WhereOr (query : string) (args : list Arg) (q : SelectQuery) :=
  on_whereBase (addWhere (SafeQueryWithSep query args " OR ")) q.

(** [q = fn(q)]: the builder that [fn] returns is the one the call goes on
    with and returns. *)
Definition WhereGroup (sep : string) (fn : SelectQuery -> SelectQuery)
    (q : SelectQuery) : SelectQuery :=
  let saved := where_ q in
  let q := on_whereBase (set_where []) q in
  let q := fn q in
  let where' := where_ q in
  let q := on_whereBase (set_where saved) q in
  on_whereBase (addWhereGroup sep where') q.

Definition Group (columns : list string) (q : SelectQuery) : SelectQuery :=
  foldl (fun q column => set_group (group q ++ [UnsafeIdent column]) q) q columns.

Definition GroupExpr (group' : string) (args : list Arg) (q : SelectQuery) :=
  set_group (group q ++ [SafeQuery group' args]) q.

Definition Having (having' : string) (args : list Arg) (q : SelectQuery) :=
  set_having (having q ++ [SafeQuery having' args]) q.

Definition sort_directions : list string :=
  ["ASC"; "DESC"; "ASC NULLS FIRST"; "DESC NULLS FIRST";
   "ASC NULLS LAST"; "DESC NULLS LAST"].

(** One iteration of the loop of [Order]. *)
Definition Order_step (q : SelectQuery) (order' : string) : SelectQuery :=
  if String.eqb order' "" then q
  else
    let index := IndexByte order' " " in
    if index =? -1 then set_order (order q ++ [UnsafeIdent order']) q
    else
      let field := slice_to order' index in
      let sort := slice_from order' (index + 1) in
      if bool_decide (ToUpper sort ∈ sort_directions)
      then set_order (order q ++ [SafeQuery "? ?" [Ident field; Safe sort]]) q
      else set_order (order q ++ [UnsafeIdent order']) q.

Definition Order (orders : list string) (q : SelectQuery) : SelectQuery :=
  foldl Order_step q orders.

Definition OrderExpr (query : string) (args : list Arg) (q : SelectQuery) :=
  set_order (order q ++ [SafeQuery query args]) q.

Definition Limit (n : Z) (q : SelectQuery) : SelectQuery :=
  set_limit (int32 n) q.

Definition Offset (n : Z) (q : SelectQuery) : SelectQuery :=
  set_offset (int32 n) q.

Definition For (s : string) (args : list Arg) (q : SelectQuery) : SelectQuery :=
  set_selFor (SafeQuery s args) q.

Definition addUnion (expr' : string) (other : SelectQuery) (q : SelectQuery) :=
  set_union (union_ q ++ [mkUnion expr' other]) q.

Definition Union := addUnion " UNION ".
Definition UnionAll := addUnion " UNION ALL ".
Definition Intersect := addUnion " INTERSECT ".
Definition IntersectAll := addUnion " INTERSECT ALL ".
Definition Except := addUnion " EXCEPT ".
Definition ExceptAll := addUnion " EXCEPT ALL ".

Definition Join (join' : string) (args : list Arg) (q : SelectQuery) : SelectQuery :=
  set_joins (joins q ++ [mkJoinQuery (SafeQuery join' args) []]) q.

Definition joinOn (cond : string) (args : list Arg) (sep : string)
    (q : SelectQuery) : SelectQuery :=
  if (length (joins q) =? 0)%nat
  then on_base (set_err (Some (errors_New "bun: query has no joins"))) q
  else
    set_joins
      (alter (fun j => mkJoinQuery (jq_join j)
                         (jq_on j ++ [SafeQueryWithSep cond args sep]))
             (length (joins q) - 1)%nat (joins q)) q.

Definition JoinOn (cond : string) (args : list Arg) := joinOn cond args " AND ".
Definition JoinOnOr (cond : string) (args : list Arg) := joinOn cond args " OR ".

(** [Relation] panics on more than one apply function; otherwise it
    returns the builder. *)
Definition Relation (name : string) (apply : list (SelectQuery -> SelectQuery))
    (q : SelectQuery) : res SelectQuery :=
  match tableModel q with
  | None => Ok (on_base (setErr errNilModel) q)
  | Some tm =>
      fn ← match apply with
           | [] => Ok None
           | [f] => Ok (Some f)
           | _ => Panic "only one apply function is supported"
           end;
      let '(tm', join') := TableModel_Join tm name fn in
      let q := on_base (set_tableModel (Some tm')) q in
      match join' with
      | None =>
          Ok (on_base (setErr (fmt_Errorf "%s does not have relation=%q"
                                 [fmtTable (table q); fmtString name])) q)
      | Some _ => Ok q
      end
  end.

(** ** Rendering *)

Definition nil_dereference : string :=
  "invalid memory address or nil pointer dereference".

(** [_forEachHasOneJoin]: the callback [fn] updates the variables it has
    captured, here the state [s].  The recursion descends into the joins of
    a join model, so it is written on one join ([hasOneJoin_visit], the
    body of the loop) and the loop over a slice of joins follows;
    [_forEachHasOneJoin_cons] below is the loop as the source has it. *)
Fixpoint hasOneJoin_visit {St} (fn : join -> St -> res St)
    (j : join) (s : St) {struct j} : res St :=
  match Type_ (Relation_ j) with
  | HasOneRelation | BelongsToRelation =>
      s ← fn j s;
      for_range (fun _ j' s => hasOneJoin_visit fn j' s)
        0 (GetJoins (JoinModel j)) s
  | _ => Ok s
  end.

Definition _forEachHasOneJoin {St} (fn : join -> St -> res St)
    (joins' : list join) (s : St) : res St :=
  for_range (fun _ j s => hasOneJoin_visit fn j s) 0 joins' s.

Definition forEachHasOneJoin {St} (fn : join -> St -> res St)
    (q : SelectQuery) (s : St) : res St :=
  match tableModel q with
  | None => Ok s
  | Some tm => _forEachHasOneJoin fn (GetJoins tm) s
  end.

(** [join.applyQuery(q)] runs first; [join_columns] is [join.columns] as
    that call leaves it. *)
Definition appendHasOneColumns (q : SelectQuery) (fmter : Formatter)
    (b : string) (j : join) : res string :=
  match join_columns j q with
  | Some cols =>
      for_range (fun i col b =>
        let b := if (0 <? i)%nat then b +:+ ", " else b in
        match Args col with
        | None =>
            match table q with
            | None => Panic nil_dereference
            | Some t =>
                match FieldMap t !! Query col with
                | Some field =>
                    let b := appendAlias j fmter b in
                    let b := b +:+ "." in
                    let b := b +:+ SQLName field in
                    let b := b +:+ " AS " in
                    Ok (appendAliasColumn j fmter b (Name field))
                | None => QueryWithArgs_AppendQuery col fmter b
                end
            end
        | Some _ => QueryWithArgs_AppendQuery col fmter b
        end) 0 cols b
  | None =>
      for_range (fun i field b =>
        let b := if (0 <? i)%nat then b +:+ ", " else b in
        let b := appendAlias j fmter b in
        let b := b +:+ "." in
        let b := b +:+ SQLName field in
        let b := b +:+ " AS " in
        Ok (appendAliasColumn j fmter b (Name field)))
        0 (Fields (Table_ (JoinModel j))) b
  end.

Definition appendColumns (q : SelectQuery) (fmter : Formatter) (b : string)
    : res string :=
  let start := len b in
  b ← match columns q with
      | Some cols =>
          for_range (fun i col b =>
            let b := if (0 <? i)%nat then b +:+ ", " else b in
            match Args col with
            | None =>
                match table q with
                | None => Panic nil_dereference
                | Some t =>
                    match FieldMap t !! Query col with
                    | Some field =>
                        let b := b +:+ SQLAlias t in
                        let b := b +:+ "." in
                        Ok (b +:+ SQLName field)
                    | None => QueryWithArgs_AppendQuery col fmter b
                    end
                end
            | Some _ => QueryWithArgs_AppendQuery col fmter b
            end) 0 cols b
      | None =>
          match table q with
          | Some t =>
              if (10 <? length (Fields t))%nat && IsNop fmter
              then
                let b := b +:+ SQLAlias t in
                let b := b +:+ "." in
                Ok (dialect_AppendString b
                      (itoa (Z.of_nat (length (Fields t))) +:+ " columns"))
              else Ok (appendColumns_fields b (SQLAlias t) (Fields t))
          | None => Ok (b +:+ "*")
          end
      end;
  '(b, _) ← forEachHasOneJoin (fun j '(b, start) =>
      let '(b, start) :=
        if negb (len b =? start)%nat
        then let b := b +:+ ", " in (b, len b)
        else (b, start) in
      b ← appendHasOneColumns q fmter b j;
      Ok (b, start)) q (b, start);
  Ok (TrimSuffix b ", ").

Definition appendTables (q : SelectQuery) (fmter : Formatter) (b : string)
    : res string :=
  let b := b +:+ " FROM " in
  appendTablesWithAlias q fmter b.

Definition appendOrder (q : SelectQuery) (fmter : Formatter) (b : string)
    : res string :=
  if (0 <? length (order q))%nat
  then
    let b := b +:+ " ORDER BY " in
    for_range (fun i f b =>
      let b := if (0 <? i)%nat then b +:+ ", " else b in
      QueryWithArgs_AppendQuery f fmter b) 0 (order q) b
  else Ok b.

Definition joinQuery_AppendQuery (j : joinQuery) (fmter : Formatter)
    (b : string) : res string :=
  let b := b +:+ " " in
  b ← QueryWithArgs_AppendQuery (jq_join j) fmter b;
  if (0 <? length (jq_on j))%nat
  then
    let b := b +:+ " ON " in
    for_range (fun i on b =>
      let b := if (0 <? i)%nat then b +:+ Sep on else b in
      let b := b +:+ "(" in
      b ← QueryWithArgs_AppendQuery (QueryWithArgs_ on) fmter b;
      Ok (b +:+ ")")) 0 (jq_on j) b
  else Ok b.

(** [u.query.AppendQuery(fmter, b)] in the loop over the set operations is
    [u.query.appendQuery(formatterWithModel(fmter, u.query), b, false)]. *)
Fixpoint appendQuery (q : SelectQuery) (fmter : Formatter) (b : string)
    (count : bool) {struct q} : res string :=
  match err q with
  | Some e => Err e
  | None =>
      let cteCount :=
        count && ((0 <? length (group q))%nat
                  || bool_decide (distinctOn q <> None)) in
      let b := if cteCount then b +:+ "WITH _count_wrapper AS (" else b in
      let b := if (0 <? length (union_ q))%nat then b +:+ "(" else b in
      b ← appendWith q fmter b;
      let b := b +:+ "SELECT " in
      b ← (if (0 <? len_nilable (distinctOn q))%nat
           then
             let b := b +:+ "DISTINCT ON (" in
             b ← for_range (fun i app b =>
                    let b := if (0 <? i)%nat then b +:+ ", " else b in
                    QueryWithArgs_AppendQuery app fmter b)
                  0 (default [] (distinctOn q)) b;
             Ok (b +:+ ") ")
           else if bool_decide (distinctOn q <> None)
           then Ok (b +:+ "DISTINCT ")
           else Ok b);
      b ← (if count && negb cteCount
           then Ok (b +:+ "count(*)")
           else appendColumns q fmter b);
      b ← (if hasTables q then appendTables q fmter b else Ok b);
      b ← forEachHasOneJoin (fun j b =>
             let b := b +:+ " " in
             appendHasOneJoin j fmter b q) q b;
      b ← for_range (fun _ j b => joinQuery_AppendQuery j fmter b)
             0 (joins q) b;
      b ← appendWhere q fmter b true;
      b ← (if (0 <? length (group q))%nat
           then
             let b := b +:+ " GROUP BY " in
             for_range (fun i f b =>
               let b := if (0 <? i)%nat then b +:+ ", " else b in
               QueryWithArgs_AppendQuery f fmter b) 0 (group q) b
           else Ok b);
      b ← (if (0 <? length (having q))%nat
           then
             let b := b +:+ " HAVING " in
             for_range (fun i f b =>
               let b := if (0 <? i)%nat then b +:+ " AND " else b in
               let b := b +:+ "(" in
               b ← QueryWithArgs_AppendQuery f fmter b;
               Ok (b +:+ ")")) 0 (having q) b
           else Ok b);
      b ← (if negb count
           then
             b ← appendOrder q fmter b;
             let b := if negb (limit q =? 0)
                      then AppendInt (b +:+ " LIMIT ") (limit q) else b in
             let b := if negb (offset q =? 0)
                      then AppendInt (b +:+ " OFFSET ") (offset q) else b in
             if negb (IsZero (selFor q))
             then
               let b := b +:+ " FOR " in
               QueryWithArgs_AppendQuery (selFor q) fmter b
             else Ok b
           else Ok b);
      b ← (if (0 <? length (union_ q))%nat
           then
             let b := b +:+ ")" in
             for_range (fun _ u b =>
               let b := b +:+ expr u in
               let b := b +:+ "(" in
               b ← appendQuery (query u)
                     (formatterWithModel fmter (SelectQuery_arg (query u)))
                     b false;
               Ok (b +:+ ")")) 0 (union_ q) b
           else Ok b);
      let b := if cteCount
               then b +:+ ") SELECT count(*) FROM _count_wrapper" else b in
      Ok b
  end.

Definition AppendQuery (q : SelectQuery) (fmter : Formatter) (b : string)
    : res string :=
  appendQuery q (formatterWithModel fmter (SelectQuery_arg q)) b false.

Definition countQuery_AppendQuery (q : SelectQuery) (fmter : Formatter)
    (b : string) : res string :=
  appendQuery q (formatterWithModel fmter (countQuery_arg q)) b true.

(** ** Execution

    The calls that leave the program are recorded, in order, as events: the
    hooks, the render of the SQL text, the statements handed to the driver
    and the follow-up queries of the relation joins.  An operation maps the
    world to the new world, the events it caused and its result. *)

Inductive Event :=
| EvBeforeSelect
| EvAfterSelect
| EvAppendQuery
| EvQueryContext (query : string)
| EvExec (query : string)
| EvScan (query : string)
| EvJoinSelect (j : join)
| EvBeforeQuery (query : string)
| EvQueryRow (query : string)
| EvAfterQuery.

Definition IO (A : Type) : Type := World -> World * list Event * res A.

#[local] Instance IO_ret : MRet IO := fun _ a w => (w, [], Ok a).

#[local] Instance IO_bind : MBind IO := fun _ _ f m w =>
  match m w with
  | (w1, t1, Ok a) => let '(w2, t2, r) := f a w1 in (w2, t1 ++ t2, r)
  | (w1, t1, Err e) => (w1, t1, Err e)
  | (w1, t1, Panic msg) => (w1, t1, Panic msg)
  end.

(** A pure step of the program. *)
Definition pure {A} (r : res A) : IO A := fun w => (w, [], r).

(** A pure step that is recorded. *)
Definition traced {A} (ev : Event) (r : res A) : IO A := fun w => (w, [ev], r).

(** A call that leaves the program and returns [(T, error)]. *)
Definition extern {A} (ev : Event) (f : World -> World * res A) : IO A :=
  fun w => let '(w', r) := f w in (w', [ev], r).

(** A call that leaves the program and returns [error]. *)
Definition extern_err (ev : Event) (f : World -> World * option error) : IO unit :=
  fun w => let '(w', e) := f w in
           (w', [ev], match e with Some e => Err e | None => Ok tt end).

Fixpoint io_range {A} (body : A -> IO unit) (l : list A) : IO unit :=
  match l with
  | [] => mret tt
  | x :: l' => _ ← body x; io_range body l'
  end.

(** [selectJoins]: as for [_forEachHasOneJoin], the body of the loop is
    written on one join and the loop follows. *)
Fixpoint selectJoin_visit (q : SelectQuery) (j : join) {struct j} : IO unit :=
  match Type_ (Relation_ j) with
  | HasOneRelation | BelongsToRelation =>
      io_range (fun j' => selectJoin_visit q j') (GetJoins (JoinModel j))
  | _ => extern_err (EvJoinSelect j) (join_Select j (db q))
  end.

Definition selectJoins (q : SelectQuery) (joins' : list join) : IO unit :=
  io_range (selectJoin_visit q) joins'.

Definition beforeSelectHook (q : SelectQuery) : IO unit :=
  match table q with
  | None => pure (Panic nil_dereference)
  | Some t =>
      match as_BeforeSelectHook (ZeroIface t) with
      | Some hook => extern_err EvBeforeSelect (hook q)
      | None => mret tt
      end
  end.

Definition afterSelectHook (q : SelectQuery) : IO unit :=
  match table q with
  | None => pure (Panic nil_dereference)
  | Some t =>
      match as_AfterSelectHook (ZeroIface t) with
      | Some hook => extern_err EvAfterSelect (hook q)
      | None => mret tt
      end
  end.

Definition Rows (q : SelectQuery) : IO SqlRows :=
  queryBytes ← traced EvAppendQuery
                 (AppendQuery q (DB_fmter (db q)) (makeQueryBytes (db q)));
  let query' := queryBytes in
  extern (EvQueryContext query') (conn_QueryContext (conn q) query').

Definition Exec (q : SelectQuery) : IO SqlResult :=
  queryBytes ← traced EvAppendQuery
                 (AppendQuery q (DB_fmter (db q)) (makeQueryBytes (db q)));
  let query' := queryBytes in
  extern (EvExec query') (base_exec q query').

Definition Scan (dest : list Dest) (q : SelectQuery) : IO unit :=
  model ← pure (getModel q dest);
  let model :=
    if 1 <? limit q
    then match as_SetCap model with
         | Some setCap => setCap (limit q)
         | None => model
         end
    else model in
  _ ← (if bool_decide (table q <> None) then beforeSelectHook q else mret tt);
  queryBytes ← traced EvAppendQuery
                 (AppendQuery q (DB_fmter (db q)) (makeQueryBytes (db q)));
  let query' := queryBytes in
  '(n, model) ← extern (EvScan query') (base_scan q query' model true);
  _ ← (if 0 <? n
       then match as_tableModel model with
            | Some tm => selectJoins q (GetJoins tm)
            | None => mret tt
            end
       else mret tt);
  _ ← (if bool_decide (table q <> None) then afterSelectHook q else mret tt);
  mret tt.

(** [Count] returns [(0, err)] when the render fails and otherwise the
    number and the error of the driver. *)
Definition Count (q : SelectQuery) : IO (Z * option error) := fun w =>
  match appendQuery q (DB_fmter (db q)) "" true with
  | Err e => (w, [EvAppendQuery], Ok (0, Some e))
  | Panic msg => (w, [EvAppendQuery], Panic msg)
  | Ok queryBytes =>
      let query' := queryBytes in
      let w := db_beforeQuery (db q) query' w in
      let '(w, (num, err')) := conn_QueryRow_Scan (conn q) query' w in
      let w := db_afterQuery (db q) err' w in
      (w, [EvAppendQuery; EvBeforeQuery query'; EvQueryRow query'; EvAfterQuery],
       Ok (num, err'))
  end.

(** ** The clauses of the rendered statement

    The text of each clause on its own, and the statement as the clauses
    in their order.  These definitions follow the description of the
    render; the theorems below compare them with [appendQuery]. *)

Definition fragment_text (fmter : Formatter) (a : QueryWithArgs) : res string :=
  QueryWithArgs_text a fmter.

Definition with_clause (fmter : Formatter) (q : SelectQuery) : res string :=
  with_text q fmter.

(** [DISTINCT], [DISTINCT ON (...)] or nothing. *)
Definition distinct_clause (fmter : Formatter) (q : SelectQuery) : res string :=
  match distinctOn q with
  | None => Ok ""
  | Some [] => Ok "DISTINCT "
  | Some l =>
      ts ← sep_texts ", " (fragment_text fmter) l;
      Ok ("DISTINCT ON (" +:+ ts +:+ ") ")
  end.

(** An explicit column: a plain identifier that names a field of the table
    is that field, qualified by the table alias; anything else is rendered
    as the fragment it is. *)
Definition column_text (fmter : Formatter) (q : SelectQuery)
    (col : QueryWithArgs) : res string :=
  match Args col, table q with
  | None, None => Panic nil_dereference
  | None, Some t =>
      match FieldMap t !! Query col with
      | Some field => Ok (SQLAlias t +:+ "." +:+ SQLName field)
      | None => fragment_text fmter col
      end
  | Some _, _ => fragment_text fmter col
  end.

(** The column list before the relation blocks, as the description has it:
    the explicit columns if set, otherwise all fields of the table,
    otherwise [*]. *)
Definition described_base_columns (fmter : Formatter) (q : SelectQuery)
    : res string :=
  match columns q, table q with
  | Some cols, _ => sep_texts ", " (column_text fmter q) cols
  | None, Some t => Ok (fields_text (SQLAlias t) (Fields t))
  | None, None => Ok "*"
  end.

(** The same with the summary that a no-op formatter gets for a table of
    more than ten fields. *)
Definition base_columns (fmter : Formatter) (q : SelectQuery) : res string :=
  match columns q, table q with
  | None, Some t =>
      if (10 <? length (Fields t))%nat && IsNop fmter
      then Ok (SQLAlias t +:+ "." +:+
               AppendString_text
                 (itoa (Z.of_nat (length (Fields t))) +:+ " columns"))
      else described_base_columns fmter q
  | _, _ => described_base_columns fmter q
  end.

(** The to-one joins of a list of joins, parents before children, in the
    order of declaration. *)
Fixpoint to_one_visit (j : join) : list join :=
  match Type_ (Relation_ j) with
  | HasOneRelation | BelongsToRelation =>
      j :: flat_map to_one_visit (GetJoins (JoinModel j))
  | _ => []
  end.

Definition to_one_joins (joins' : list join) : list join :=
  flat_map to_one_visit joins'.

Definition to_one_joins_of (q : SelectQuery) : list join :=
  match tableModel q with
  | None => []
  | Some tm => to_one_joins (GetJoins tm)
  end.

(** A column of a relation block: [alias.column AS alias__name]. *)
Definition relation_field_text (fmter : Formatter) (j : join) (field : Field)
    : string :=
  alias_text j fmter +:+ "." +:+ SQLName field +:+ " AS " +:+
  aliasColumn_text j fmter (Name field).

Definition relation_column_text (fmter : Formatter) (q : SelectQuery)
    (j : join) (col : QueryWithArgs) : res string :=
  match Args col, table q with
  | None, None => Panic nil_dereference
  | None, Some t =>
      match FieldMap t !! Query col with
      | Some field => Ok (relation_field_text fmter j field)
      | None => fragment_text fmter col
      end
  | Some _, _ => fragment_text fmter col
  end.

(** The column block of a to-one relation: the columns chosen for the
    relation, or all fields of the related table. *)
Definition relation_columns (fmter : Formatter) (q : SelectQuery) (j : join)
    : res string :=
  match join_columns j q with
  | Some cols => sep_texts ", " (relation_column_text fmter q j) cols
  | None =>
      sep_texts ", " (fun field => Ok (relation_field_text fmter j field))
        (Fields (Table_ (JoinModel j)))
  end.

(** Items separated by commas: every item but the last is followed by a
    comma unless it is empty. *)
Fixpoint comma_items (items : list string) : string :=
  match items with
  | [] => ""
  | x :: r =>
      match r with
      | [] => x
      | _ => (if String.eqb x "" then "" else x +:+ ", ") +:+ comma_items r
      end
  end.

(** The blocks as the loop of [appendColumns] adds them: a separator goes
    before a block when text was written since the last separator. *)
Fixpoint separated_blocks (pending : bool) (blocks : list string) : string :=
  match blocks with
  | [] => ""
  | x :: r =>
      (if pending then ", " else "") +:+ x +:+
      separated_blocks (negb (String.eqb x "")) r
  end.

(** The column list: the base columns, then one block per to-one
    relation; a trailing separator is trimmed. *)
Definition columns_clause_of (base : res string) (fmter : Formatter)
    (q : SelectQuery) : res string :=
  b0 ← base;
  blocks ← mapM (relation_columns fmter q) (to_one_joins_of q);
  Ok (TrimSuffix (comma_items (b0 :: blocks)) ", ").

Definition columns_clause (fmter : Formatter) (q : SelectQuery) : res string :=
  columns_clause_of (base_columns fmter q) fmter q.


Definition from_clause (fmter : Formatter) (q : SelectQuery) : res string :=
  if hasTables q
  then t ← tables_text q fmter; Ok (" FROM " +:+ t)
  else Ok "".

(** The joins of the to-one relations. *)
Definition relation_joins_clause (fmter : Formatter) (q : SelectQuery)
    : res string :=
  concat_texts (fun j => t ← hasOneJoin_text j fmter q; Ok (" " +:+ t))
    (to_one_joins_of q).

Definition on_text (fmter : Formatter) (on : QueryWithSep) : res string :=
  t ← fragment_text fmter (QueryWithArgs_ on); Ok ("(" +:+ t +:+ ")").

(** An explicit join with its conditions; the separator of a condition
    goes before it, except before the first. *)
Definition join_text (fmter : Formatter) (j : joinQuery) : res string :=
  t ← fragment_text fmter (jq_join j);
  ons ← match jq_on j with
        | [] => Ok ""
        | c :: r =>
            t0 ← on_text fmter c;
            ts ← concat_texts
                   (fun on => u ← on_text fmter on; Ok (Sep on +:+ u)) r;
            Ok (" ON " +:+ t0 +:+ ts)
        end;
  Ok (" " +:+ t +:+ ons).

Definition joins_clause (fmter : Formatter) (q : SelectQuery) : res string :=
  concat_texts (join_text fmter) (joins q).

Definition where_clause (fmter : Formatter) (q : SelectQuery) : res string :=
  where_text q fmter true.

Definition group_clause (fmter : Formatter) (q : SelectQuery) : res string :=
  match group q with
  | [] => Ok ""
  | l => ts ← sep_texts ", " (fragment_text fmter) l; Ok (" GROUP BY " +:+ ts)
  end.

Definition having_clause (fmter : Formatter) (q : SelectQuery) : res string :=
  match having q with
  | [] => Ok ""
  | l =>
      ts ← sep_texts " AND "
             (fun f => t ← fragment_text fmter f; Ok ("(" +:+ t +:+ ")")) l;
      Ok (" HAVING " +:+ ts)
  end.

Definition order_clause (fmter : Formatter) (q : SelectQuery) : res string :=
  match order q with
  | [] => Ok ""
  | l => ts ← sep_texts ", " (fragment_text fmter) l; Ok (" ORDER BY " +:+ ts)
  end.

Definition limit_clause (q : SelectQuery) : string :=
  if limit q =? 0 then "" else " LIMIT " +:+ itoa (limit q).

Definition offset_clause (q : SelectQuery) : string :=
  if offset q =? 0 then "" else " OFFSET " +:+ itoa (offset q).

Definition for_clause (fmter : Formatter) (q : SelectQuery) : res string :=
  if IsZero (selFor q)
  then Ok ""
  else t ← fragment_text fmter (selFor q); Ok (" FOR " +:+ t).

(** The tail of the set operations: each operator followed by the other
    query, rendered on its own, in parentheses. *)
Definition set_operations (fmter : Formatter) (q : SelectQuery) : res string :=
  concat_texts (fun u => t ← AppendQuery (query u) fmter "";
                         Ok (expr u +:+ "(" +:+ t +:+ ")")) (union_ q).

(** The clauses of the primary statement in their order, with [cols] as
    the column list; [tail] tells whether ORDER BY, LIMIT, OFFSET and FOR
    are part of it. *)
Definition primary_clauses (cols : res string) (tail : bool)
    (fmter : Formatter) (q : SelectQuery) : list (res string) :=
  [ with_clause fmter q;
    Ok "SELECT ";
    distinct_clause fmter q;
    cols;
    from_clause fmter q;
    relation_joins_clause fmter q;
    joins_clause fmter q;
    where_clause fmter q;
    group_clause fmter q;
    having_clause fmter q ]
  ++ (if tail
      then [ order_clause fmter q;
             Ok (limit_clause q);
             Ok (offset_clause q);
             for_clause fmter q ]
      else []).

(** The statement: the primary statement, in parentheses and followed by
    the set operations when there are any. *)
Definition statement_of (cols : res string) (tail : bool)
    (fmter : Formatter) (q : SelectQuery) : res string :=
  p ← concat_clauses (primary_clauses cols tail fmter q);
  match union_ q with
  | [] => Ok p
  | _ =>
      ts ← set_operations fmter q;
      Ok ("(" +:+ p +:+ ")" +:+ ts)
  end.

Definition select_statement (fmter : Formatter) (q : SelectQuery) : res string :=
  statement_of (columns_clause fmter q) true fmter q.


(** The counting statement.  A grouped or distinct query is rendered with
    its column list and wrapped; any other query gets the text "count(*)" for
    its column list.  ORDER BY, LIMIT, OFFSET and FOR are left out. *)
Definition counts_wrapped (q : SelectQuery) : bool :=
  (0 <? length (group q))%nat || bool_decide (distinctOn q <> None).

Definition count_statement (fmter : Formatter) (q : SelectQuery) : res string :=
  if counts_wrapped q
  then
    s ← statement_of (columns_clause fmter q) false fmter q;
    Ok ("WITH _count_wrapper AS (" +:+ s +:+
        ") SELECT count(*) FROM _count_wrapper")
  else statement_of (Ok "count(*)") false fmter q.

(** ** The renderer and the clauses

    Each loop and helper of the renderer appends the text of its clause. *)

Lemma join_nested_ind (P : join -> Prop) :
  (forall j, Forall P (GetJoins (JoinModel j)) -> P j) -> forall j, P j.
Proof.
  intros IH. fix F 1. intros [r [t js]]. apply IH. cbn.
  induction js as [|j js IHjs]; constructor; [apply F | exact IHjs].
Qed.

Lemma SelectQuery_nested_ind (P : SelectQuery -> Prop) :
  (forall q, Forall (fun u => P (query u)) (union_ q) -> P q) -> forall q, P q.
Proof.
  intros IH. fix F 1. intros q. apply IH.
  destruct q as [w d j g h o l f s us]. cbn.
  induction us as [|[e q'] us IHus]; constructor; [apply F | exact IHus].
Qed.

Lemma hasOneJoin_visit_eq {St} (fn : join -> St -> res St) (j : join) (s : St) :
  hasOneJoin_visit fn j s
  = match Type_ (Relation_ j) with
    | HasOneRelation | BelongsToRelation =>
        s ← fn j s; _forEachHasOneJoin fn (GetJoins (JoinModel j)) s
    | _ => Ok s
    end.
Proof. destruct j; reflexivity. Qed.

(** The loop of [_forEachHasOneJoin] as the source has it. *)
Lemma _forEachHasOneJoin_cons {St} (fn : join -> St -> res St)
    (j : join) (rest : list join) (s : St) :
  _forEachHasOneJoin fn (j :: rest) s
  = (s ← match Type_ (Relation_ j) with
         | HasOneRelation | BelongsToRelation =>
             s ← fn j s; _forEachHasOneJoin fn (GetJoins (JoinModel j)) s
         | _ => Ok s
         end;
     _forEachHasOneJoin fn rest s).
Proof.
  unfold _forEachHasOneJoin at 1. cbn [for_range].
  rewrite hasOneJoin_visit_eq. apply Loops.bind_ext. intros s'.
  apply Loops.for_range_shift.
Qed.

Lemma to_one_visit_eq (j : join) :
  to_one_visit j
  = match Type_ (Relation_ j) with
    | HasOneRelation | BelongsToRelation => j :: to_one_joins (GetJoins (JoinModel j))
    | _ => []
    end.
Proof. destruct j; reflexivity. Qed.

(** [_forEachHasOneJoin] calls [fn] on the to-one joins, parents first. *)
Lemma _forEachHasOneJoin_to_one {St} (fn : join -> St -> res St) (joins' : list join) :
  forall s,
    _forEachHasOneJoin fn joins' s
    = for_range (fun _ => fn) 0 (to_one_joins joins') s.
Proof.
  assert (Hvisit : forall j s,
    hasOneJoin_visit fn j s = for_range (fun _ => fn) 0 (to_one_visit j) s).
  { intros j. induction j as [j IH] using join_nested_ind. intros s.
    assert (Hlist : forall s, _forEachHasOneJoin fn (GetJoins (JoinModel j)) s
              = for_range (fun _ => fn) 0 (to_one_joins (GetJoins (JoinModel j))) s).
    { induction IH as [|j' js Hj' _ IHjs]; intros s0; [reflexivity|].
      unfold _forEachHasOneJoin, to_one_joins in *. cbn [for_range flat_map].
      rewrite Loops.for_range_app, Hj'. apply Loops.bind_ext. intros s1.
      rewrite (Loops.for_range_shift _ _ 1%nat 0%nat), IHjs.
      apply Loops.for_range_shift. }
    rewrite hasOneJoin_visit_eq, to_one_visit_eq.
    destruct (Type_ (Relation_ j)); try reflexivity;
      cbn [for_range]; apply Loops.bind_ext; intros s1;
      rewrite Hlist; apply Loops.for_range_shift. }
  induction joins' as [|j js IH]; intros s; [reflexivity|].
  unfold _forEachHasOneJoin, to_one_joins in *. cbn [for_range flat_map].
  rewrite Loops.for_range_app, Hvisit. apply Loops.bind_ext. intros s1.
  rewrite (Loops.for_range_shift _ _ 1%nat 0%nat), IH.
  apply Loops.for_range_shift.
Qed.

Lemma forEachHasOneJoin_to_one {St} (fn : join -> St -> res St) (q : SelectQuery) (s : St) :
  forEachHasOneJoin fn q s = for_range (fun _ => fn) 0 (to_one_joins_of q) s.
Proof.
  unfold forEachHasOneJoin, to_one_joins_of.
  destruct (tableModel q); [apply _forEachHasOneJoin_to_one | reflexivity].
Qed.

Lemma fragments_loop (fmter : Formatter) (l : list QueryWithArgs) (b : string) :
  for_range (fun i f b =>
    let b := if (0 <? i)%nat then b +:+ ", " else b in
    QueryWithArgs_AppendQuery f fmter b) 0 l b
  = (sep_texts ", " (fragment_text fmter) l ≫= fun ts => Ok (b +:+ ts)).
Proof. apply Loops.for_range_sep. intros i x b'. reflexivity. Qed.

Lemma having_loop (fmter : Formatter) (l : list QueryWithArgs) (b : string) :
  for_range (fun i f b =>
    let b := if (0 <? i)%nat then b +:+ " AND " else b in
    let b := b +:+ "(" in
    b ← QueryWithArgs_AppendQuery f fmter b;
    Ok (b +:+ ")")) 0 l b
  = (sep_texts " AND "
       (fun f => t ← fragment_text fmter f; Ok ("(" +:+ t +:+ ")")) l
     ≫= fun ts => Ok (b +:+ ts)).
Proof.
  apply Loops.for_range_sep. intros i x b'.
  unfold QueryWithArgs_AppendQuery, fragment_text.
  destruct (QueryWithArgs_text x fmter); cbn; [|reflexivity..].
  now str_norm.
Qed.

Lemma joinQuery_AppendQuery_text (j : joinQuery) (fmter : Formatter) (b : string) :
  joinQuery_AppendQuery j fmter b = (join_text fmter j ≫= fun t => Ok (b +:+ t)).
Proof.
  unfold joinQuery_AppendQuery, join_text, QueryWithArgs_AppendQuery, fragment_text.
  destruct (QueryWithArgs_text (jq_join j) fmter) as [t| |]; cbn; [|reflexivity..].
  destruct (jq_on j) as [|c r]; cbn [length Nat.ltb Nat.leb].
  - cbn. now str_norm.
  - rewrite (Loops.for_range_texts
               (fun i on => on_text fmter on ≫= fun u =>
                  Ok ((if (0 <? i)%nat then Sep on else "") +:+ u))).
    2:{ intros i on b'. unfold on_text, fragment_text.
        destruct (QueryWithArgs_text (QueryWithArgs_ on) fmter); cbn;
          [|reflexivity..].
        destruct i; now str_norm. }
    cbn [texts_from].
    rewrite (Loops.texts_from_pos _
               (fun _ on => u ← on_text fmter on; Ok (Sep on +:+ u)))
      by reflexivity.
    rewrite Loops.texts_from_const.
    destruct (on_text fmter c); cbn; [|reflexivity..].
    destruct (concat_texts _ r); cbn; [|reflexivity..].
    now str_norm.
Qed.

Lemma joins_loop (fmter : Formatter) (l : list joinQuery) (b : string) :
  for_range (fun _ j b => joinQuery_AppendQuery j fmter b) 0 l b
  = (concat_texts (join_text fmter) l ≫= fun ts => Ok (b +:+ ts)).
Proof.
  rewrite (Loops.for_range_texts (fun _ => join_text fmter)).
  - now rewrite Loops.texts_from_const.
  - intros _ j b'. apply joinQuery_AppendQuery_text.
Qed.

Lemma relation_joins_loop (fmter : Formatter) (q : SelectQuery) (b : string) :
  forEachHasOneJoin (fun j b =>
    let b := b +:+ " " in appendHasOneJoin j fmter b q) q b
  = (relation_joins_clause fmter q ≫= fun ts => Ok (b +:+ ts)).
Proof.
  rewrite forEachHasOneJoin_to_one. unfold relation_joins_clause.
  rewrite (Loops.for_range_texts
             (fun _ j => t ← hasOneJoin_text j fmter q; Ok (" " +:+ t))).
  - now rewrite Loops.texts_from_const.
  - intros _ j b'. unfold appendHasOneJoin.
    destruct (hasOneJoin_text j fmter q); cbn; [|reflexivity..].
    now str_norm.
Qed.

Lemma appendOrder_text (q : SelectQuery) (fmter : Formatter) (b : string) :
  appendOrder q fmter b = (order_clause fmter q ≫= fun t => Ok (b +:+ t)).
Proof.
  unfold appendOrder, order_clause.
  destruct (order q) as [|f l] eqn:Ho; cbn [length Nat.ltb Nat.leb].
  - cbn. now str_norm.
  - rewrite fragments_loop.
    destruct (sep_texts ", " (fragment_text fmter) (f :: l)); cbn;
      [|reflexivity..].
    now str_norm.
Qed.

Lemma appendHasOneColumns_text (q : SelectQuery) (fmter : Formatter)
    (b : string) (j : join) :
  appendHasOneColumns q fmter b j
  = (relation_columns fmter q j ≫= fun t => Ok (b +:+ t)).
Proof.
  unfold appendHasOneColumns, relation_columns.
  destruct (join_columns j q) as [cols|].
  - apply Loops.for_range_sep. intros i col b'.
    unfold relation_column_text, QueryWithArgs_AppendQuery, fragment_text,
      relation_field_text, appendAliasColumn, appendAlias.
    destruct (Args col); [reflexivity|].
    destruct (table q) as [t|]; [|reflexivity].
    destruct (FieldMap t !! Query col); [|reflexivity].
    cbn. now str_norm.
  - apply Loops.for_range_sep. intros i field b'.
    unfold relation_field_text, appendAliasColumn, appendAlias.
    cbn. now str_norm.
Qed.

Lemma len_app_eqb (b x : string) :
  (len (b +:+ x) =? len b)%nat = String.eqb x "".
Proof.
  unfold len. rewrite Str.length_app.
  destruct x as [|c x]; cbn [String.length String.eqb].
  - rewrite Nat.add_0_r. apply Nat.eqb_refl.
  - apply Nat.eqb_neq. lia.
Qed.

Lemma separated_blocks_comma_items (b0 : string) (blocks : list string) :
  b0 +:+ separated_blocks (negb (String.eqb b0 "")) blocks
  = comma_items (b0 :: blocks).
Proof.
  revert b0. induction blocks as [|x r IH]; intros b0.
  - cbn. now str_norm.
  - cbn [separated_blocks]. rewrite IH.
    change (comma_items (b0 :: x :: r))
      with ((if String.eqb b0 "" then "" else b0 +:+ ", ") +:+ comma_items (x :: r)).
    destruct (String.eqb_spec b0 "") as [->|_]; cbn [negb]; now str_norm.
Qed.

(** The loop over the relation blocks of [appendColumns], followed by the
    trim. *)
Lemma blocks_loop (q : SelectQuery) (fmter : Formatter)
    (body : join -> string * nat -> res (string * nat)) :
  (forall j b start,
      body j (b, start)
      = (relation_columns fmter q j ≫= fun blk =>
           Ok (if negb (len b =? start)%nat
               then ((b +:+ ", ") +:+ blk, len (b +:+ ", "))
               else (b +:+ blk, start)))) ->
  forall js b start,
    (for_range (fun _ => body) 0 js (b, start)
       ≫= fun '(b, _) => Ok (TrimSuffix b ", "))
    = (mapM (relation_columns fmter q) js ≫= fun blocks =>
         Ok (TrimSuffix
               (b +:+ separated_blocks (negb (len b =? start)%nat) blocks) ", ")).
Proof.
  intros Hbody js. induction js as [|j js IH]; intros b start.
  - cbn. now str_norm.
  - cbn [for_range mapM]. rewrite Hbody, !Loops.bind_assoc.
    destruct (relation_columns fmter q j) as [blk| |]; cbn [mbind result_bind];
      [|reflexivity..].
    rewrite (Loops.for_range_shift _ _ 1%nat 0%nat).
    destruct (negb (len b =? start)%nat) eqn:Hp.
    + rewrite IH, len_app_eqb.
      destruct (mapM (relation_columns fmter q) js); cbn; [|reflexivity..].
      now str_norm.
    + apply negb_false_iff, Nat.eqb_eq in Hp. subst start.
      rewrite IH, len_app_eqb.
      destruct (mapM (relation_columns fmter q) js); cbn; [|reflexivity..].
      now str_norm.
Qed.

Lemma column_loop (q : SelectQuery) (fmter : Formatter)
    (cols : list QueryWithArgs) (b : string) :
  for_range (fun i col b =>
    let b := if (0 <? i)%nat then b +:+ ", " else b in
    match Args col with
    | None =>
        match table q with
        | None => Panic nil_dereference
        | Some t =>
            match FieldMap t !! Query col with
            | Some field =>
                let b := b +:+ SQLAlias t in
                let b := b +:+ "." in
                Ok (b +:+ SQLName field)
            | None => QueryWithArgs_AppendQuery col fmter b
            end
        end
    | Some _ => QueryWithArgs_AppendQuery col fmter b
    end) 0 cols b
  = (sep_texts ", " (column_text fmter q) cols ≫= fun ts => Ok (b +:+ ts)).
Proof.
  apply Loops.for_range_sep. intros i col b'.
  unfold column_text, QueryWithArgs_AppendQuery, fragment_text.
  destruct (Args col); [reflexivity|].
  destruct (table q) as [t|]; [|reflexivity].
  destruct (FieldMap t !! Query col); [|reflexivity].
  cbn. now str_norm.
Qed.

(** [appendColumns] appends the column list when the buffer ends, as it does
    after SELECT and DISTINCT, in a space that follows no comma. *)
Lemma appendColumns_text (q : SelectQuery) (fmter : Formatter)
    (p : string) (a : ascii) :
  a <> ","%char ->
  appendColumns q fmter (p +:+ String a " ")
  = (columns_clause fmter q ≫= fun t => Ok ((p +:+ String a " ") +:+ t)).
Proof.
  intros Ha. unfold appendColumns, columns_clause, columns_clause_of.
  set (b := p +:+ String a " ").
  match goal with
  | |- (?base ≫= _) = _ =>
      assert (Hbase : base = (base_columns fmter q ≫= fun t => Ok (b +:+ t)))
  end.
  { unfold base_columns, described_base_columns.
    destruct (columns q) as [cols|].
    - apply column_loop.
    - destruct (table q) as [t|]; [|reflexivity].
      unfold dialect_AppendString, appendColumns_fields.
      destruct ((10 <? length (Fields t))%nat && IsNop fmter); cbn;
        now str_norm. }
  rewrite Hbase, !Loops.bind_assoc. clear Hbase.
  destruct (base_columns fmter q) as [b0| |]; cbn [mbind result_bind];
    [|reflexivity..].
  rewrite forEachHasOneJoin_to_one.
  rewrite (blocks_loop q fmter).
  2:{ intros j b' start.
      destruct (negb (len b' =? start)%nat);
        rewrite appendHasOneColumns_text;
        destruct (relation_columns fmter q j); reflexivity. }
  rewrite len_app_eqb.
  destruct (mapM (relation_columns fmter q) (to_one_joins_of q)) as [blocks| |];
    cbn [mbind result_bind]; [|reflexivity..].
  rewrite Str.app_assoc, separated_blocks_comma_items.
  unfold b. now rewrite Str.TrimSuffix_after_space.
Qed.

(** *** The stages of [appendQuery]

    The body of [appendQuery] is a sequence of stages, each of which extends
    the buffer; the stages are named here to state what each appends. *)

Definition distinct_stage (q : SelectQuery) (fmter : Formatter) (b : string)
    : res string :=
  if (0 <? len_nilable (distinctOn q))%nat
  then
    let b := b +:+ "DISTINCT ON (" in
    b ← for_range (fun i app b =>
           let b := if (0 <? i)%nat then b +:+ ", " else b in
           QueryWithArgs_AppendQuery app fmter b)
         0 (default [] (distinctOn q)) b;
    Ok (b +:+ ") ")
  else if bool_decide (distinctOn q <> None)
  then Ok (b +:+ "DISTINCT ")
  else Ok b.

Definition from_stage (q : SelectQuery) (fmter : Formatter) (b : string)
    : res string :=
  if hasTables q then appendTables q fmter b else Ok b.

Definition group_stage (q : SelectQuery) (fmter : Formatter) (b : string)
    : res string :=
  if (0 <? length (group q))%nat
  then
    let b := b +:+ " GROUP BY " in
    for_range (fun i f b =>
      let b := if (0 <? i)%nat then b +:+ ", " else b in
      QueryWithArgs_AppendQuery f fmter b) 0 (group q) b
  else Ok b.

Definition having_stage (q : SelectQuery) (fmter : Formatter) (b : string)
    : res string :=
  if (0 <? length (having q))%nat
  then
    let b := b +:+ " HAVING " in
    for_range (fun i f b =>
      let b := if (0 <? i)%nat then b +:+ " AND " else b in
      let b := b +:+ "(" in
      b ← QueryWithArgs_AppendQuery f fmter b;
      Ok (b +:+ ")")) 0 (having q) b
  else Ok b.

Definition tail_stage (q : SelectQuery) (fmter : Formatter) (b : string)
    : res string :=
  b ← appendOrder q fmter b;
  let b := if negb (limit q =? 0)
           then AppendInt (b +:+ " LIMIT ") (limit q) else b in
  let b := if negb (offset q =? 0)
           then AppendInt (b +:+ " OFFSET ") (offset q) else b in
  if negb (IsZero (selFor q))
  then
    let b := b +:+ " FOR " in
    QueryWithArgs_AppendQuery (selFor q) fmter b
  else Ok b.

Definition unions_stage (q : SelectQuery) (fmter : Formatter) (b : string)
    : res string :=
  if (0 <? length (union_ q))%nat
  then
    let b := b +:+ ")" in
    for_range (fun _ u b =>
      let b := b +:+ expr u in
      let b := b +:+ "(" in
      b ← appendQuery (query u)
            (formatterWithModel fmter (SelectQuery_arg (query u))) b false;
      Ok (b +:+ ")")) 0 (union_ q) b
  else Ok b.

Lemma appendQuery_unfold (q : SelectQuery) (fmter : Formatter) (b : string)
    (count : bool) :
  appendQuery q fmter b count
  = match err q with
    | Some e => Err e
    | None =>
        let cteCount := count && counts_wrapped q in
        let b := if cteCount then b +:+ "WITH _count_wrapper AS (" else b in
        let b := if (0 <? length (union_ q))%nat then b +:+ "(" else b in
        b ← appendWith q fmter b;
        b ← distinct_stage q fmter (b +:+ "SELECT ");
        b ← (if count && negb cteCount
             then Ok (b +:+ "count(*)")
             else appendColumns q fmter b);
        b ← from_stage q fmter b;
        b ← forEachHasOneJoin (fun j b =>
               let b := b +:+ " " in
               appendHasOneJoin j fmter b q) q b;
        b ← for_range (fun _ j b => joinQuery_AppendQuery j fmter b)
               0 (joins q) b;
        b ← appendWhere q fmter b true;
        b ← group_stage q fmter b;
        b ← having_stage q fmter b;
        b ← (if negb count then tail_stage q fmter b else Ok b);
        b ← unions_stage q fmter b;
        Ok (if cteCount
            then b +:+ ") SELECT count(*) FROM _count_wrapper" else b)
    end.
Proof. destruct q; reflexivity. Qed.

(** A buffer that ends in a space which follows no comma. *)
Definition open_space (b : string) : Prop :=
  exists p a, a <> ","%char /\ b = p +:+ String a " ".

Lemma open_space_app (x y : string) : open_space y -> open_space (x +:+ y).
Proof.
  intros (p & a & Ha & ->). exists (x +:+ p), a. split; [exact Ha|].
  now rewrite Str.app_assoc.
Qed.

Lemma appendColumns_open_space (q : SelectQuery) (fmter : Formatter) (b : string) :
  open_space b ->
  appendColumns q fmter b = (columns_clause fmter q ≫= fun t => Ok (b +:+ t)).
Proof. intros (p & a & Ha & ->). now apply appendColumns_text. Qed.

Lemma distinct_stage_text (q : SelectQuery) (fmter : Formatter) (b : string) :
  distinct_stage q fmter b
  = (distinct_clause fmter q ≫= fun t => Ok (b +:+ t)).
Proof.
  unfold distinct_stage, distinct_clause.
  destruct (distinctOn q) as [[|f l]|];
    cbn [len_nilable default from_option id length Nat.ltb Nat.leb].
  - rewrite bool_decide_true by discriminate. reflexivity.
  - rewrite fragments_loop.
    destruct (sep_texts ", " (fragment_text fmter) (f :: l)); cbn;
      [|reflexivity..].
    now str_norm.
  - rewrite bool_decide_false by tauto. cbn. now str_norm.
Qed.

Lemma distinct_clause_open_space (q : SelectQuery) (fmter : Formatter)
    (b t : string) :
  distinct_clause fmter q = Ok t -> open_space ((b +:+ "SELECT ") +:+ t).
Proof.
  unfold distinct_clause. rewrite Str.app_assoc. intros Ht.
  apply open_space_app.
  destruct (distinctOn q) as [[|f l]|].
  - injection Ht as <-. exists "SELECT DISTINC", "T"%char.
    split; [discriminate | reflexivity].
  - destruct (sep_texts ", " (fragment_text fmter) (f :: l)) as [ts| |];
      [|discriminate..].
    injection Ht as <-. exists ("SELECT DISTINCT ON (" +:+ ts), ")"%char.
    split; [discriminate | now str_norm].
  - injection Ht as <-. exists "SELEC", "T"%char.
    split; [discriminate | reflexivity].
Qed.

Lemma from_stage_text (q : SelectQuery) (fmter : Formatter) (b : string) :
  from_stage q fmter b = (from_clause fmter q ≫= fun t => Ok (b +:+ t)).
Proof.
  unfold from_stage, from_clause, appendTables, appendTablesWithAlias.
  destruct (hasTables q).
  - destruct (tables_text q fmter); cbn; [|reflexivity..]. now str_norm.
  - cbn. now str_norm.
Qed.

Lemma group_stage_text (q : SelectQuery) (fmter : Formatter) (b : string) :
  group_stage q fmter b = (group_clause fmter q ≫= fun t => Ok (b +:+ t)).
Proof.
  unfold group_stage, group_clause.
  destruct (group q) as [|f l]; cbn [length Nat.ltb Nat.leb].
  - cbn. now str_norm.
  - rewrite fragments_loop.
    destruct (sep_texts ", " (fragment_text fmter) (f :: l)); cbn;
      [|reflexivity..].
    now str_norm.
Qed.

Lemma having_stage_text (q : SelectQuery) (fmter : Formatter) (b : string) :
  having_stage q fmter b = (having_clause fmter q ≫= fun t => Ok (b +:+ t)).
Proof.
  unfold having_stage, having_clause.
  destruct (having q) as [|f l]; cbn [length Nat.ltb Nat.leb].
  - cbn. now str_norm.
  - rewrite having_loop.
    destruct (sep_texts " AND " _ (f :: l)); cbn; [|reflexivity..].
    now str_norm.
Qed.

Lemma tail_stage_text (q : SelectQuery) (fmter : Formatter) (b : string) :
  tail_stage q fmter b
  = (order_clause fmter q ≫= fun o =>
     for_clause fmter q ≫= fun f =>
     Ok (b +:+ o +:+ limit_clause q +:+ offset_clause q +:+ f)).
Proof.
  unfold tail_stage, for_clause, limit_clause, offset_clause, AppendInt,
    QueryWithArgs_AppendQuery, fragment_text.
  rewrite appendOrder_text.
  destruct (order_clause fmter q) as [o| |]; cbn [mbind result_bind];
    [|reflexivity..].
  destruct (IsZero (selFor q)); cbn [negb].
  - destruct (limit q =? 0), (offset q =? 0); cbn; now str_norm.
  - destruct (QueryWithArgs_text (selFor q) fmter); cbn [mbind result_bind];
      [|reflexivity..].
    destruct (limit q =? 0), (offset q =? 0); cbn; now str_norm.
Qed.

Lemma unions_stage_text (q : SelectQuery) (fmter : Formatter) (b : string) :
  Forall (fun u => forall fmter b,
            appendQuery (query u) fmter b false
            = (appendQuery (query u) fmter "" false ≫= fun s => Ok (b +:+ s)))
         (union_ q) ->
  unions_stage q fmter b
  = match union_ q with
    | [] => Ok b
    | _ => set_operations fmter q ≫= fun ts => Ok (b +:+ ")" +:+ ts)
    end.
Proof.
  intros IH. unfold unions_stage, set_operations.
  destruct (union_ q) as [|u us] eqn:Hus; [reflexivity|].
  cbn [length Nat.ltb Nat.leb].
  rewrite (Loops.for_range_texts_Forall
             (fun u => t ← AppendQuery (query u) fmter "";
                       Ok (expr u +:+ "(" +:+ t +:+ ")"))).
  - destruct (concat_texts _ (u :: us)); cbn; [|reflexivity..]. now str_norm.
  - eapply Forall_impl; [exact IH|]. intros u' Hu' i b'. cbn beta zeta.
    rewrite Hu'. unfold AppendQuery.
    destruct (appendQuery (query u') _ "" false); cbn; [|reflexivity..].
    now str_norm.
Qed.

Lemma appendWith_text (q : SelectQuery) (fmter : Formatter) (b : string) :
  appendWith q fmter b = (with_clause fmter q ≫= fun t => Ok (b +:+ t)).
Proof. reflexivity. Qed.

Lemma appendWhere_text (q : SelectQuery) (fmter : Formatter) (b : string) :
  appendWhere q fmter b true = (where_clause fmter q ≫= fun t => Ok (b +:+ t)).
Proof. reflexivity. Qed.

Lemma joins_stage_text (q : SelectQuery) (fmter : Formatter) (b : string) :
  for_range (fun _ j b => joinQuery_AppendQuery j fmter b) 0 (joins q) b
  = (joins_clause fmter q ≫= fun ts => Ok (b +:+ ts)).
Proof. apply joins_loop. Qed.

(** One stage: go on with the text it gave; a failure is the result on both
    sides. *)
Ltac next_text :=
  match goal with
  | |- ((?c ≫= _) ≫= _) = _ =>
      destruct c as [?t| |] eqn:?; cbn [mbind result_bind];
      [|reflexivity..]
  end.

Ltac stage lem := rewrite lem; next_text.

Ltac stages_after_columns IH :=
  stage from_stage_text;
  stage relation_joins_loop;
  stage joins_stage_text;
  stage appendWhere_text;
  stage group_stage_text;
  stage having_stage_text;
  try (rewrite tail_stage_text; next_text; next_text);
  rewrite (unions_stage_text _ _ _ IH);
  match goal with
  | |- context [union_ ?q] =>
      destruct (union_ q); cbn [length Nat.ltb Nat.leb mbind result_bind];
      [|next_text]
  end;
  f_equal; str_norm; reflexivity.

(** The renderer appends the statement to its buffer, or fails with the
    recorded error. *)
Lemma appendQuery_statement (q : SelectQuery) :
  forall (fmter : Formatter) (b : string) (count : bool),
    appendQuery q fmter b count
    = match err q with
      | Some e => Err e
      | None =>
          (if count then count_statement fmter q else select_statement fmter q)
          ≫= fun s => Ok (b +:+ s)
      end.
Proof.
  induction q as [q IH] using SelectQuery_nested_ind. intros fmter b count.
  assert (IH' : Forall (fun u => forall fmter b,
            appendQuery (query u) fmter b false
            = (appendQuery (query u) fmter "" false ≫= fun s => Ok (b +:+ s)))
         (union_ q)).
  { eapply Forall_impl; [exact IH|]. intros u Hu f' b'. cbn beta.
    rewrite (Hu f' b'), (Hu f' "").
    destruct (err (query u)); [reflexivity|].
    destruct (select_statement f' (query u)); cbn; [|reflexivity..].
    now str_norm. }
  clear IH. rewrite appendQuery_unfold.
  destruct (err q); [reflexivity|]. cbn zeta.
  unfold count_statement, select_statement, statement_of, primary_clauses,
    concat_clauses.
  destruct count; cbn [andb negb];
    [destruct (counts_wrapped q); cbn [andb negb]|];
    cbn [app concat_texts id].
  - stage appendWith_text. stage distinct_stage_text.
    rewrite appendColumns_open_space
      by (eapply distinct_clause_open_space; eassumption).
    next_text. stages_after_columns IH'.
  - stage appendWith_text. stage distinct_stage_text.
    stages_after_columns IH'.
  - stage appendWith_text. stage distinct_stage_text.
    rewrite appendColumns_open_space
      by (eapply distinct_clause_open_space; eassumption).
    next_text. stages_after_columns IH'.
Qed.

(** ** Chains of configuration calls

    The configuration calls whose effect on the builder is written out in
    this file, as data: a chain of calls is a list of them. *)

Inductive ConfigOp :=
| OpDistinct
| OpDistinctOn (query' : string) (args : list Arg)
| OpGroup (columns' : list string)
| OpGroupExpr (group' : string) (args : list Arg)
| OpHaving (having' : string) (args : list Arg)
| OpOrder (orders : list string)
| OpOrderExpr (query' : string) (args : list Arg)
| OpLimit (n : Z)
| OpOffset (n : Z)
| OpFor (s : string) (args : list Arg)
| OpSetOperation (expr' : string) (other : SelectQuery)
| OpJoin (join' : string) (args : list Arg)
| OpJoinOn (cond : string) (args : list Arg) (sep : string).

Definition run_op (op : ConfigOp) (q : SelectQuery) : SelectQuery :=
  match op with
  | OpDistinct => Distinct q
  | OpDistinctOn query' args => DistinctOn query' args q
  | OpGroup columns' => Group columns' q
  | OpGroupExpr group' args => GroupExpr group' args q
  | OpHaving having' args => Having having' args q
  | OpOrder orders => Order orders q
  | OpOrderExpr query' args => OrderExpr query' args q
  | OpLimit n => Limit n q
  | OpOffset n => Offset n q
  | OpFor s args => For s args q
  | OpSetOperation expr' other => addUnion expr' other q
  | OpJoin join' args => Join join' args q
  | OpJoinOn cond args sep => joinOn cond args sep q
  end.

Definition run_ops (ops : list ConfigOp) (q : SelectQuery) : SelectQuery :=
  foldl (fun q op => run_op op q) q ops.

(** [JoinOn] needs a join to attach its condition to. *)
Definition op_applies (op : ConfigOp) (q : SelectQuery) : Prop :=
  match op with
  | OpJoinOn _ _ _ => joins q <> []
  | _ => True
  end.

(** The builder with the error slot set to [e]. *)
Definition with_err (e : option error) (q : SelectQuery) : SelectQuery :=
  on_base (set_err e) q.

Definition errNoJoins : error := errors_New "bun: query has no joins".

(** A string without a space. *)
Definition no_space (s : string) : Prop :=
  ~ In " "%char (list_ascii_of_string s).

(** ** The error slot *)

Lemma appendQuery_err (q : SelectQuery) (e : error) (fmter : Formatter)
    (b : string) (count : bool) :
  err q = Some e -> appendQuery q fmter b count = Err e.
Proof. intros He. rewrite appendQuery_unfold, He. reflexivity. Qed.

Lemma Group_with_err (e : option error) (columns' : list string) (q : SelectQuery) :
  Group columns' (with_err e q) = with_err e (Group columns' q).
Proof.
  revert q. unfold Group.
  induction columns' as [|c cs IH]; intros q; [reflexivity|].
  cbn [foldl]. rewrite <- IH. reflexivity.
Qed.

Lemma Order_step_with_err (e : option error) (o : string) (q : SelectQuery) :
  Order_step (with_err e q) o = with_err e (Order_step q o).
Proof.
  unfold Order_step.
  destruct (String.eqb o ""); [reflexivity|].
  destruct (IndexByte o " " =? -1); [reflexivity|].
  destruct (bool_decide _); reflexivity.
Qed.

Lemma Order_with_err (e : option error) (orders : list string) (q : SelectQuery) :
  Order orders (with_err e q) = with_err e (Order orders q).
Proof.
  revert q. unfold Order.
  induction orders as [|o os IH]; intros q; [reflexivity|].
  cbn [foldl]. rewrite Order_step_with_err. apply IH.
Qed.

Lemma run_op_with_err (op : ConfigOp) (e : option error) (q : SelectQuery) :
  op_applies op q -> run_op op (with_err e q) = with_err e (run_op op q).
Proof.
  intros Happ. destruct op; cbn [run_op]; try reflexivity.
  - apply Group_with_err.
  - apply Order_with_err.
  - cbn [op_applies] in Happ. unfold joinOn.
    change (joins (with_err e q)) with (joins q).
    destruct (joins q); [contradiction | reflexivity].
Qed.

Lemma err_with_err (e : option error) (q : SelectQuery) : err (with_err e q) = e.
Proof. reflexivity. Qed.

Lemma with_err_same (q : SelectQuery) : with_err (err q) q = q.
Proof. destruct q as [[[] ?] ?]; reflexivity. Qed.

Lemma run_op_err (op : ConfigOp) (q : SelectQuery) :
  op_applies op q -> err (run_op op q) = err q.
Proof.
  intros Happ. rewrite <- (with_err_same q) at 1.
  rewrite run_op_with_err by exact Happ. apply err_with_err.
Qed.

(** Once the no-joins error is in the slot, the calls written out in this
    file leave it there. *)
Lemma run_ops_keeps_errNoJoins (ops : list ConfigOp) (q : SelectQuery) :
  err q = Some errNoJoins -> err (run_ops ops q) = Some errNoJoins.
Proof.
  revert q. unfold run_ops.
  induction ops as [|op ops IH]; intros q He; [exact He|].
  cbn [foldl]. apply IH.
  destruct op; try (rewrite run_op_err; [exact He | exact I]).
  cbn [run_op]. unfold joinOn.
  destruct (joins q) eqn:Hj; cbn [length Nat.eqb]; [reflexivity | exact He].
Qed.

(** C3.  [JoinOn] and [JoinOnOr] on a query without joins return the
    builder with the error "bun: query has no joins" in its error slot and
    nothing else changed.  From then on, also after further configuration
    calls, every render returns that error and no text: [AppendQuery], the
    counting render, [Rows], [Exec] and [Count] fail with it before anything
    reaches the driver, and [Scan] fails with it at its render, when it has
    resolved its model and run the before-select hook; no statement reaches
    the driver. *)
Theorem joinOn_without_joins_defers_error (q : SelectQuery) (cond : string)
    (args : list Arg) :
  joins q = [] ->
  JoinOn cond args q = with_err (Some errNoJoins) q /\
  JoinOnOr cond args q = with_err (Some errNoJoins) q /\
  forall (sep : string) (ops : list ConfigOp),
    let q' := run_ops ops (joinOn cond args sep q) in
    (forall fmter b,
        AppendQuery q' fmter b = Err errNoJoins /\
        countQuery_AppendQuery q' fmter b = Err errNoJoins) /\
    (forall w,
        Rows q' w = (w, [EvAppendQuery], Err errNoJoins) /\
        Exec q' w = (w, [EvAppendQuery], Err errNoJoins) /\
        Count q' w = (w, [EvAppendQuery], Ok (0, Some errNoJoins)) /\
        forall dest,
          Scan dest q' w
          = (_ ← pure (getModel q' dest);
             _ ← (if bool_decide (table q' <> None)
                  then beforeSelectHook q' else mret tt);
             traced EvAppendQuery (Err errNoJoins)) w).
Proof.
  intros Hj.
  assert (Hon : forall sep, joinOn cond args sep q = with_err (Some errNoJoins) q).
  { intros sep. unfold joinOn. now rewrite Hj. }
  split; [apply Hon|]. split; [apply Hon|].
  intros sep ops q'.
  assert (He : err q' = Some errNoJoins).
  { apply run_ops_keeps_errNoJoins. now rewrite Hon. }
  assert (Hr : forall fmter b count, appendQuery q' fmter b count = Err errNoJoins).
  { intros. now apply appendQuery_err. }
  split.
  - intros fmter b. unfold AppendQuery, countQuery_AppendQuery. now rewrite !Hr.
  - intros w. unfold Rows, Exec, Count, Scan, AppendQuery. rewrite !Hr.
    repeat split.
Qed.

(** C4, as the code has it.  The configuration calls written out in this
    file do not look at the error slot: each changes the builder in the same
    way whether or not an error is recorded, and leaves the slot as it is
    ([JoinOn], which needs a join, is taken on a query that has one).  A
    render of a builder whose slot is set returns the stored error at
    once. *)
Theorem config_ops_do_not_check_error :
  (forall (op : ConfigOp) (e : option error) (q : SelectQuery),
      op_applies op q ->
      run_op op (with_err e q) = with_err e (run_op op q) /\
      err (run_op op q) = err q) /\
  (forall (q : SelectQuery) (e : error) fmter b,
      err q = Some e ->
      AppendQuery q fmter b = Err e /\
      countQuery_AppendQuery q fmter b = Err e).
Proof.
  split.
  - intros op e q Happ. split; [now apply run_op_with_err | now apply run_op_err].
  - intros q e fmter b He. unfold AppendQuery, countQuery_AppendQuery.
    now rewrite !(appendQuery_err _ e).
Qed.

(** ** Relations *)

Lemma err_setErr (e : error) (b : baseQuery) :
  err (setErr e b) = Some (default e (err b)).
Proof. unfold setErr. destruct (err b) eqn:He; [exact He | reflexivity]. Qed.

Definition errNoRelation (t : option Table) (name : string) : error :=
  fmt_Errorf "%s does not have relation=%q" [fmtTable t; fmtString name].

(** C7.  [Relation] on a builder without a table model, and [Relation]
    with a name for which the table model finds no relation, return the
    builder (they neither fail nor panic) with the error recorded in its
    first-error slot: the nil-model error, respectively the error that the
    table does not have the relation.  Nothing else of the builder changes
    (the table model is as the lookup leaves it), and the error comes back
    from the render. *)
Theorem Relation_defers_error (name : string)
    (apply : list (SelectQuery -> SelectQuery)) (q : SelectQuery) :
  (tableModel q = None ->
   let q' := on_base (setErr errNilModel) q in
   Relation name apply q = Ok q' /\
   err q' = Some (default errNilModel (err q)) /\
   (err q = None -> q' = with_err (Some errNilModel) q) /\
   forall fmter b, AppendQuery q' fmter b = Err (default errNilModel (err q))) /\
  (forall tm tm',
   tableModel q = Some tm ->
   (length apply <= 1)%nat ->
   TableModel_Join tm name (head apply) = (tm', None) ->
   let e := errNoRelation (table q) name in
   let q' := on_base (setErr e) (on_base (set_tableModel (Some tm')) q) in
   Relation name apply q = Ok q' /\
   err q' = Some (default e (err q)) /\
   (err q = None -> q' = with_err (Some e) (on_base (set_tableModel (Some tm')) q)) /\
   forall fmter b, AppendQuery q' fmter b = Err (default e (err q))).
Proof.
  split.
  - intros Htm q'.
    assert (He : err q' = Some (default errNilModel (err q))).
    { subst q'. cbn. apply err_setErr. }
    split; [|split; [exact He|split]].
    + unfold Relation. now rewrite Htm.
    + intros Hnone. subst q'. unfold with_err, on_base, on_whereBase, setErr.
      now rewrite Hnone.
    + intros fmter b. unfold AppendQuery. now apply appendQuery_err.
  - intros tm tm' Htm Hlen Hjoin e q'.
    assert (He : err q' = Some (default e (err q))).
    { subst q'.
      change (err (setErr e (set_tableModel (Some tm') q))
              = Some (default e (err q))).
      now rewrite err_setErr. }
    split; [|split; [exact He|split]].
    + unfold Relation. rewrite Htm.
      destruct apply as [|f [|g apply]]; cbn in Hlen, Hjoin |- *;
        [now rewrite Hjoin | now rewrite Hjoin | lia].
    + intros Hnone. subst q'. unfold with_err, on_base, on_whereBase, setErr.
      cbn. now rewrite Hnone.
    + intros fmter b. unfold AppendQuery. now apply appendQuery_err.
Qed.

(** ** Grouped conditions *)

(** The builder with its WHERE list replaced. *)
Definition with_where (conds : list QueryWithSep) (q : SelectQuery)
    : SelectQuery :=
  on_whereBase (set_where conds) q.

Lemma where_with_where (conds : list QueryWithSep) (q : SelectQuery) :
  where_ (with_where conds q) = conds.
Proof. reflexivity. Qed.

Lemma with_where_twice (c1 c2 : list QueryWithSep) (q : SelectQuery) :
  with_where c1 (with_where c2 q) = with_where c1 q.
Proof. reflexivity. Qed.

(** The WHERE list of the builder that [WhereGroup] returns. *)
Lemma where_WhereGroup (sep : string) (fn : SelectQuery -> SelectQuery)
    (q : SelectQuery) :
  where_ (WhereGroup sep fn q)
  = where_ q ++ where_group sep (where_ (fn (with_where [] q))).
Proof. reflexivity. Qed.

(** What [WhereGroup] returns is the builder [fn] returned, with the
    WHERE list replaced. *)
Lemma WhereGroup_with_where (sep : string) (fn : SelectQuery -> SelectQuery)
    (q : SelectQuery) :
  WhereGroup sep fn q
  = with_where (where_ q ++ where_group sep (where_ (fn (with_where [] q))))
      (fn (with_where [] q)).
Proof. reflexivity. Qed.

(** C8.  [WhereGroup] runs [fn] on the builder with an empty WHERE list and
    everything else as it is.  The conditions of the parent are not visible
    to [fn]: the builder it is handed, and so what it accumulates, is the
    same whatever the parent's conditions are.  They cannot be changed by
    [fn]: the WHERE list of the builder that [WhereGroup] returns is the
    parent's list as it was, followed by the conditions [fn] accumulated as
    one group with the separator, whatever [fn] did to the list it was
    handed.  The other clauses are not touched by the save and the restore:
    the result has them as [fn] returned them, and when [fn] changes nothing
    but the WHERE list the result is the parent with the group appended to
    its WHERE list and every other clause (columns, tables, joins, group,
    having, order, limit, offset) unchanged. *)
Theorem WhereGroup_scopes_where (sep : string)
    (fn : SelectQuery -> SelectQuery) (q : SelectQuery) :
  let inner := with_where [] q in
  let q1 := fn inner in
  let result := WhereGroup sep fn q in
  (where_ inner = [] /\
   baseQuery_ inner = baseQuery_ q /\
   distinctOn inner = distinctOn q /\ joins inner = joins q /\
   group inner = group q /\ having inner = having q /\
   order inner = order q /\ limit inner = limit q /\
   offset inner = offset q /\ selFor inner = selFor q /\
   union_ inner = union_ q) /\
  (forall conds,
     with_where [] (with_where conds q) = inner /\
     where_ (WhereGroup sep fn (with_where conds q))
     = conds ++ where_group sep (where_ q1)) /\
  where_ result = where_ q ++ where_group sep (where_ q1) /\
  where_group sep (where_ q1)
  = [where_mark sep; where_mark "("] ++ where_ q1 ++ [where_mark ")"] /\
  where_ q `prefix_of` where_ result /\
  (baseQuery_ result = baseQuery_ q1 /\
   columns result = columns q1 /\ tables result = tables q1 /\
   distinctOn result = distinctOn q1 /\ joins result = joins q1 /\
   group result = group q1 /\ having result = having q1 /\
   order result = order q1 /\ limit result = limit q1 /\
   offset result = offset q1 /\ selFor result = selFor q1 /\
   union_ result = union_ q1) /\
  (forall conds,
     q1 = with_where conds inner ->
     result = with_where (where_ q ++ where_group sep conds) q /\
     baseQuery_ result = baseQuery_ q /\
     columns result = columns q /\ tables result = tables q /\
     distinctOn result = distinctOn q /\ joins result = joins q /\
     group result = group q /\ having result = having q /\
     order result = order q /\ limit result = limit q /\
     offset result = offset q /\ selFor result = selFor q /\
     union_ result = union_ q).
Proof.
  intros inner q1 result.
  assert (Hwhere : where_ result = where_ q ++ where_group sep (where_ q1))
    by apply where_WhereGroup.
  split; [repeat split|].
  split.
  { intros conds. split; [apply with_where_twice|].
    rewrite where_WhereGroup, where_with_where, with_where_twice.
    reflexivity. }
  split; [exact Hwhere|]. split; [reflexivity|].
  split; [rewrite Hwhere; now exists (where_group sep (where_ q1))|].
  split; [repeat split|].
  intros conds Hq1.
  assert (Hres : result = with_where (where_ q ++ where_group sep conds) q).
  { unfold result. rewrite WhereGroup_with_where.
    fold inner. fold q1. rewrite Hq1, where_with_where.
    unfold inner. now rewrite !with_where_twice. }
  split; [exact Hres|]. rewrite Hres. repeat split.
Qed.

(** ** Ordering *)

Lemma no_space_cons (a : ascii) (s : string) :
  no_space (String a s) <-> a <> " "%char /\ no_space s.
Proof. unfold no_space. cbn [list_ascii_of_string In]. intuition auto. Qed.

Lemma IndexByte_no_space (s : string) : no_space s -> IndexByte s " " = -1.
Proof.
  induction s as [|a s IH]; intros Hs; [reflexivity|].
  apply no_space_cons in Hs as [Ha Hs]. cbn [IndexByte].
  destruct (Ascii.eqb_spec a " "); [contradiction|].
  now rewrite (IH Hs).
Qed.

Lemma IndexByte_first_space (field sort : string) :
  no_space field ->
  IndexByte (field +:+ String " " sort) " " = Z.of_nat (String.length field).
Proof.
  induction field as [|a s IH]; intros Hs; [reflexivity|].
  apply no_space_cons in Hs as [Ha Hs]. rewrite Str.app_cons.
  cbn [IndexByte String.length].
  destruct (Ascii.eqb_spec a " "); [contradiction|].
  rewrite (IH Hs).
  destruct (Z.eqb_spec (Z.of_nat (String.length s)) (-1)); lia.
Qed.

Lemma slice_to_prefix (field rest : string) :
  slice_to (field +:+ rest) (Z.of_nat (String.length field)) = field.
Proof.
  unfold slice_to. rewrite Nat2Z.id.
  induction field as [|a s IH].
  - destruct rest; reflexivity.
  - rewrite Str.app_cons. cbn [String.length substring]. now rewrite IH.
Qed.

Lemma slice_from_suffix (field sort : string) :
  slice_from (field +:+ String " " sort) (Z.of_nat (String.length field) + 1)
  = sort.
Proof.
  unfold slice_from.
  replace (Z.to_nat (Z.of_nat (String.length field) + 1))
    with (S (String.length field)) by lia.
  rewrite Str.length_app. cbn [String.length].
  replace (String.length field + S (String.length sort) - S (String.length field))%nat
    with (String.length sort) by lia.
  induction field as [|a s IH].
  - rewrite Str.app_nil_l. cbn [String.length substring]. apply Str.substring_all.
  - rewrite Str.app_cons. cbn [String.length substring]. exact IH.
Qed.

Lemma first_space_split (o : string) :
  o = "" \/ no_space o \/
  exists field sort, no_space field /\ o = field +:+ " " +:+ sort.
Proof.
  induction o as [|a s IH]; [now left|]. right.
  destruct (Ascii.eqb_spec a " ") as [->|Ha].
  - right. exists "", s. split; [intros [] | reflexivity].
  - destruct IH as [->|[Hs|(field & sort & Hf & ->)]].
    + left. apply no_space_cons. split; [exact Ha | intros []].
    + left. now apply no_space_cons.
    + right. exists (String a field), sort. split; [|reflexivity].
      now apply no_space_cons.
Qed.

Lemma Order_step_space (q : SelectQuery) (field sort : string) :
  no_space field ->
  Order_step q (field +:+ " " +:+ sort)
  = if bool_decide (ToUpper sort ∈ sort_directions)
    then set_order (order q ++ [SafeQuery "? ?" [Ident field; Safe sort]]) q
    else set_order (order q ++ [UnsafeIdent (field +:+ " " +:+ sort)]) q.
Proof.
  intros Hf. unfold Order_step.
  change (" " +:+ sort) with (String " " sort).
  replace (String.eqb (field +:+ String " " sort) "") with false.
  2:{ symmetry. apply String.eqb_neq. destruct field; discriminate. }
  rewrite (IndexByte_first_space _ _ Hf).
  destruct (Z.eqb_spec (Z.of_nat (String.length field)) (-1)); [lia|].
  now rewrite slice_to_prefix, slice_from_suffix.
Qed.

(** C9.  [Order] takes its strings one after the other.  An empty string
    adds nothing.  A string without a space is added as one unsafe
    identifier.  A string with a space is split at the first one: when the
    rest, in upper case, is one of the six sort directions, the fragment
    "? ?" is added with the field before the space as an identifier and the
    rest, as written, as safe text; otherwise the whole string is added as
    one unsafe identifier.  Every string is of one of these forms, and no
    other clause of the builder changes. *)
Theorem Order_classifies_each_string :
  (forall q, Order [] q = q) /\
  (forall o os q, Order (o :: os) q = Order os (Order [o] q)) /\
  (forall q, Order [""] q = q) /\
  (forall o q, o <> "" -> no_space o ->
     Order [o] q = set_order (order q ++ [UnsafeIdent o]) q) /\
  (forall field sort q, no_space field -> ToUpper sort ∈ sort_directions ->
     Order [field +:+ " " +:+ sort] q
     = set_order (order q ++ [SafeQuery "? ?" [Ident field; Safe sort]]) q) /\
  (forall field sort q, no_space field -> ToUpper sort ∉ sort_directions ->
     Order [field +:+ " " +:+ sort] q
     = set_order (order q ++ [UnsafeIdent (field +:+ " " +:+ sort)]) q) /\
  (forall o, o = "" \/ no_space o \/
     exists field sort, no_space field /\ o = field +:+ " " +:+ sort).
Proof.
  repeat split; try reflexivity.
  - intros o q Ho Hs. unfold Order. cbn [foldl]. unfold Order_step.
    replace (String.eqb o "") with false
      by (symmetry; now apply String.eqb_neq).
    now rewrite (IndexByte_no_space _ Hs).
  - intros field sort q Hf Hd. unfold Order. cbn [foldl].
    rewrite (Order_step_space _ _ _ Hf). now rewrite bool_decide_true.
  - intros field sort q Hf Hd. unfold Order. cbn [foldl].
    rewrite (Order_step_space _ _ _ Hf). now rewrite bool_decide_false.
  - apply first_space_split.
Qed.

(** ** Limit and offset *)

Lemma itoa_negative (z : Z) : z < 0 -> itoa z = "-" +:+ itoa (- z).
Proof. destruct z; try lia. intros _. reflexivity. Qed.

Lemma int32_in_range (n : Z) : - 2 ^ 31 <= n < 2 ^ 31 -> int32 n = n.
Proof. intros Hn. unfold int32. rewrite Z.mod_small; lia. Qed.

(** ** The order of the clauses *)


Lemma to_one_joins_cons (j : join) (rest : list join) :
  to_one_joins (j :: rest)
  = (if is_to_one (Type_ (Relation_ j))
     then j :: to_one_joins (GetJoins (JoinModel j))
     else [])
    ++ to_one_joins rest.
Proof.
  unfold to_one_joins at 1. cbn [flat_map]. rewrite to_one_visit_eq.
  now destruct (Type_ (Relation_ j)).
Qed.


Lemma counts_wrapped_iff (q : SelectQuery) :
  counts_wrapped q = true <-> group q <> [] \/ distinctOn q <> None.
Proof.
  unfold counts_wrapped. rewrite orb_true_iff, bool_decide_eq_true.
  destruct (group q); cbn; intuition (congruence || lia).
Qed.

(** C2.  With no recorded error, the counting render of a query that is
    neither grouped nor distinct is the statement of the query with the text
    "count(*)" as its column list and without ORDER BY, LIMIT, OFFSET and
    FOR; of a grouped or distinct query it is the statement with its own
    column list, without ORDER BY, LIMIT, OFFSET and FOR, between
    "WITH _count_wrapper AS (" and ") SELECT count(*) FROM _count_wrapper".
    The plain render is the same list of clauses with the column list and
    with ORDER BY, LIMIT, OFFSET and FOR at its end.  [Count] hands the
    counting render to the driver. *)
Theorem count_render_replaces_columns (q : SelectQuery) (fmter : Formatter)
    (b : string) :
  err q = None ->
  (counts_wrapped q = true <-> group q <> [] \/ distinctOn q <> None) /\
  appendQuery q fmter b true
  = (if counts_wrapped q
     then
       s ← statement_of (columns_clause fmter q) false fmter q;
       Ok (b +:+ "WITH _count_wrapper AS (" +:+ s +:+
           ") SELECT count(*) FROM _count_wrapper")
     else
       s ← statement_of (Ok "count(*)") false fmter q; Ok (b +:+ s)) /\
  appendQuery q fmter b false
  = (s ← statement_of (columns_clause fmter q) true fmter q; Ok (b +:+ s)) /\
  (forall cols,
      primary_clauses cols false fmter q
      = [ with_clause fmter q; Ok "SELECT "; distinct_clause fmter q; cols;
          from_clause fmter q; relation_joins_clause fmter q;
          joins_clause fmter q; where_clause fmter q; group_clause fmter q;
          having_clause fmter q ] /\
      primary_clauses cols true fmter q
      = primary_clauses cols false fmter q
        ++ [ order_clause fmter q; Ok (limit_clause q); Ok (offset_clause q);
             for_clause fmter q ] /\
      forall tail,
        statement_of cols tail fmter q
        = (p ← concat_clauses (primary_clauses cols tail fmter q);
           match union_ q with
           | [] => Ok p
           | _ => ts ← set_operations fmter q; Ok ("(" +:+ p +:+ ")" +:+ ts)
           end)) /\
  (forall w sql,
      appendQuery q (DB_fmter (db q)) "" true = Ok sql ->
      exists w' num e,
        Count q w
        = (w', [EvAppendQuery; EvBeforeQuery sql; EvQueryRow sql; EvAfterQuery],
           Ok (num, e))).
Proof.
  intros He. split; [apply counts_wrapped_iff|]. split; [|split; [|split]].
  - rewrite appendQuery_statement, He. unfold count_statement.
    destruct (counts_wrapped q); [|reflexivity].
    rewrite Loops.bind_assoc. apply Loops.bind_ext. intros s.
    cbn. now str_norm.
  - rewrite appendQuery_statement, He. reflexivity.
  - intros cols. repeat split.
  - intros w sql Hsql. unfold Count. rewrite Hsql.
    destruct (conn_QueryRow_Scan (conn q) sql (db_beforeQuery (db q) sql w))
      as [w1 [num e]].
    now eexists _, _, _.
Qed.

Lemma limit_clause_empty_iff (q : SelectQuery) :
  limit_clause q = "" <-> limit q = 0.
Proof.
  unfold limit_clause.
  destruct (Z.eqb_spec (limit q) 0); split; (tauto || discriminate).
Qed.

Lemma limit_clause_nonzero (q : SelectQuery) :
  limit q <> 0 -> limit_clause q = " LIMIT " +:+ itoa (limit q).
Proof.
  unfold limit_clause. intros Hn.
  destruct (Z.eqb_spec (limit q) 0); [contradiction | reflexivity].
Qed.

Lemma limit_clause_negative (q : SelectQuery) :
  limit q < 0 -> limit_clause q = " LIMIT -" +:+ itoa (- limit q).
Proof.
  intros Hn. rewrite limit_clause_nonzero by lia.
  now rewrite (itoa_negative _ Hn).
Qed.

Lemma offset_clause_empty_iff (q : SelectQuery) :
  offset_clause q = "" <-> offset q = 0.
Proof.
  unfold offset_clause.
  destruct (Z.eqb_spec (offset q) 0); split; (tauto || discriminate).
Qed.

Lemma offset_clause_nonzero (q : SelectQuery) :
  offset q <> 0 -> offset_clause q = " OFFSET " +:+ itoa (offset q).
Proof.
  unfold offset_clause. intros Hn.
  destruct (Z.eqb_spec (offset q) 0); [contradiction | reflexivity].
Qed.

Lemma offset_clause_negative (q : SelectQuery) :
  offset q < 0 -> offset_clause q = " OFFSET -" +:+ itoa (- offset q).
Proof.
  intros Hn. rewrite offset_clause_nonzero by lia.
  now rewrite (itoa_negative _ Hn).
Qed.

(** C10.  In the plain render LIMIT and OFFSET stand between ORDER BY and
    FOR.  The LIMIT clause is empty exactly when the stored limit is zero
    and is " LIMIT " followed by the number otherwise; a negative limit is
    written with its minus sign.  OFFSET likewise.  [Limit] and [Offset]
    store their argument as a 32-bit integer, so [Limit 0] and [Offset 0]
    give no clause and [Limit (-1)] gives " LIMIT -1". *)
Theorem limit_offset_iff_nonzero (q : SelectQuery) (fmter : Formatter)
    (b : string) :
  appendQuery q fmter b false
  = match err q with
    | Some e => Err e
    | None =>
        p ← concat_clauses
              (primary_clauses (columns_clause fmter q) false fmter q
               ++ [ order_clause fmter q;
                    Ok (limit_clause q);
                    Ok (offset_clause q);
                    for_clause fmter q ]);
        s ← match union_ q with
            | [] => Ok p
            | _ => ts ← set_operations fmter q; Ok ("(" +:+ p +:+ ")" +:+ ts)
            end;
        Ok (b +:+ s)
    end /\
  (limit_clause q = "" <-> limit q = 0) /\
  (limit q <> 0 -> limit_clause q = " LIMIT " +:+ itoa (limit q)) /\
  (limit q < 0 -> limit_clause q = " LIMIT -" +:+ itoa (- limit q)) /\
  (offset_clause q = "" <-> offset q = 0) /\
  (offset q <> 0 -> offset_clause q = " OFFSET " +:+ itoa (offset q)) /\
  (offset q < 0 -> offset_clause q = " OFFSET -" +:+ itoa (- offset q)) /\
  (forall n, limit (Limit n q) = int32 n /\ offset (Offset n q) = int32 n) /\
  (forall n, - 2 ^ 31 <= n < 2 ^ 31 -> int32 n = n) /\
  limit_clause (Limit 0 q) = "" /\
  offset_clause (Offset 0 q) = "" /\
  limit_clause (Limit (-1) q) = " LIMIT -1" /\
  offset_clause (Offset (-1) q) = " OFFSET -1".
Proof.
  split.
  { rewrite appendQuery_statement. destruct (err q); [reflexivity|].
    unfold select_statement, statement_of. rewrite Loops.bind_assoc.
    reflexivity. }
  split; [apply limit_clause_empty_iff|].
  split; [apply limit_clause_nonzero|].
  split; [apply limit_clause_negative|].
  split; [apply offset_clause_empty_iff|].
  split; [apply offset_clause_nonzero|].
  split; [apply offset_clause_negative|].
  split; [intros n; split; reflexivity|].
  split; [apply int32_in_range|].
  repeat split.
Qed.

(** ** Hooks and follow-up queries of [Scan] *)

Definition trace_of {A} (x : World * list Event * res A) : list Event := snd (fst x).
Definition result_of {A} (x : World * list Event * res A) : res A := snd x.

Definition is_hook (ev : Event) : bool :=
  match ev with
  | EvBeforeSelect | EvAfterSelect => true
  | _ => false
  end.

(** The follow-up query of a relation that is not a to-one relation. *)
Definition is_follow_up (ev : Event) : Prop :=
  exists j, ev = EvJoinSelect j /\ is_to_one (Type_ (Relation_ j)) = false.

(** The phases of [Scan] after the model is resolved. *)
Definition before_phase (q : SelectQuery) : IO unit :=
  if bool_decide (table q <> None) then beforeSelectHook q else mret tt.

Definition follow_phase (q : SelectQuery) (n : Z) (model : Model) : IO unit :=
  if 0 <? n
  then match as_tableModel model with
       | Some tm => selectJoins q (GetJoins tm)
       | None => mret tt
       end
  else mret tt.

Definition after_phase (q : SelectQuery) : IO unit :=
  if bool_decide (table q <> None) then afterSelectHook q else mret tt.

Definition capped (q : SelectQuery) (model : Model) : Model :=
  if 1 <? limit q
  then match as_SetCap model with
       | Some setCap => setCap (limit q)
       | None => model
       end
  else model.

Lemma Scan_phases (dest : list Dest) (q : SelectQuery) :
  Scan dest q
  = (model ← pure (getModel q dest);
     _ ← before_phase q;
     queryBytes ← traced EvAppendQuery
                    (AppendQuery q (DB_fmter (db q)) (makeQueryBytes (db q)));
     '(n, model) ← extern (EvScan queryBytes)
                     (base_scan q queryBytes (capped q model) true);
     _ ← follow_phase q n model;
     _ ← after_phase q;
     mret tt).
Proof. reflexivity. Qed.

Lemma selectJoin_visit_eq (q : SelectQuery) (j : join) :
  selectJoin_visit q j
  = match Type_ (Relation_ j) with
    | HasOneRelation | BelongsToRelation =>
        selectJoins q (GetJoins (JoinModel j))
    | _ => extern_err (EvJoinSelect j) (join_Select j (db q))
    end.
Proof. destruct j; reflexivity. Qed.

Lemma io_range_trace {A} (P : Event -> Prop) (body : A -> IO unit) (l : list A) :
  Forall (fun x => forall w, Forall P (trace_of (body x w))) l ->
  forall w, Forall P (trace_of (io_range body l w)).
Proof.
  induction 1 as [|x l Hx _ IH]; intros w; [constructor|].
  cbn [io_range]. unfold mbind, IO_bind.
  specialize (Hx w). destruct (body x w) as [[w1 t1] [[]| |]]; try exact Hx.
  specialize (IH w1). destruct (io_range body l w1) as [[w2 t2] r].
  apply Forall_app. split; [exact Hx | exact IH].
Qed.

(** Every event of [selectJoins] is the follow-up query of a relation that
    is not a to-one relation. *)
Lemma selectJoins_trace (q : SelectQuery) (joins' : list join) (w : World) :
  Forall is_follow_up (trace_of (selectJoins q joins' w)).
Proof.
  assert (Hvisit : forall j w, Forall is_follow_up (trace_of (selectJoin_visit q j w))).
  { intros j. induction j as [j IH] using join_nested_ind. intros w0.
    rewrite selectJoin_visit_eq.
    destruct (Type_ (Relation_ j)) eqn:Hty;
      try (apply io_range_trace; exact IH);
      unfold extern_err; destruct (join_Select j (db q) w0) as [w1 oe];
      repeat constructor; exists j; rewrite Hty; split; reflexivity. }
  apply io_range_trace. apply Forall_forall. intros j _. apply Hvisit.
Qed.

Lemma before_phase_cases (q : SelectQuery) (w : World) :
  before_phase q w = (w, [], Ok tt) \/
  exists t hook,
    table q = Some t /\ as_BeforeSelectHook (ZeroIface t) = Some hook /\
    before_phase q w
    = (fst (hook q w), [EvBeforeSelect],
       match snd (hook q w) with Some e => Err e | None => Ok tt end).
Proof.
  unfold before_phase, beforeSelectHook.
  destruct (table q) as [t|].
  - rewrite bool_decide_true by discriminate.
    destruct (as_BeforeSelectHook (ZeroIface t)) as [hook|] eqn:Hh; [|now left].
    right. exists t, hook. split; [reflexivity|]. split; [exact Hh|].
    unfold extern_err. now destruct (hook q w).
  - rewrite bool_decide_false by tauto. now left.
Qed.

Lemma after_phase_cases (q : SelectQuery) (w : World) :
  after_phase q w = (w, [], Ok tt) \/
  exists t hook,
    table q = Some t /\ as_AfterSelectHook (ZeroIface t) = Some hook /\
    after_phase q w
    = (fst (hook q w), [EvAfterSelect],
       match snd (hook q w) with Some e => Err e | None => Ok tt end).
Proof.
  unfold after_phase, afterSelectHook.
  destruct (table q) as [t|].
  - rewrite bool_decide_true by discriminate.
    destruct (as_AfterSelectHook (ZeroIface t)) as [hook|] eqn:Hh; [|now left].
    right. exists t, hook. split; [reflexivity|]. split; [exact Hh|].
    unfold extern_err. now destruct (hook q w).
  - rewrite bool_decide_false by tauto. now left.
Qed.

Lemma follow_phase_trace (q : SelectQuery) (n : Z) (model : Model) (w : World) :
  Forall is_follow_up (trace_of (follow_phase q n model w)) /\
  (trace_of (follow_phase q n model w) <> [] -> 0 < n).
Proof.
  unfold follow_phase. destruct (Z.ltb_spec 0 n) as [Hn|Hn].
  - split; [|intros _; exact Hn].
    destruct (as_tableModel model); [apply selectJoins_trace | constructor].
  - split; [constructor | intros Hne; now contradiction Hne].
Qed.

(** The events of a [Scan]: the before-select hook if any, the render and
    the statement, the follow-up queries, the after-select hook if any. *)
Lemma Scan_shape (dest : list Dest) (q : SelectQuery) (w : World) :
  exists tb tm tf ta,
    trace_of (Scan dest q w) = tb ++ tm ++ tf ++ ta /\
    (forall model, getModel q dest = Ok model ->
                   tb = trace_of (before_phase q w)) /\
    (tb = [] \/ tb = [EvBeforeSelect] /\ table q <> None) /\
    (tm = [] \/ tm = [EvAppendQuery] \/
     exists sql, tm = [EvAppendQuery; EvScan sql]) /\
    Forall is_follow_up tf /\
    (tf <> [] ->
     exists sql model w1 w2 n model',
       tm = [EvAppendQuery; EvScan sql] /\
       base_scan q sql model true w1 = (w2, Ok (n, model')) /\ 0 < n) /\
    (ta = [] \/
     ta = [EvAfterSelect] /\ table q <> None /\
     exists sql, tm = [EvAppendQuery; EvScan sql]).
Proof.
  rewrite Scan_phases. unfold mbind, IO_bind, pure, traced, extern, mret, IO_ret.
  destruct (getModel q dest) as [model| |];
    try (exists [], [], [], []; repeat split; auto; congruence).
  assert (Hb : exists w1 rb tb, before_phase q w = (w1, tb, rb) /\
                (tb = [] \/ tb = [EvBeforeSelect] /\ table q <> None)).
  { destruct (before_phase_cases q w) as [->|(t & hook & Ht & _ & ->)].
    - eexists _, _, _. split; [reflexivity | now left].
    - eexists _, _, _. split; [reflexivity | right]. split; congruence. }
  destruct Hb as (w1 & rb & tb & -> & Htb).
  destruct rb as [[]| |];
    try (exists tb, [], [], []; rewrite ?app_nil_r; repeat split; auto; congruence).
  destruct (AppendQuery q (DB_fmter (db q)) (makeQueryBytes (db q))) as [sql| |];
    try (exists tb, [EvAppendQuery], [], []; repeat split; auto; congruence).
  destruct (base_scan q sql (capped q model) true w1) as [w2 [[n model']| |]] eqn:Hscan;
    try (exists tb, [EvAppendQuery; EvScan sql], [], []; repeat split; eauto; congruence).
  destruct (follow_phase_trace q n model' w2) as [Htf Hn].
  destruct (follow_phase q n model' w2) as [[w3 tf] rf].
  unfold trace_of in Htf, Hn; cbn [fst snd] in Htf, Hn.
  destruct rf as [[]| |];
    try (exists tb, [EvAppendQuery; EvScan sql], tf, [];
         cbn [trace_of fst snd app]; rewrite ?app_nil_r;
         repeat split; eauto 10; congruence).
  assert (Ha : exists w4 ra ta, after_phase q w3 = (w4, ta, ra) /\
                (ta = [] \/ ta = [EvAfterSelect] /\ table q <> None)).
  { destruct (after_phase_cases q w3) as [->|(t & hook & Ht & _ & ->)].
    - eexists _, _, _. split; [reflexivity | now left].
    - eexists _, _, _. split; [reflexivity | right]. split; congruence. }
  destruct Ha as (w4 & ra & ta & -> & Hta).
  exists tb, [EvAppendQuery; EvScan sql], tf, ta.
  split.
  { destruct ra as [[]| |]; cbn [trace_of fst snd app]; now rewrite ?app_nil_r. }
  repeat split; eauto 10.
  destruct Hta as [->|[-> Ht]]; [now left | right; eauto].
Qed.

(** The relations that get a follow-up query: those that are not to-one,
    reached through to-one relations only, in the order of declaration. *)
Fixpoint follow_up_visit (j : join) : list join :=
  match Type_ (Relation_ j) with
  | HasOneRelation | BelongsToRelation =>
      flat_map follow_up_visit (GetJoins (JoinModel j))
  | _ => [j]
  end.

Definition follow_up_joins (joins' : list join) : list join :=
  flat_map follow_up_visit joins'.

Lemma follow_up_visit_eq (j : join) :
  follow_up_visit j
  = if is_to_one (Type_ (Relation_ j))
    then follow_up_joins (GetJoins (JoinModel j))
    else [j].
Proof. destruct j as [[[]] ?]; reflexivity. Qed.

(** What a run of follow-up queries over the relations [js] looks like: the
    queries are issued in order and the run stops at the first that fails. *)
Definition issues_in_order (q : SelectQuery) (js : list join)
    (x : World * list Event * res unit) : Prop :=
  trace_of x `prefix_of` (EvJoinSelect <$> js) /\
  (result_of x = Ok tt -> trace_of x = EvJoinSelect <$> js) /\
  (forall e, result_of x = Err e ->
     exists j w1, last (trace_of x) = Some (EvJoinSelect j) /\
                  snd (join_Select j (db q) w1) = Some e).

Lemma io_range_issues_in_order {A} (q : SelectQuery) (body : A -> IO unit)
    (f : A -> list join) (l : list A) :
  Forall (fun x => forall w, issues_in_order q (f x) (body x w)) l ->
  forall w, issues_in_order q (flat_map f l) (io_range body l w).
Proof.
  unfold issues_in_order.
  induction 1 as [|x l Hx _ IH]; intros w.
  - cbn. repeat split; [apply prefix_nil | discriminate].
  - cbn [io_range flat_map]. unfold mbind, IO_bind.
    destruct (Hx w) as (Hp & Hok & Herr).
    destruct (body x w) as [[w1 t1] [[]| |]];
      unfold trace_of, result_of in *; cbn [fst snd] in *.
    + specialize (IH w1). destruct (io_range body l w1) as [[w2 t2] r2].
      destruct IH as (Hp2 & Hok2 & Herr2). cbn [fst snd] in *.
      rewrite (Hok eq_refl), fmap_app. repeat split.
      * now apply prefix_app.
      * intros Hr. now rewrite (Hok2 Hr).
      * intros e Hr. destruct (Herr2 e Hr) as (j & w' & Hl & Hj).
        exists j, w'. split; [|exact Hj]. rewrite last_app. now rewrite Hl.
    + rewrite fmap_app. repeat split.
      * now apply prefix_app_r.
      * discriminate.
      * exact Herr.
    + rewrite fmap_app. repeat split.
      * now apply prefix_app_r.
      * discriminate.
      * discriminate.
Qed.

Lemma selectJoin_visit_issues_in_order (q : SelectQuery) (j : join) :
  forall w, issues_in_order q (follow_up_visit j) (selectJoin_visit q j w).
Proof.
  induction j as [j IH] using join_nested_ind. intros w.
  rewrite selectJoin_visit_eq, follow_up_visit_eq.
  assert (Hquery : issues_in_order q [j]
            (extern_err (EvJoinSelect j) (join_Select j (db q)) w)).
  { unfold extern_err, issues_in_order, trace_of, result_of.
    destruct (join_Select j (db q) w) as [w1 [e|]] eqn:Hj; cbn [fst snd].
    - split; [reflexivity|]. split; [discriminate|].
      intros e' [= <-]. exists j, w. split; [reflexivity|]. now rewrite Hj.
    - split; [reflexivity|]. split; [reflexivity | discriminate]. }
  destruct (Type_ (Relation_ j)); cbn [is_to_one]; try exact Hquery;
    apply io_range_issues_in_order; exact IH.
Qed.

Lemma follow_up_not_hook (ev : Event) : is_follow_up ev -> is_hook ev = false.
Proof. intros (j & -> & _). reflexivity. Qed.

(** C6.  In the events of a [Scan], a follow-up query of a relation join is
    one of a relation that is not a to-one relation, and it comes after the
    statement of the primary query was handed to the driver and scanned
    with a row count above zero; nothing before that statement is a
    follow-up query.  [selectJoins] issues no query for a to-one relation:
    it goes on with the joins of its join model; for any other relation it
    issues the follow-up query.

    The follow-up step of [Scan] is [selectJoins] on the joins of the model
    that was scanned.  When the scan returned a row count above zero and the
    model is a table model, the events of [Scan] are those of the before
    hook, the render and the scan, then the events of [selectJoins] on all
    the joins of the model, then at most the after hook; a failure of
    [selectJoins] is the result of [Scan].  When [selectJoins] returns nil,
    its queries are exactly those of the relations that are not to-one,
    reached through the to-one relations, nested ones included, in the
    order of declaration.  With a row count of zero, or a model that is not
    a table model, [Scan] issues no follow-up query. *)
Theorem follow_up_queries_after_scan (dest : list Dest) (q : SelectQuery)
    (w : World) :
  (forall j, EvJoinSelect j ∈ trace_of (Scan dest q w) ->
     is_to_one (Type_ (Relation_ j)) = false /\
     exists pre sql post model w1 w2 n model',
       trace_of (Scan dest q w) = pre ++ EvScan sql :: post /\
       EvJoinSelect j ∈ post /\
       Forall (fun ev => forall j', ev <> EvJoinSelect j') pre /\
       base_scan q sql model true w1 = (w2, Ok (n, model')) /\
       0 < n) /\
  (forall joins' w', Forall is_follow_up (trace_of (selectJoins q joins' w'))) /\
  (forall j rest w',
     selectJoins q (j :: rest) w'
     = (_ ← (if is_to_one (Type_ (Relation_ j))
             then selectJoins q (GetJoins (JoinModel j))
             else extern_err (EvJoinSelect j) (join_Select j (db q)));
        selectJoins q rest) w') /\
  (forall model w1 tb sql w2 n model',
     getModel q dest = Ok model ->
     before_phase q w = (w1, tb, Ok tt) ->
     AppendQuery q (DB_fmter (db q)) (makeQueryBytes (db q)) = Ok sql ->
     base_scan q sql (capped q model) true w1 = (w2, Ok (n, model')) ->
     (forall tm,
        0 < n -> as_tableModel model' = Some tm ->
        (exists ta,
           trace_of (Scan dest q w)
           = tb ++ [EvAppendQuery; EvScan sql]
             ++ trace_of (selectJoins q (GetJoins tm) w2) ++ ta /\
           (ta = [] \/ ta = [EvAfterSelect])) /\
        (result_of (selectJoins q (GetJoins tm) w2) <> Ok tt ->
         trace_of (Scan dest q w)
         = tb ++ [EvAppendQuery; EvScan sql]
           ++ trace_of (selectJoins q (GetJoins tm) w2) /\
         result_of (Scan dest q w)
         = result_of (selectJoins q (GetJoins tm) w2)) /\
        (result_of (selectJoins q (GetJoins tm) w2) = Ok tt ->
         trace_of (selectJoins q (GetJoins tm) w2)
         = EvJoinSelect <$> follow_up_joins (GetJoins tm))) /\
     (n <= 0 \/ as_tableModel model' = None ->
      Forall (fun ev => forall j, ev <> EvJoinSelect j)
        (trace_of (Scan dest q w)))) /\
  (forall joins' w',
     trace_of (selectJoins q joins' w')
       `prefix_of` (EvJoinSelect <$> follow_up_joins joins') /\
     (result_of (selectJoins q joins' w') = Ok tt ->
      trace_of (selectJoins q joins' w')
      = EvJoinSelect <$> follow_up_joins joins')) /\
  (forall j rest,
     follow_up_joins (j :: rest)
     = (if is_to_one (Type_ (Relation_ j))
        then follow_up_joins (GetJoins (JoinModel j))
        else [j])
       ++ follow_up_joins rest).
Proof.
  assert (Hissues : forall joins' w',
            issues_in_order q (follow_up_joins joins') (selectJoins q joins' w')).
  { intros joins' w'. apply io_range_issues_in_order. apply Forall_forall.
    intros j _. apply selectJoin_visit_issues_in_order. }
  split; [|split; [|split; [|split; [|split]]]].
  - intros j Hj.
    destruct (Scan_shape dest q w)
      as (tb & tm & tf & ta & Htr & _ & Htb & Htm & Htf & Hscan & Hta).
    rewrite Htr in Hj |- *.
    assert (Hin : EvJoinSelect j ∈ tf).
    { rewrite !elem_of_app in Hj. destruct Hj as [Hj|[Hj|[Hj|Hj]]].
      - destruct Htb as [->|[-> _]]; inversion Hj; subst;
          match goal with Hx : _ ∈ [] |- _ => inversion Hx end.
      - destruct Htm as [->|[->|[sql ->]]];
          repeat match goal with
                 | Hx : _ ∈ [] |- _ => inversion Hx
                 | Hx : _ ∈ _ :: _ |- _ => inversion Hx; clear Hx; subst
                 end.
      - exact Hj.
      - destruct Hta as [->|[-> _]]; inversion Hj; subst;
          match goal with Hx : _ ∈ [] |- _ => inversion Hx end. }
    split.
    + rewrite Forall_forall in Htf. destruct (Htf _ Hin) as (j' & Hev & Hty).
      now injection Hev as <-.
    + destruct Hscan as (sql & model & w1 & w2 & n & model' & -> & Hs & Hn).
      { intros ->. inversion Hin. }
      exists (tb ++ [EvAppendQuery]), sql, (tf ++ ta), model, w1, w2, n, model'.
      split; [now rewrite <- !app_assoc|]. split; [|split; [|split]]; auto.
      * apply elem_of_app. now left.
      * apply Forall_app. split.
        -- destruct Htb as [->|[-> _]]; repeat constructor; discriminate.
        -- repeat constructor; discriminate.
  - intros joins' w'. apply selectJoins_trace.
  - intros j rest w'. unfold selectJoins at 1. cbn [io_range].
    rewrite selectJoin_visit_eq. now destruct (Type_ (Relation_ j)).
  - intros model w1 tb sql w2 n model' Hm Hb Hsql Hs.
    assert (Htb : Forall (fun ev => forall j, ev <> EvJoinSelect j) tb).
    { destruct (before_phase_cases q w) as [Hb'|(t' & hook' & _ & _ & Hb')];
        rewrite Hb' in Hb; injection Hb as _ <-;
        repeat constructor; discriminate. }
    assert (Hafter : forall w3, exists w4 ta ra,
              after_phase q w3 = (w4, ta, ra) /\
              (ta = [] \/ ta = [EvAfterSelect])).
    { intros w3.
      destruct (after_phase_cases q w3) as [->|(t & hook & _ & _ & ->)];
        eexists _, _, _; (split; [reflexivity | auto]). }
    rewrite Scan_phases.
    unfold mbind, IO_bind, pure, traced, extern, mret, IO_ret.
    rewrite Hm, Hb, Hsql, Hs. unfold follow_phase.
    split.
    + intros tm Hn Htm. rewrite (proj2 (Z.ltb_lt 0 n) Hn), Htm.
      destruct (Hissues (GetJoins tm) w2) as (_ & Hok & _).
      destruct (selectJoins q (GetJoins tm) w2) as [[w3 tf] rf].
      unfold trace_of, result_of in *. cbn [fst snd] in *.
      destruct rf as [[]| |].
      * destruct (Hafter w3) as (w4 & ta & ra & -> & Hta).
        cbn [fst snd]. split; [|split].
        -- exists ta. split; [|exact Hta].
           destruct ra as [[]| |]; cbn [fst snd app]; now rewrite ?app_nil_r.
        -- intros Hne. now contradiction Hne.
        -- exact Hok.
      * cbn [fst snd]. split; [|split].
        -- exists []. split; [now rewrite app_nil_r | now left].
        -- intros _. split; reflexivity.
        -- discriminate.
      * cbn [fst snd]. split; [|split].
        -- exists []. split; [now rewrite app_nil_r | now left].
        -- intros _. split; reflexivity.
        -- discriminate.
    + intros Hnone.
      assert (Hf : (if 0 <? n
                    then match as_tableModel model' with
                         | Some tm => selectJoins q (GetJoins tm)
                         | None => mret tt
                         end
                    else mret tt) w2
                   = (w2, [], Ok tt)).
      { destruct (Z.ltb_spec 0 n) as [Hn|Hn]; [|reflexivity].
        destruct Hnone as [Hle | ->]; [lia | reflexivity]. }
      rewrite Hf. destruct (Hafter w2) as (w4 & ta & ra & -> & Hta).
      unfold trace_of.
      assert (Hall : Forall (fun ev => forall j, ev <> EvJoinSelect j)
                       (tb ++ [EvAppendQuery; EvScan sql] ++ ta)).
      { apply Forall_app. split; [exact Htb|].
        destruct Hta as [-> | ->]; repeat constructor; discriminate. }
      destruct ra as [[]| |]; cbn [fst snd app] in *;
        rewrite ?app_nil_r; exact Hall.
  - intros joins' w'. destruct (Hissues joins' w') as (Hp & Hok & _).
    split; [exact Hp | exact Hok].
  - intros j rest. unfold follow_up_joins at 1. cbn [flat_map].
    now rewrite follow_up_visit_eq.
Qed.

(** C5.  In the events of a [Scan]: without table metadata no hook is
    invoked; the before-select hook is invoked at most once and before
    everything else, the after-select hook at most once, after everything
    else and only after the statement was handed to the driver.  When the
    model is resolved and the zero value of the model type implements the
    before-select hook, the hook is the first event and is invoked once; an
    error of the hook is the result of [Scan], and neither the render nor
    the driver is reached.  When the render, the scan and the follow-up
    queries succeed and the zero value implements the after-select hook,
    that hook is invoked once, after them, and its error is the result of
    [Scan]. *)
Theorem select_hooks_wrap_the_query (dest : list Dest) (q : SelectQuery)
    (w : World) :
  (table q = None ->
   Forall (fun ev => is_hook ev = false) (trace_of (Scan dest q w))) /\
  (exists tb rest ta,
     trace_of (Scan dest q w) = tb ++ rest ++ ta /\
     (tb = [] \/ tb = [EvBeforeSelect]) /\
     (ta = [] \/ ta = [EvAfterSelect] /\ exists sql, EvScan sql ∈ rest) /\
     Forall (fun ev => is_hook ev = false) rest) /\
  (forall model t hook,
     getModel q dest = Ok model ->
     table q = Some t ->
     as_BeforeSelectHook (ZeroIface t) = Some hook ->
     (forall e, snd (hook q w) = Some e ->
        Scan dest q w = (fst (hook q w), [EvBeforeSelect], Err e)) /\
     exists rest,
       trace_of (Scan dest q w) = EvBeforeSelect :: rest /\
       Forall (fun ev => ev <> EvBeforeSelect) rest) /\
  (forall model t hook w1 tb sql w2 n model' w3 tf,
     getModel q dest = Ok model ->
     table q = Some t ->
     as_AfterSelectHook (ZeroIface t) = Some hook ->
     before_phase q w = (w1, tb, Ok tt) ->
     AppendQuery q (DB_fmter (db q)) (makeQueryBytes (db q)) = Ok sql ->
     base_scan q sql (capped q model) true w1 = (w2, Ok (n, model')) ->
     follow_phase q n model' w2 = (w3, tf, Ok tt) ->
     Scan dest q w
     = (fst (hook q w3),
        tb ++ [EvAppendQuery; EvScan sql] ++ tf ++ [EvAfterSelect],
        match snd (hook q w3) with Some e => Err e | None => Ok tt end) /\
     Forall (fun ev => ev <> EvAfterSelect)
       (tb ++ [EvAppendQuery; EvScan sql] ++ tf)).
Proof.
  destruct (Scan_shape dest q w)
    as (tb & tm & tf & ta & Htr & Hbefore & Htb & Htm & Htf & Hscan & Hta).
  assert (Hmid : Forall (fun ev => is_hook ev = false) (tm ++ tf)).
  { apply Forall_app. split.
    - destruct Htm as [->|[->|[sql ->]]]; repeat constructor.
    - eapply Forall_impl; [exact Htf | exact follow_up_not_hook]. }
  split; [|split; [|split]].
  - intros Hnone. rewrite Htr.
    destruct Htb as [->|[_ Ht]]; [|contradiction].
    destruct Hta as [->|[_ [Ht _]]]; [|contradiction].
    now rewrite app_nil_r.
  - exists tb, (tm ++ tf), ta. split; [now rewrite <- !app_assoc|].
    split; [tauto|]. split; [|exact Hmid].
    destruct Hta as [->|[-> [_ [sql ->]]]]; [now left | right].
    split; [reflexivity|]. exists sql. apply elem_of_app. left.
    apply list_elem_of_In. cbn. auto.
  - intros model t hook Hm Ht Hh.
    assert (Hbp : before_phase q w
                  = (fst (hook q w), [EvBeforeSelect],
                     match snd (hook q w) with
                     | Some e => Err e | None => Ok tt end)).
    { destruct (before_phase_cases q w) as [Hb|(t' & hook' & Ht' & Hh' & Hb)].
      - unfold before_phase, beforeSelectHook in Hb. rewrite Ht, Hh in Hb.
        rewrite bool_decide_true in Hb by discriminate.
        unfold extern_err in Hb. destruct (hook q w). discriminate.
      - rewrite Ht in Ht'. injection Ht' as <-. rewrite Hh in Hh'.
        now injection Hh' as <-. }
    split.
    + intros e He. rewrite Scan_phases.
      unfold mbind, IO_bind, pure. rewrite Hm, Hbp, He. reflexivity.
    + rewrite Htr, (Hbefore _ Hm), Hbp. cbn [trace_of fst snd app].
      eexists. split; [reflexivity|].
      rewrite (app_assoc tm). apply Forall_app. split.
      * eapply Forall_impl; [exact Hmid|]. cbn beta. intros ev Hev ->. discriminate.
      * destruct Hta as [->|[-> _]]; repeat constructor; discriminate.
  - intros model t hook w1 tb' sql w2 n model' w3 tf'
      Hm Ht Hh Hb Hsql Hs Hf.
    split.
    + rewrite Scan_phases.
      unfold mbind, IO_bind, pure, traced, extern, mret, IO_ret.
      rewrite Hm, Hb, Hsql, Hs, Hf.
      unfold after_phase, afterSelectHook. rewrite Ht, Hh.
      rewrite bool_decide_true by discriminate.
      unfold extern_err. destruct (hook q w3) as [w4 [e|]];
        cbn [fst snd app]; now rewrite ?app_nil_r.
    + apply Forall_app. split; [|apply Forall_app; split].
      * destruct (before_phase_cases q w) as [Hb'|(t' & hook' & _ & _ & Hb')];
          rewrite Hb' in Hb; injection Hb as _ <-;
          repeat constructor; discriminate.
      * repeat constructor; discriminate.
      * pose proof (proj1 (follow_phase_trace q n model' w2)) as Hft.
        rewrite Hf in Hft. cbn [trace_of fst snd] in Hft.
        eapply Forall_impl; [exact Hft|]. cbn beta.
        intros ev (j & -> & _). discriminate.
Qed.

(** * Further properties of the builder and of the renderer *)

(** ** The buffer of the renderer *)

Lemma HasSuffix_refl (s : string) : HasSuffix s s = true.
Proof.
  unfold HasSuffix, slice_from, len. rewrite Nat.leb_refl, Z.sub_diag.
  cbn [andb Z.to_nat]. rewrite Nat.sub_0_r, Str.substring_all.
  apply String.eqb_refl.
Qed.

Lemma HasSuffix_app (b s : string) : HasSuffix (b +:+ s) s = true.
Proof.
  induction b as [|a r IH]; [apply HasSuffix_refl|].
  rewrite Str.app_cons, Str.HasSuffix_cons, IH. apply orb_true_r.
Qed.

(** What [TrimSuffix] removes is what was appended. *)
Lemma TrimSuffix_app (b s : string) : TrimSuffix (b +:+ s) s = b.
Proof.
  induction b as [|a r IH].
  - rewrite Str.app_nil_l. unfold TrimSuffix. rewrite HasSuffix_refl.
    unfold slice_to. rewrite Z.sub_diag. now destruct s.
  - rewrite Str.app_cons, Str.TrimSuffix_cons, IH.
    rewrite Str.eqb_length; [reflexivity|].
    cbn [String.length]. rewrite Str.length_app. lia.
Qed.

(** X1.  The renderer only appends.  The text it returns is the buffer it
    was given followed by a text that does not depend on the buffer, for the
    plain and for the counting render alike; when it fails, the failure does
    not depend on the buffer either.  Rendering into a buffer is rendering
    into the empty buffer and appending the result. *)
Theorem appendQuery_appends_to_buffer (q : SelectQuery) (fmter : Formatter)
    (b : string) (count : bool) :
  appendQuery q fmter b count
  = (s ← appendQuery q fmter "" count; Ok (b +:+ s)).
Proof.
  rewrite !appendQuery_statement. destruct (err q); [reflexivity|].
  destruct (if count then count_statement fmter q else select_statement fmter q);
    cbn; [|reflexivity..].
  now str_norm.
Qed.

(** X2.  [appendColumns] on its own does not only append.  With a column
    list that is set but empty and without to-one relations it writes
    nothing, and its final trim then removes a separator that ends the
    buffer it was given. *)
Theorem appendColumns_empty_list_trims_buffer (q : SelectQuery)
    (fmter : Formatter) (b : string) :
  columns q = Some [] ->
  to_one_joins_of q = [] ->
  appendColumns q fmter b = Ok (TrimSuffix b ", ") /\
  appendColumns q fmter (b +:+ ", ") = Ok b.
Proof.
  intros Hcols Hnone.
  assert (Hall : forall b', appendColumns q fmter b' = Ok (TrimSuffix b' ", ")).
  { intros b'. unfold appendColumns. rewrite Hcols. cbn [for_range].
    rewrite Loops.bind_Ok, forEachHasOneJoin_to_one, Hnone. reflexivity. }
  split; [apply Hall|]. now rewrite Hall, TrimSuffix_app.
Qed.

(** ** Explicit joins and their conditions *)

(** X3.  [JoinOn] and [JoinOnOr] attach their condition to the join added
    last: the earlier joins and the earlier conditions of the last join stay
    as they are, the number of joins does not change and no error is
    recorded.  After [Join], the new join has exactly that condition. *)
Theorem joinOn_extends_last_join (cond : string) (args : list Arg)
    (sep : string) (q : SelectQuery) :
  (forall js j,
     joins q = js ++ [j] ->
     joinOn cond args sep q
     = set_joins
         (js ++ [mkJoinQuery (jq_join j)
                   (jq_on j ++ [SafeQueryWithSep cond args sep])]) q /\
     err (joinOn cond args sep q) = err q /\
     length (joins (joinOn cond args sep q)) = length (joins q)) /\
  (forall join' args',
     joinOn cond args sep (Join join' args' q)
     = set_joins
         (joins q ++ [mkJoinQuery (SafeQuery join' args')
                        [SafeQueryWithSep cond args sep]]) q).
Proof.
  assert (Hlast : forall q' js j,
            joins q' = js ++ [j] ->
            joinOn cond args sep q'
            = set_joins
                (js ++ [mkJoinQuery (jq_join j)
                          (jq_on j ++ [SafeQueryWithSep cond args sep])]) q').
  { intros q' js j Hj. unfold joinOn. rewrite Hj, length_app.
    cbn [length]. replace (length js + 1 - 1)%nat with (length js + 0)%nat by lia.
    rewrite alter_app_r.
    destruct (Nat.eqb_spec (length js + 1) 0); [lia | reflexivity]. }
  split.
  - intros js j Hj. rewrite (Hlast q js j Hj).
    split; [reflexivity|]. split; [reflexivity|].
    cbn. rewrite Hj, !length_app. reflexivity.
  - intros join' args'.
    now rewrite (Hlast (Join join' args' q) (joins q)
                   (mkJoinQuery (SafeQuery join' args') []) eq_refl).
Qed.

(** X4.  The separator of the first condition of a join is not written:
    a join renders the same whatever that separator is, so a first condition
    added with [JoinOnOr] reads as one added with [JoinOn].  A join without
    conditions is a space and the join fragment, without ON. *)
Theorem first_join_condition_separator_unused (fmter : Formatter) (b : string)
    (join' : QueryWithArgs) :
  (forall (c : QueryWithArgs) (sep sep' : string) (rest : list QueryWithSep),
     joinQuery_AppendQuery
       (mkJoinQuery join' (mkQueryWithSep c sep :: rest)) fmter b
     = joinQuery_AppendQuery
         (mkJoinQuery join' (mkQueryWithSep c sep' :: rest)) fmter b) /\
  joinQuery_AppendQuery (mkJoinQuery join' []) fmter b
  = (t ← QueryWithArgs_text join' fmter; Ok (b +:+ " " +:+ t)).
Proof.
  split.
  - intros c sep sep' rest. rewrite !joinQuery_AppendQuery_text. reflexivity.
  - rewrite joinQuery_AppendQuery_text. unfold join_text, fragment_text.
    cbn [jq_join jq_on]. destruct (QueryWithArgs_text join' fmter); cbn;
      [|reflexivity..].
    now str_norm.
Qed.

(** ** Recorded errors and set operations *)

(** No error is recorded on the query nor, recursively, on an operand of
    one of its set operations. *)
Fixpoint error_free (q : SelectQuery) : bool :=
  bool_decide (err q = None)
  && forallb (fun u => error_free (query u)) (union_ q).

Lemma error_free_eq (q : SelectQuery) :
  error_free q
  = bool_decide (err q = None)
    && forallb (fun u => error_free (query u)) (union_ q).
Proof. destruct q; reflexivity. Qed.

Lemma concat_texts_Ok {A} (f : A -> res string) (l : list A) (s : string) :
  concat_texts f l = Ok s -> Forall (fun x => exists t, f x = Ok t) l.
Proof.
  revert s. induction l as [|x l IH]; intros s Hs; [constructor|].
  cbn [concat_texts] in Hs. destruct (f x) as [t| |] eqn:Hx; [|discriminate..].
  cbn in Hs. destruct (concat_texts f l) as [ts| |]; [|discriminate..].
  constructor; [now exists t | now apply (IH ts)].
Qed.

Lemma concat_texts_app {A} (f : A -> res string) (l1 l2 : list A) :
  concat_texts f (l1 ++ l2)
  = (a ← concat_texts f l1; c ← concat_texts f l2; Ok (a +:+ c)).
Proof.
  induction l1 as [|x l1 IH].
  - cbn. destruct (concat_texts f l2); cbn; [|reflexivity..]. now str_norm.
  - cbn [app concat_texts]. rewrite IH.
    destruct (f x); cbn; [|reflexivity..].
    destruct (concat_texts f l1); cbn; [|reflexivity..].
    destruct (concat_texts f l2); cbn; [|reflexivity..].
    now str_norm.
Qed.

(** A statement that renders has rendered every operand of its set
    operations. *)
Lemma statement_of_Ok (cols : res string) (tail : bool) (fmter : Formatter)
    (q : SelectQuery) (s : string) :
  statement_of cols tail fmter q = Ok s ->
  Forall (fun u => exists t, AppendQuery (query u) fmter "" = Ok t) (union_ q).
Proof.
  unfold statement_of, set_operations. intros Hs.
  destruct (concat_clauses _) as [p| |]; [|discriminate..]. cbn in Hs.
  destruct (union_ q) as [|u us]; [constructor|].
  destruct (concat_texts _ (u :: us)) as [ts| |] eqn:Hts; [|discriminate..].
  eapply Forall_impl; [exact (concat_texts_Ok _ _ _ Hts)|].
  intros u' [t Hu']. cbn beta in Hu'.
  destruct (AppendQuery (query u') fmter "") as [t'| |]; [|discriminate..].
  now exists t'.
Qed.

(** X5.  A render that succeeds, plain or counting, is a render of a
    builder without a recorded error anywhere: neither on the query itself
    nor on an operand of a set operation, at any depth.  An error recorded
    on an operand is not lost when the operand is combined. *)
Theorem render_succeeds_only_without_recorded_error (q : SelectQuery) :
  forall (fmter : Formatter) (b : string) (count : bool) (s : string),
    appendQuery q fmter b count = Ok s -> error_free q = true.
Proof.
  induction q as [q IH] using SelectQuery_nested_ind.
  intros fmter b count s Hs. rewrite appendQuery_statement in Hs.
  rewrite error_free_eq.
  destruct (err q) eqn:He; [discriminate|].
  rewrite bool_decide_true by reflexivity. cbn [andb].
  assert (Hops : Forall (fun u => exists t, AppendQuery (query u) fmter "" = Ok t)
                   (union_ q)).
  { destruct count.
    - unfold count_statement in Hs. destruct (counts_wrapped q).
      + destruct (statement_of _ false fmter q) as [s'| |] eqn:Hst;
          [|discriminate..].
        exact (statement_of_Ok _ _ _ _ _ Hst).
      + destruct (statement_of _ false fmter q) as [s'| |] eqn:Hst;
          [|discriminate..].
        exact (statement_of_Ok _ _ _ _ _ Hst).
    - unfold select_statement in Hs.
      destruct (statement_of _ true fmter q) as [s'| |] eqn:Hst;
        [|discriminate..].
      exact (statement_of_Ok _ _ _ _ _ Hst). }
  apply forallb_forall. intros u Hu.
  rewrite Forall_forall in IH, Hops. apply list_elem_of_In in Hu.
  destruct (Hops u Hu) as [t Ht]. exact (IH u Hu _ _ _ _ Ht).
Qed.

(** The clauses of the primary statement do not look at the set
    operations, except through the to-one relations, whose helpers are
    handed the query. *)
Lemma primary_clauses_set_union (us : list union) (tail : bool)
    (fmter : Formatter) (q : SelectQuery) :
  to_one_joins_of q = [] ->
  primary_clauses (columns_clause fmter (set_union us q)) tail fmter
    (set_union us q)
  = primary_clauses (columns_clause fmter q) tail fmter q.
Proof.
  intros Hnone.
  assert (Hnone' : to_one_joins_of (set_union us q) = []) by exact Hnone.
  unfold primary_clauses, columns_clause, columns_clause_of,
    relation_joins_clause.
  rewrite Hnone, Hnone'. reflexivity.
Qed.

(** X6.  A set operation appends its operand.  For a query without to-one
    relations, the render after [Union] (and [UnionAll], [Intersect],
    [IntersectAll], [Except], [ExceptAll]) is the render of the query as it
    was, put in parentheses if it had no set operation yet, followed by the
    operator and the render of the operand in parentheses.  A failure of the
    query comes before a failure of the operand. *)
Theorem set_operation_appends_operand (expr' : string) (other : SelectQuery)
    (q : SelectQuery) (fmter : Formatter) (b : string) :
  to_one_joins_of q = [] ->
  appendQuery (addUnion expr' other q) fmter b false
  = (s ← appendQuery q fmter "" false;
     t ← AppendQuery other fmter "";
     Ok (b +:+ match union_ q with
               | [] => "(" +:+ s +:+ ")"
               | _ => s
               end +:+ expr' +:+ "(" +:+ t +:+ ")")).
Proof.
  intros Hnone. rewrite !appendQuery_statement.
  change (err (addUnion expr' other q)) with (err q).
  destruct (err q); [reflexivity|].
  unfold select_statement, statement_of, addUnion.
  rewrite (primary_clauses_set_union _ _ _ _ Hnone).
  destruct (concat_clauses (primary_clauses (columns_clause fmter q) true fmter q))
    as [p| |]; cbn [mbind result_bind]; [|reflexivity..].
  unfold set_operations.
  change (union_ (set_union (union_ q ++ [mkUnion expr' other]) q))
    with (union_ q ++ [mkUnion expr' other]).
  rewrite concat_texts_app. cbn [concat_texts expr query].
  destruct (union_ q) as [|u us] eqn:Hus.
  - cbn [app concat_texts mbind result_bind].
    destruct (AppendQuery other fmter ""); cbn; [|reflexivity..].
    now str_norm.
  - cbn [app].
    destruct (concat_texts _ (u :: us)) as [ts| |]; cbn [mbind result_bind];
      [|reflexivity..].
    destruct (AppendQuery other fmter ""); cbn; [|reflexivity..].
    now str_norm.
Qed.

(** ** Relations *)

(** X7.  [Relation] panics exactly when a table model is bound and more
    than one apply function is given, and then with the message "only one
    apply function is supported".  Without a table model it never panics,
    whatever the number of apply functions: the nil-model error is recorded
    first.  When the table model finds the relation, [Relation] returns the
    builder with nothing changed but the table model, which is as the
    lookup leaves it; no error is recorded. *)
Theorem Relation_panic_and_success (name : string)
    (apply : list (SelectQuery -> SelectQuery)) (q : SelectQuery) :
  ((exists msg, Relation name apply q = Panic msg)
   <-> tableModel q <> None /\ (1 < length apply)%nat) /\
  (forall msg, Relation name apply q = Panic msg ->
               msg = "only one apply function is supported") /\
  (forall tm tm' j,
     tableModel q = Some tm ->
     (length apply <= 1)%nat ->
     TableModel_Join tm name (head apply) = (tm', Some j) ->
     Relation name apply q = Ok (on_base (set_tableModel (Some tm')) q) /\
     err (on_base (set_tableModel (Some tm')) q) = err q).
Proof.
  split; [|split].
  - unfold Relation. destruct (tableModel q) as [tm|].
    + destruct apply as [|f [|g l]]; cbn [mbind result_bind length].
      * destruct (TableModel_Join tm name None) as [tm' [j|]];
          (split; [intros [msg Hm]; discriminate | intros [_ Hl]; lia]).
      * destruct (TableModel_Join tm name (Some f)) as [tm' [j|]];
          (split; [intros [msg Hm]; discriminate | intros [_ Hl]; lia]).
      * split; [intros _; split; [discriminate | lia] | intros _; eauto].
    + split; [intros [msg Hm]; discriminate
             | intros [Hn _]; now contradiction Hn].
  - intros msg. unfold Relation. destruct (tableModel q) as [tm|];
      [|discriminate].
    destruct apply as [|f [|g l]]; cbn [mbind result_bind].
    + destruct (TableModel_Join tm name None) as [tm' [j|]]; discriminate.
    + destruct (TableModel_Join tm name (Some f)) as [tm' [j|]]; discriminate.
    + intros [= <-]. reflexivity.
  - intros tm tm' j Htm Hlen Hjoin. split; [|reflexivity].
    unfold Relation. rewrite Htm.
    destruct apply as [|f [|g l]]; cbn in Hlen, Hjoin |- *;
      [now rewrite Hjoin | now rewrite Hjoin | lia].
Qed.

(** ** A plain column on a builder without a table *)

(** Texts that are rendered and thrown away fail as the list of them. *)
Lemma concat_texts_discard {A X} (g : A -> res string) (l : list A) (r : res X) :
  (concat_texts g l ≫= fun _ => r) = (mapM g l ≫= fun _ => r).
Proof.
  induction l as [|x l IH]; [reflexivity|].
  cbn [concat_texts mapM]. rewrite !Loops.bind_assoc.
  apply Loops.bind_ext. intros t. rewrite !Loops.bind_assoc.
  etransitivity; [|etransitivity; [exact IH|]];
    apply Loops.bind_ext; reflexivity.
Qed.

Lemma mapM_discard_ext {A B C X} (g : A -> res B) (g' : A -> res C)
    (l : list A) (r : res X) :
  Forall (fun x => (g x ≫= fun _ => Ok tt) = (g' x ≫= fun _ => Ok tt)) l ->
  (mapM g l ≫= fun _ => r) = (mapM g' l ≫= fun _ => r).
Proof.
  induction 1 as [|x l Hx _ IH]; [reflexivity|].
  cbn [mapM]. rewrite !Loops.bind_assoc.
  destruct (g x), (g' x); cbn in Hx |- *; try discriminate;
    try (injection Hx as ->); try reflexivity.
  rewrite !Loops.bind_assoc.
  etransitivity; [|etransitivity; [exact IH|]];
    apply Loops.bind_ext; reflexivity.
Qed.

Lemma mapM_discard_app {A B X} (g : A -> res B) (l1 l2 : list A) (r : res X) :
  (mapM g (l1 ++ l2) ≫= fun _ => r)
  = (mapM g l1 ≫= fun _ => mapM g l2 ≫= fun _ => r).
Proof.
  induction l1 as [|x l1 IH]; [reflexivity|].
  cbn [app mapM]. rewrite !Loops.bind_assoc.
  apply Loops.bind_ext. intros y. rewrite !Loops.bind_assoc.
  etransitivity; [|etransitivity; [exact IH|]];
    apply Loops.bind_ext; reflexivity.
Qed.

Lemma sep_texts_discard {A X} (sep : string) (f : A -> res string)
    (l : list A) (r : res X) :
  (sep_texts sep f l ≫= fun _ => r) = (mapM f l ≫= fun _ => r).
Proof.
  destruct l as [|x l]; [reflexivity|].
  cbn [sep_texts mapM]. rewrite !Loops.bind_assoc.
  apply Loops.bind_ext. intros t. rewrite !Loops.bind_assoc.
  etransitivity;
    [|etransitivity;
       [exact (concat_texts_discard (fun y => u ← f y; Ok (sep +:+ u)) l r)|]].
  - apply Loops.bind_ext. reflexivity.
  - etransitivity;
      [apply (mapM_discard_ext _ f)|apply Loops.bind_ext; reflexivity].
    apply Forall_forall. intros y _. now destruct (f y).
Qed.

Lemma concat_texts_fails_at {A} (g : A -> res string) (pre : list A) (c : A)
    (rest : list A) (m : string) :
  g c = Panic m ->
  concat_texts g (pre ++ c :: rest) = (mapM g pre ≫= fun _ => Panic m).
Proof.
  intros Hc. rewrite concat_texts_app. cbn [concat_texts]. rewrite Hc.
  cbn [mbind result_bind].
  rewrite <- (concat_texts_discard g pre (Panic m)).
  now destruct (concat_texts g pre).
Qed.

Lemma sep_texts_fails_at {A} (sep : string) (f : A -> res string)
    (pre : list A) (c : A) (rest : list A) (m : string) :
  f c = Panic m ->
  sep_texts sep f (pre ++ c :: rest) = (mapM f pre ≫= fun _ => Panic m).
Proof.
  intros Hc. destruct pre as [|x pre].
  - cbn [app sep_texts mapM]. now rewrite Hc.
  - cbn [app sep_texts mapM]. rewrite Loops.bind_assoc.
    apply Loops.bind_ext. intros t.
    rewrite (concat_texts_fails_at _ pre c rest m) by now rewrite Hc.
    rewrite !Loops.bind_assoc.
    etransitivity;
      [|etransitivity;
         [exact (mapM_discard_ext (fun y => u ← f y; Ok (sep +:+ u)) f pre
                   (Panic m) ltac:(apply Forall_forall; intros y _;
                                   now destruct (f y)))|]];
      apply Loops.bind_ext; reflexivity.
Qed.

Lemma distinct_clause_discard {X} (fmter : Formatter) (q : SelectQuery)
    (r : res X) :
  (distinct_clause fmter q ≫= fun _ => r)
  = (mapM (fun a => QueryWithArgs_text a fmter) (default [] (distinctOn q))
     ≫= fun _ => r).
Proof.
  unfold distinct_clause. destruct (distinctOn q) as [[|f l]|]; try reflexivity.
  rewrite Loops.bind_assoc.
  exact (sep_texts_discard ", " (fragment_text fmter) (f :: l) r).
Qed.

(** X8.  A column that is a plain name (a fragment without arguments) is
    looked up in the fields of the table without a check that there is a
    table.  On a builder without a table the plain render panics with a nil
    dereference at the first such column, unless the WITH clause, a
    DISTINCT ON expression or an earlier column fails first. *)
Theorem plain_column_without_table_panics (q : SelectQuery)
    (fmter : Formatter) (b : string)
    (pre : list QueryWithArgs) (col : QueryWithArgs) (rest : list QueryWithArgs) :
  err q = None ->
  table q = None ->
  columns q = Some (pre ++ col :: rest) ->
  Forall (fun c => Args c <> None) pre ->
  Args col = None ->
  appendQuery q fmter b false
  = (_ ← with_text q fmter;
     _ ← mapM (fun a => QueryWithArgs_text a fmter)
           (default [] (distinctOn q) ++ pre);
     Panic nil_dereference).
Proof.
  intros He Ht Hcols Hpre Hcol.
  assert (Hlist : columns_clause fmter q
                  = (mapM (fun a => QueryWithArgs_text a fmter) pre
                     ≫= fun _ => Panic nil_dereference)).
  { unfold columns_clause, columns_clause_of, base_columns,
      described_base_columns.
    rewrite Hcols.
    rewrite (sep_texts_fails_at _ _ pre col rest nil_dereference)
      by (unfold column_text; now rewrite Hcol, Ht).
    rewrite Loops.bind_assoc.
    assert (Hsame : Forall (fun c => (column_text fmter q c ≫= fun _ => Ok tt)
                                     = (QueryWithArgs_text c fmter ≫= fun _ => Ok tt))
                      pre).
    { eapply Forall_impl; [exact Hpre|]. intros c Hc. cbn beta in Hc.
      unfold column_text, fragment_text.
      destruct (Args c); [reflexivity | congruence]. }
    etransitivity;
      [|etransitivity;
         [exact (mapM_discard_ext (column_text fmter q)
                   (fun a => QueryWithArgs_text a fmter) pre
                   (Panic nil_dereference) Hsame)|]];
      apply Loops.bind_ext; reflexivity. }
  rewrite appendQuery_statement, He.
  unfold select_statement, statement_of, primary_clauses, concat_clauses.
  cbn [app concat_texts id]. rewrite Hlist. unfold with_clause.
  destruct (with_text q fmter) as [w| |]; cbn [mbind result_bind];
    [|reflexivity..].
  rewrite mapM_discard_app, <- distinct_clause_discard.
  destruct (distinct_clause fmter q) as [d| |]; cbn [mbind result_bind];
    [|reflexivity..].
  now destruct (mapM (fun a => QueryWithArgs_text a fmter) pre).
Qed.

(** ** The follow-up queries of [selectJoins] *)

(** X9.  [selectJoins] issues one follow-up query for each relation that
    is not a to-one relation and is reached through to-one relations only,
    in the order of declaration, and stops at the first query that fails:
    its queries are a prefix of that list, the whole list when it returns
    nil, and when it returns an error the last query is the one that
    failed with that error.  It does not descend into a relation that gets a
    query. *)
Theorem selectJoins_issues_follow_ups_in_order (q : SelectQuery)
    (joins' : list join) (w : World) :
  trace_of (selectJoins q joins' w)
    `prefix_of` (EvJoinSelect <$> follow_up_joins joins') /\
  (result_of (selectJoins q joins' w) = Ok tt ->
   trace_of (selectJoins q joins' w) = EvJoinSelect <$> follow_up_joins joins') /\
  (forall e, result_of (selectJoins q joins' w) = Err e ->
     exists j w1,
       last (trace_of (selectJoins q joins' w)) = Some (EvJoinSelect j) /\
       snd (join_Select j (db q) w1) = Some e) /\
  (forall j rest,
     follow_up_joins (j :: rest)
     = (if is_to_one (Type_ (Relation_ j))
        then follow_up_joins (GetJoins (JoinModel j))
        else [j])
       ++ follow_up_joins rest).
Proof.
  assert (Hall : issues_in_order q (follow_up_joins joins')
                   (selectJoins q joins' w)).
  { apply io_range_issues_in_order. apply Forall_forall. intros j _.
    apply selectJoin_visit_issues_in_order. }
  destruct Hall as (Hp & Hok & Herr).
  split; [exact Hp|]. split; [exact Hok|]. split; [exact Herr|].
  intros j rest. unfold follow_up_joins at 1. cbn [flat_map].
  now rewrite follow_up_visit_eq.
Qed.

(** ** What reaches the driver *)


(** The events of a [Scan] with the statement that was scanned. *)
Lemma Scan_statement_shape (dest : list Dest) (q : SelectQuery) (w : World) :
  exists tb tm tf ta,
    trace_of (Scan dest q w) = tb ++ tm ++ tf ++ ta /\
    (tb = [] \/ tb = [EvBeforeSelect]) /\
    (tm = [] \/ tm = [EvAppendQuery] \/
     exists sql,
       tm = [EvAppendQuery; EvScan sql] /\
       AppendQuery q (DB_fmter (db q)) (makeQueryBytes (db q)) = Ok sql) /\
    Forall is_follow_up tf /\
    (ta = [] \/ ta = [EvAfterSelect]) /\
    (result_of (Scan dest q w) = Ok tt ->
     (exists model, getModel q dest = Ok model) /\
     exists sql, tm = [EvAppendQuery; EvScan sql]).
Proof.
  rewrite Scan_phases. unfold mbind, IO_bind, pure, traced, extern, mret, IO_ret.
  destruct (getModel q dest) as [model| |];
    try (exists [], [], [], []; repeat split; auto; discriminate).
  assert (Hb : exists w1 rb tb, before_phase q w = (w1, tb, rb) /\
                (tb = [] \/ tb = [EvBeforeSelect])).
  { destruct (before_phase_cases q w) as [->|(t & hook & _ & _ & ->)];
      eexists _, _, _; (split; [reflexivity | auto]). }
  destruct Hb as (w1 & rb & tb & -> & Htb).
  destruct rb as [[]| |];
    try (exists tb, [], [], []; rewrite ?app_nil_r;
         repeat split; auto; discriminate).
  destruct (AppendQuery q (DB_fmter (db q)) (makeQueryBytes (db q))) as [sql| |];
    try (exists tb, [EvAppendQuery], [], []; repeat split; auto; discriminate).
  destruct (base_scan q sql (capped q model) true w1) as [w2 [[n model']| |]];
    try (exists tb, [EvAppendQuery; EvScan sql], [], [];
         repeat split; eauto; discriminate).
  destruct (follow_phase_trace q n model' w2) as [Htf _].
  destruct (follow_phase q n model' w2) as [[w3 tf] rf].
  unfold trace_of in Htf; cbn [fst snd] in Htf.
  destruct rf as [[]| |];
    try (exists tb, [EvAppendQuery; EvScan sql], tf, [];
         cbn [trace_of result_of fst snd app]; rewrite ?app_nil_r;
         repeat split; eauto; discriminate).
  assert (Ha : exists w4 ra ta, after_phase q w3 = (w4, ta, ra) /\
                (ta = [] \/ ta = [EvAfterSelect])).
  { destruct (after_phase_cases q w3) as [->|(t & hook & _ & _ & ->)];
      eexists _, _, _; (split; [reflexivity | auto]). }
  destruct Ha as (w4 & ra & ta & -> & Hta).
  exists tb, [EvAppendQuery; EvScan sql], tf, ta.
  split.
  { destruct ra as [[]| |]; cbn [trace_of fst snd app]; now rewrite ?app_nil_r. }
  repeat split; eauto.
Qed.

(** X11.  [Scan] resolves its model first: when that fails it returns the
    error and has done nothing, no hook, no render, no statement.  A [Scan]
    that returns nil has resolved the model and handed a statement to the
    driver.  The statement that is scanned is the text [AppendQuery]
    rendered into the buffer of the database handle, and at most one
    statement is scanned. *)
Theorem Scan_scans_the_render (dest : list Dest) (q : SelectQuery) (w : World) :
  (forall e, getModel q dest = Err e -> Scan dest q w = (w, [], Err e)) /\
  (result_of (Scan dest q w) = Ok tt ->
   (exists model, getModel q dest = Ok model) /\
   exists sql,
     AppendQuery q (DB_fmter (db q)) (makeQueryBytes (db q)) = Ok sql /\
     EvScan sql ∈ trace_of (Scan dest q w)) /\
  (forall sql,
     EvScan sql ∈ trace_of (Scan dest q w) ->
     AppendQuery q (DB_fmter (db q)) (makeQueryBytes (db q)) = Ok sql).
Proof.
  split; [|split].
  - intros e He. rewrite Scan_phases. unfold mbind, IO_bind, pure.
    now rewrite He.
  - intros Hok.
    destruct (Scan_statement_shape dest q w)
      as (tb & tm & tf & ta & Htr & _ & Htm & _ & _ & Hres).
    destruct (Hres Hok) as [Hmodel [sql Hsql]]. split; [exact Hmodel|].
    exists sql. destruct Htm as [->|[->|(sql' & -> & Hrender)]];
      try discriminate.
    injection Hsql as <-. split; [exact Hrender|].
    rewrite Htr, !elem_of_app. right. left.
    apply list_elem_of_In. cbn. auto.
  - intros sql Hin.
    destruct (Scan_statement_shape dest q w)
      as (tb & tm & tf & ta & Htr & Htb & Htm & Htf & Hta & _).
    rewrite Htr, !elem_of_app in Hin.
    destruct Hin as [Hin|[Hin|[Hin|Hin]]].
    + destruct Htb as [-> | ->];
        repeat match goal with
               | Hx : _ ∈ [] |- _ => inversion Hx
               | Hx : _ ∈ _ :: _ |- _ => inversion Hx; clear Hx; subst
               end.
    + destruct Htm as [->|[->|(sql' & -> & Hrender)]];
        repeat match goal with
               | Hx : _ ∈ [] |- _ => inversion Hx
               | Hx : _ ∈ _ :: _ |- _ => inversion Hx; clear Hx; subst
               end.
      exact Hrender.
    + rewrite Forall_forall in Htf. destruct (Htf _ Hin) as (j & Hev & _).
      discriminate.
    + destruct Hta as [-> | ->];
        repeat match goal with
               | Hx : _ ∈ [] |- _ => inversion Hx
               | Hx : _ ∈ _ :: _ |- _ => inversion Hx; clear Hx; subst
               end.
Qed.

(** ** Calls that accumulate and calls that overwrite *)

Lemma set_group_same (q : SelectQuery) : set_group (group q) q = q.
Proof. now destruct q. Qed.

(** X12.  [Group] appends one unsafe identifier for each of its columns,
    in order, after the entries that are there, and changes nothing else.
    Unlike [Order] it does not skip an empty name. *)
Theorem Group_appends_each_column (columns' : list string) (q : SelectQuery) :
  Group columns' q = set_group (group q ++ (UnsafeIdent <$> columns')) q /\
  length (group (Group columns' q)) = (length (group q) + length columns')%nat /\
  (forall more, Group (columns' ++ more) q = Group more (Group columns' q)).
Proof.
  assert (Hall : forall cs q',
            Group cs q' = set_group (group q' ++ (UnsafeIdent <$> cs)) q').
  { intros cs. unfold Group.
    induction cs as [|c cs IH]; intros q'.
    - cbn [foldl fmap list_fmap]. now rewrite app_nil_r, set_group_same.
    - cbn [foldl]. rewrite IH. cbn [fmap list_fmap].
      change (group (set_group (group q' ++ [UnsafeIdent c]) q'))
        with (group q' ++ [UnsafeIdent c]).
      now rewrite <- app_assoc. }
  split; [apply Hall|]. split.
  - rewrite Hall.
    change (group (set_group (group q ++ (UnsafeIdent <$> columns')) q))
      with (group q ++ (UnsafeIdent <$> columns')).
    now rewrite length_app, length_fmap.
  - intros more. unfold Group. apply foldl_app.
Qed.

(** X13.  [Limit] and [Offset] keep the low 32 bits of their argument.
    The stored number is always within the range of a 32-bit integer; it is
    zero, and the clause is left out of the render, exactly when the
    argument is a multiple of 2^32; arguments that differ by a multiple of
    2^32 give the same builder. *)
Theorem Limit_Offset_wrap_to_32_bits (n : Z) (q : SelectQuery) :
  (- 2 ^ 31 <= limit (Limit n q) < 2 ^ 31 /\
   - 2 ^ 31 <= offset (Offset n q) < 2 ^ 31) /\
  (limit_clause (Limit n q) = "" <-> n mod 2 ^ 32 = 0) /\
  (offset_clause (Offset n q) = "" <-> n mod 2 ^ 32 = 0) /\
  (forall k, Limit (n + k * 2 ^ 32) q = Limit n q /\
             Offset (n + k * 2 ^ 32) q = Offset n q).
Proof.
  assert (Hrange : - 2 ^ 31 <= int32 n < 2 ^ 31).
  { unfold int32. pose proof (Z.mod_pos_bound (n + 2 ^ 31) (2 ^ 32)). lia. }
  assert (Hzero : int32 n = 0 <-> n mod 2 ^ 32 = 0).
  { unfold int32. change (2 ^ 32) with 4294967296. change (2 ^ 31) with 2147483648.
    Z.to_euclidean_division_equations. lia. }
  assert (Hwrap : forall k, int32 (n + k * 2 ^ 32) = int32 n).
  { intros k. unfold int32.
    replace (n + k * 2 ^ 32 + 2 ^ 31) with (n + 2 ^ 31 + k * 2 ^ 32) by lia.
    now rewrite Z.mod_add by lia. }
  split; [split; exact Hrange|]. split; [|split].
  - rewrite limit_clause_empty_iff. exact Hzero.
  - rewrite offset_clause_empty_iff. exact Hzero.
  - intros k. unfold Limit, Offset. now rewrite Hwrap.
Qed.

(** X14.  [Distinct] starts the list of DISTINCT ON expressions afresh:
    expressions added before it are dropped and the clause is the plain
    DISTINCT, while [DistinctOn] keeps what is there and adds its
    expression, also after [Distinct].  Either call makes the counting
    render wrap the statement. *)
Theorem Distinct_drops_DistinctOn (q : SelectQuery) (fmter : Formatter) :
  (forall query' args, Distinct (DistinctOn query' args q) = Distinct q) /\
  distinct_clause fmter (Distinct q) = Ok "DISTINCT " /\
  (forall query' args,
     distinctOn (DistinctOn query' args q)
     = Some (default [] (distinctOn q) ++ [SafeQuery query' args]) /\
     distinct_clause fmter (DistinctOn query' args (Distinct q))
     = (t ← QueryWithArgs_text (SafeQuery query' args) fmter;
        Ok ("DISTINCT ON (" +:+ t +:+ ") ")) /\
     counts_wrapped (DistinctOn query' args q) = true) /\
  counts_wrapped (Distinct q) = true.
Proof.
  split; [reflexivity|]. split; [reflexivity|]. split; [|apply orb_true_r].
  intros query' args. split; [|split].
  - unfold DistinctOn. cbn. now destruct (distinctOn q).
  - unfold distinct_clause, fragment_text. cbn.
    destruct (QueryWithArgs_text (SafeQuery query' args) fmter); cbn;
      [|reflexivity..].
    now str_norm.
  - unfold counts_wrapped, DistinctOn. cbn. apply orb_true_r.
Qed.

(** ** The separators of the column list *)

Definition nonempty (s : string) : bool := negb (String.eqb s "").

Lemma HasSuffix_short (s suffix : string) :
  (String.length s < String.length suffix)%nat -> HasSuffix s suffix = false.
Proof.
  intros Hlen. unfold HasSuffix, len.
  now replace (String.length suffix <=? String.length s)%nat with false
    by (symmetry; apply Nat.leb_gt; lia).
Qed.

(** Whether a string has a suffix is decided by an end of it that is at
    least as long as the suffix. *)
Lemma HasSuffix_app_long (p x suffix : string) :
  (String.length suffix <= String.length x)%nat ->
  HasSuffix (p +:+ x) suffix = HasSuffix x suffix.
Proof.
  intros Hlen. induction p as [|a p IH]; [reflexivity|].
  rewrite Str.app_cons, Str.HasSuffix_cons, IH.
  rewrite Str.eqb_length; [reflexivity|].
  cbn [String.length]. rewrite Str.length_app. lia.
Qed.

(** A text that does not end in the separator stays so after a separator
    and a text before it. *)
Lemma HasSuffix_after_separator (p x : string) :
  x <> "" -> HasSuffix x ", " = false ->
  HasSuffix (p +:+ ", " +:+ x) ", " = false.
Proof.
  intros Hx Hs. destruct x as [|c [|d x]]; [contradiction| |].
  - replace (p +:+ ", " +:+ String c "")
      with ((p +:+ ",") +:+ String " " (String c ""))
      by (now rewrite Str.app_assoc).
    now rewrite HasSuffix_app_long by (cbn; lia).
  - rewrite <- Str.app_assoc. rewrite HasSuffix_app_long by (cbn; lia).
    exact Hs.
Qed.

Lemma TrimSuffix_without (s suffix : string) :
  HasSuffix s suffix = false -> TrimSuffix s suffix = s.
Proof. intros Hs. unfold TrimSuffix. now rewrite Hs. Qed.

Lemma concat_nonempty_cons (x : string) (l : list string) :
  l <> [] -> String.concat ", " (x :: l) = x +:+ ", " +:+ String.concat ", " l.
Proof. destruct l; [contradiction | reflexivity]. Qed.

Lemma last_nonempty (items : list string) :
  nonempty (List.last items "") = true ->
  exists l, List.filter nonempty items = l ++ [List.last items ""].
Proof.
  induction items as [|x [|y r] IH]; intros Hl.
  - discriminate.
  - cbn [List.last] in Hl |- *. cbn [List.filter]. rewrite Hl. now exists [].
  - change (List.last (x :: y :: r) "") with (List.last (y :: r) "") in Hl |- *.
    destruct (IH Hl) as [l Hf]. cbn [List.filter] in Hf |- *.
    destruct (nonempty x); rewrite Hf; [now exists (x :: l) | now exists l].
Qed.

(** The separated items are the non-empty items joined by the separator,
    followed by one more separator when the last item is empty and
    something was written. *)
Lemma comma_items_concat (items : list string) :
  comma_items items
  = String.concat ", " (List.filter nonempty items)
    +:+ (if nonempty (List.last items "") then ""
         else match List.filter nonempty items with [] => "" | _ => ", " end).
Proof.
  induction items as [|x [|y r] IH].
  - reflexivity.
  - cbn [comma_items List.last List.filter]. unfold nonempty.
    destruct (String.eqb_spec x "") as [->|Hx]; cbn; now str_norm.
  - change (comma_items (x :: y :: r))
      with ((if String.eqb x "" then "" else x +:+ ", ")
            +:+ comma_items (y :: r)).
    change (List.last (x :: y :: r) "") with (List.last (y :: r) "").
    rewrite IH. clear IH.
    change (List.filter nonempty (x :: y :: r))
      with (if nonempty x
            then x :: List.filter nonempty (y :: r)
            else List.filter nonempty (y :: r)).
    destruct (String.eqb_spec x "") as [->|Hx].
    + change (nonempty "") with false. cbn iota. now str_norm.
    + assert (Hnx : nonempty x = true)
        by (unfold nonempty; now destruct (String.eqb_spec x "")).
      rewrite Hnx.
      destruct (List.filter nonempty (y :: r)) as [|z l] eqn:Hne.
      * destruct (nonempty (List.last (y :: r) "")) eqn:Hl.
        -- destruct (last_nonempty _ Hl) as [l' Hl']. rewrite Hl' in Hne.
           now destruct l'.
        -- cbn. now str_norm.
      * rewrite (concat_nonempty_cons x (z :: l)) by discriminate.
        now str_norm.
Qed.

Lemma concat_app_last_nonempty (l : list string) (x : string) :
  x <> "" -> String.concat ", " (l ++ [x]) <> "".
Proof.
  intros Hx. destruct l as [|y l]; [exact Hx|].
  cbn [app]. rewrite concat_nonempty_cons by (now destruct l).
  intros Heq. apply (f_equal String.length) in Heq.
  rewrite !Str.length_app in Heq. cbn [String.length] in Heq. lia.
Qed.

Lemma concat_ends_with_last (l : list string) (x : string) :
  x <> "" -> HasSuffix x ", " = false ->
  HasSuffix (String.concat ", " (l ++ [x])) ", " = false.
Proof.
  intros Hx Hs. induction l as [|y l IH]; [exact Hs|].
  cbn [app]. rewrite concat_nonempty_cons by (now destruct l).
  apply HasSuffix_after_separator; [|exact IH].
  now apply concat_app_last_nonempty.
Qed.

(** The column list without its trailing separator is the non-empty items
    joined by the separator, when the last item does not itself end in the
    separator. *)
Lemma TrimSuffix_comma_items (items : list string) :
  HasSuffix (List.last items "") ", " = false ->
  TrimSuffix (comma_items items) ", "
  = String.concat ", " (List.filter nonempty items).
Proof.
  intros Hs. rewrite comma_items_concat.
  destruct (nonempty (List.last items "")) eqn:Hl.
  - rewrite Str.app_nil_r. apply TrimSuffix_without.
    destruct (last_nonempty items Hl) as [l ->].
    apply concat_ends_with_last; [|exact Hs].
    unfold nonempty in Hl. intros Heq. now rewrite Heq in Hl.
  - destruct (List.filter nonempty items); [reflexivity|]. apply TrimSuffix_app.
Qed.

(** X15.  The column list that [appendColumns] writes after SELECT is the
    base columns and the blocks of the to-one relations, those that are not
    empty, joined by a comma and a space: an empty base or an empty block
    leaves no separator behind, at the start, in the middle or at the end.
    This holds when the last of them does not itself end in a comma and a
    space; the final trim would take that away. *)
Theorem column_list_joins_nonempty_blocks (q : SelectQuery)
    (fmter : Formatter) (b b0 : string) (blocks : list string) :
  open_space b ->
  base_columns fmter q = Ok b0 ->
  mapM (relation_columns fmter q) (to_one_joins_of q) = Ok blocks ->
  HasSuffix (List.last (b0 :: blocks) "") ", " = false ->
  appendColumns q fmter b
  = Ok (b +:+ String.concat ", " (List.filter nonempty (b0 :: blocks))).
Proof.
  intros Hb Hbase Hblocks Hlast.
  rewrite (appendColumns_open_space _ _ _ Hb).
  unfold columns_clause, columns_clause_of. rewrite Hbase, Hblocks.
  cbn [mbind result_bind]. now rewrite TrimSuffix_comma_items.
Qed.

(** ** The walk over the to-one relations *)

Lemma for_range_collect {A} (l : list A) :
  forall (i : nat) (seen : list A),
    for_range (E := error) (fun _ x seen => Ok (seen ++ [x])) i l seen
    = Ok (seen ++ l).
Proof.
  induction l as [|x l IH]; intros i seen.
  - cbn. now rewrite app_nil_r.
  - cbn [for_range]. rewrite Loops.bind_Ok, IH. now rewrite <- app_assoc.
Qed.

Lemma to_one_visit_to_one (j : join) :
  Forall (fun j' => is_to_one (Type_ (Relation_ j')) = true) (to_one_visit j).
Proof.
  induction j as [j IH] using join_nested_ind.
  rewrite to_one_visit_eq.
  destruct (Type_ (Relation_ j)) eqn:Hty; try constructor;
    try (now rewrite Hty);
    unfold to_one_joins; induction IH as [|j' js Hj' _ IHjs];
    try constructor; cbn [flat_map]; apply Forall_app; split; assumption.
Qed.

(** X16.  [forEachHasOneJoin] calls its callback on the has-one and
    belongs-to relations of the table model and on no other relation: on
    each of them once, a relation before the relations of its join model,
    in the order of declaration, and never below a relation of another
    kind.  Without a table model it calls nothing.  It stops at the first
    error of the callback and returns it: the relations after that one are
    not visited. *)
Theorem forEachHasOneJoin_visits_to_one_until_error {St}
    (fn : join -> St -> res St) (q : SelectQuery) (s : St) :
  (tableModel q = None -> forEachHasOneJoin fn q s = Ok s) /\
  forEachHasOneJoin (fun j seen => Ok (seen ++ [j])) q [] = Ok (to_one_joins_of q) /\
  Forall (fun j => is_to_one (Type_ (Relation_ j)) = true) (to_one_joins_of q) /\
  (forall pre j post s1 e,
     to_one_joins_of q = pre ++ j :: post ->
     for_range (fun _ => fn) 0 pre s = Ok s1 ->
     fn j s1 = Err e ->
     forEachHasOneJoin fn q s = Err e) /\
  (forall j rest,
     to_one_joins (j :: rest)
     = (if is_to_one (Type_ (Relation_ j))
        then j :: to_one_joins (GetJoins (JoinModel j))
        else [])
       ++ to_one_joins rest).
Proof.
  split; [|split; [|split; [|split]]].
  - intros Hnone. unfold forEachHasOneJoin. now rewrite Hnone.
  - rewrite forEachHasOneJoin_to_one. apply (for_range_collect _ 0%nat []).
  - unfold to_one_joins_of. destruct (tableModel q) as [tm|]; [|constructor].
    unfold to_one_joins.
    induction (GetJoins tm) as [|j js IH]; [constructor|].
    cbn [flat_map]. apply Forall_app. split; [apply to_one_visit_to_one | exact IH].
  - intros pre j post s1 e Hq Hpre Hj.
    rewrite forEachHasOneJoin_to_one, Hq, Loops.for_range_app, Hpre.
    cbn [mbind result_bind for_range]. now rewrite Hj.
  - apply to_one_joins_cons.
Qed.

(** ** The counting render and the settings it leaves out *)

(** Two builders that differ at most in ORDER BY, LIMIT, OFFSET and FOR. *)
Definition same_but_tail (q q' : SelectQuery) : Prop :=
  whereBaseQuery_ q' = whereBaseQuery_ q /\
  distinctOn q' = distinctOn q /\
  joins q' = joins q /\
  group q' = group q /\
  having q' = having q /\
  union_ q' = union_ q.

Lemma same_but_tail_refl (q : SelectQuery) : same_but_tail q q.
Proof. repeat split. Qed.

Lemma same_but_tail_trans (q1 q2 q3 : SelectQuery) :
  same_but_tail q1 q2 -> same_but_tail q2 q3 -> same_but_tail q1 q3.
Proof.
  intros (H1 & H2 & H3 & H4 & H5 & H6) (K1 & K2 & K3 & K4 & K5 & K6).
  repeat split; congruence.
Qed.

Lemma Order_same_but_tail (orders : list string) (q : SelectQuery) :
  same_but_tail q (Order orders q).
Proof.
  revert q. unfold Order.
  induction orders as [|o os IH]; intros q; [apply same_but_tail_refl|].
  cbn [foldl]. eapply same_but_tail_trans; [|apply IH].
  unfold Order_step.
  destruct (String.eqb o ""); [apply same_but_tail_refl|].
  destruct (IndexByte o " " =? -1); [repeat split|].
  destruct (bool_decide _); repeat split.
Qed.

Lemma count_statement_same_but_tail (fmter : Formatter) (q q' : SelectQuery) :
  to_one_joins_of q = [] ->
  same_but_tail q q' ->
  count_statement fmter q' = count_statement fmter q.
Proof.
  intros Hnone (Hw & Hd & Hj & Hg & Hh & Hu).
  destruct q as [w d j g h o l f s u], q' as [w' d' j' g' h' o' l' f' s' u'].
  cbn in Hw, Hd, Hj, Hg, Hh, Hu. subst w' d' j' g' h' u'.
  assert (Hnone' : to_one_joins_of (mkSelectQuery w d j g h o' l' f' s' u) = [])
    by exact Hnone.
  unfold count_statement, statement_of, primary_clauses, columns_clause,
    columns_clause_of, relation_joins_clause.
  rewrite Hnone, Hnone'. reflexivity.
Qed.

(** X17.  The counting render does not depend on the settings it leaves
    out.  For a query without to-one relations, [Limit], [Offset], [Order],
    [OrderExpr] and [For] do not change the counting render: the statement
    that [Count] sends is the same before and after any of them. *)
Theorem counting_render_ignores_order_limit_offset (q : SelectQuery)
    (fmter : Formatter) (b : string) :
  to_one_joins_of q = [] ->
  (forall n, appendQuery (Limit n q) fmter b true = appendQuery q fmter b true) /\
  (forall n, appendQuery (Offset n q) fmter b true = appendQuery q fmter b true) /\
  (forall orders,
     appendQuery (Order orders q) fmter b true = appendQuery q fmter b true) /\
  (forall query' args,
     appendQuery (OrderExpr query' args q) fmter b true
     = appendQuery q fmter b true) /\
  (forall s args,
     appendQuery (For s args q) fmter b true = appendQuery q fmter b true).
Proof.
  intros Hnone.
  assert (Hsame : forall q', same_but_tail q q' ->
            appendQuery q' fmter b true = appendQuery q fmter b true).
  { intros q' Hq'. rewrite !appendQuery_statement.
    rewrite (count_statement_same_but_tail fmter q q' Hnone Hq').
    destruct Hq' as (Hw & _). unfold err. now rewrite Hw. }
  split; [|split; [|split; [|split]]].
  - intros n. apply Hsame. repeat split.
  - intros n. apply Hsame. repeat split.
  - intros orders. apply Hsame. apply Order_same_but_tail.
  - intros query' args. apply Hsame. repeat split.
  - intros s args. apply Hsame. repeat split.
Qed.

End SelectQuery.

(** * A small instance

    Concrete stand-ins for the code outside this file, enough to run the
    builder: a formatter that is a no-op or not, identifiers quoted with
    backticks, placeholders filled in order, a driver that logs the
    statements it receives, and hooks that succeed or fail as the zero value
    of the model says. *)

Module Demo.

(** The zero value: for each hook, whether it is implemented and whether it
    fails. *)
Definition Zero : Type := option bool * option bool.

Abbreviation DTable := (@Table Zero) (only parsing).
Abbreviation DTableModel := (@TableModel Zero) (only parsing).
Abbreviation DJoin := (@join Zero) (only parsing).
Abbreviation DQuery := (@SelectQuery unit unit Zero string) (only parsing).
Abbreviation DBase := (@baseQuery unit unit Zero string) (only parsing).
Abbreviation DWhereBase := (@whereBaseQuery unit unit Zero string) (only parsing).
Abbreviation DError := (@error Zero) (only parsing).

Definition quote_ident (s : string) : string := "`" +:+ s +:+ "`".

Definition render_arg (a : Arg) : string :=
  match a with
  | Ident name => quote_ident name
  | Safe text => text
  | ArgInt z => itoa z
  | ArgString s => "'" +:+ s +:+ "'"
  end.

(** Each [?] takes the next argument. *)
Fixpoint fill (template : string) (args : list Arg) : string :=
  match template with
  | EmptyString => EmptyString
  | String c rest =>
      if Ascii.eqb c "?"
      then match args with
           | a :: args' => render_arg a +:+ fill rest args'
           | [] => String c (fill rest [])
           end
      else String c (fill rest args)
  end.

Definition fragment (a : QueryWithArgs) : string :=
  match Args a with
  | None => quote_ident (Query a)
  | Some args => fill (Query a) args
  end.

Definition upper_ascii (c : ascii) : ascii :=
  let n := nat_of_ascii c in
  if ((97 <=? n) && (n <=? 122))%nat then ascii_of_nat (n - 32) else c.

Fixpoint upper (s : string) : string :=
  match s with
  | EmptyString => EmptyString
  | String c rest => String (upper_ascii c) (upper rest)
  end.

(** An entry without a condition: a separator or a parenthesis of a
    group. *)
Definition is_mark (c : QueryWithSep) : bool :=
  match Args (QueryWithArgs_ c) with
  | None => String.eqb (Query (QueryWithArgs_ c)) ""
  | Some _ => false
  end.

(** The conditions with their separators; a condition that is the first of
    the list or of a group has no separator before it. *)
Fixpoint conditions_from (first : bool) (l : list QueryWithSep) : string :=
  match l with
  | [] => ""
  | c :: r =>
      if is_mark c
      then
        if String.eqb (Sep c) ")" then ")" +:+ conditions_from false r
        else if String.eqb (Sep c) "(" then "(" +:+ conditions_from true r
        else (if first then "" else Sep c) +:+ conditions_from true r
      else
        (if first then "" else Sep c) +:+
        "(" +:+ fragment (QueryWithArgs_ c) +:+ ")" +:+ conditions_from false r
  end.

Definition conditions (l : list QueryWithSep) : string := conditions_from true l.

Definition alias_of (j : DJoin) : string := SQLAlias (Table_ (JoinModel j)).

Definition hook_of (name : string) (impl : option bool)
    : option (DQuery -> list string -> list string * option DError) :=
  match impl with
  | None => None
  | Some fails =>
      Some (fun _ w =>
              (w ++ [name],
               if fails then Some (errors_New (name +:+ " failed")) else None))
  end.

#[global] Instance externals
  : @Externals bool unit unit Zero (option DTableModel) unit string unit unit
      (list string) := {|
  SafeQuery query' args := mkQueryWithArgs query' (Some args);
  UnsafeIdent ident := mkQueryWithArgs ident None;
  SafeQueryWithSep query' args sep :=
    mkQueryWithSep (mkQueryWithArgs query' (Some args)) sep;
  IsZero a :=
    match Args a with None => String.eqb (Query a) "" | Some _ => false end;
  IsNop f := f;
  QueryWithArgs_text a _ := Ok (fragment a);
  formatterWithModel f _ := f;
  AppendString_text s := "'" +:+ s +:+ "'";
  ToUpper := upper;
  errNilModel := errors_New "bun: Model(nil)";
  addColumn c (b : DBase) :=
    mkBaseQuery (db b) (conn b) (err b) (tableModel b) (table b) (with_ b)
      (modelTable b) (tables b) (append_nilable (columns b) c) (flags b);
  addWhere c (q : DWhereBase) := set_where (where_ q ++ [c]) q;
  hasTables (b : DBase) :=
    match tables b, table b with
    | [], None => false
    | _, _ => true
    end;
  with_text (b : DBase) _ :=
    Ok (match with_ b with
        | [] => ""
        | l => "WITH " +:+
               String.concat ", "
                 (map (fun '(name, body) =>
                         quote_ident name +:+ " AS (" +:+ body +:+ ")") l)
               +:+ " "
        end);
  tables_text (b : DBase) _ :=
    Ok (String.concat ", "
          (match table b with
           | Some t => [quote_ident (SQLAlias t)]
           | None => []
           end ++ map fragment (tables b)));
  where_text (q : DWhereBase) _ _ :=
    Ok (match where_ q with
        | [] => ""
        | l => " WHERE " +:+ conditions l
        end);
  fields_text alias fields :=
    String.concat ", "
      (map (fun f => quote_ident alias +:+ "." +:+ quote_ident (SQLName f)) fields);
  TableModel_Join tm name _ :=
    (tm, find (fun j => String.eqb (alias_of j) name) (GetJoins tm));
  join_columns _ _ := None;
  alias_text j _ := quote_ident (alias_of j);
  aliasColumn_text j _ name := quote_ident (alias_of j +:+ "__" +:+ name);
  hasOneJoin_text j _ _ := Ok ("LEFT JOIN " +:+ quote_ident (alias_of j));
  join_Select j _ w := (w ++ ["follow-up " +:+ alias_of j], None);
  DB_fmter _ := false;
  makeQueryBytes _ := "";
  getModel (q : DQuery) dest :=
    match tableModel q, dest with
    | Some tm, _ => Ok (Some tm)
    | None, [] => Err (errors_New "bun: Model(nil)")
    | None, _ => Ok None
    end;
  as_SetCap _ := None;
  as_tableModel m := m;
  as_BeforeSelectHook z := hook_of "before select" (fst z);
  as_AfterSelectHook z := hook_of "after select" (snd z);
  conn_QueryContext _ sql w := (w ++ [sql], Ok tt);
  base_exec _ sql w := (w ++ [sql], Ok tt);
  base_scan _ sql m _ w := (w ++ [sql], Ok (1, m));
  db_beforeQuery _ _ w := w;
  db_afterQuery _ _ w := w;
  conn_QueryRow_Scan _ sql w := (w ++ [sql], (3, None))
|}.

Definition zero_fragment : QueryWithArgs := mkQueryWithArgs "" None.

(** [NewSelectQuery] followed by [Table name]. *)
Definition select_from (name : string) : DQuery :=
  mkSelectQuery
    (mkWhereBaseQuery
       (mkBaseQuery tt tt None None None [] zero_fragment
          [mkQueryWithArgs name None] None 0) [])
    None [] [] [] [] 0 0 zero_fragment [].

Definition field (name : string) : Field := mkField name name.

Definition table_of (alias : string) (names : list string) (z : Zero) : DTable :=
  mkTable alias (map field names)
    (list_to_map (map (fun n => (n, field n)) names)) z.

(** [NewSelectQuery] followed by [Model] of a table model. *)
Definition select_model (tm : DTableModel) : DQuery :=
  mkSelectQuery
    (mkWhereBaseQuery
       (mkBaseQuery tt tt None (Some tm) (Some (Table_ tm)) [] zero_fragment
          [] None 0) [])
    None [] [] [] [] 0 0 zero_fragment [].

Definition authors : DTableModel :=
  mkTableModel (table_of "author" ["id"; "name"] (None, None)) [].

Definition comments : DTableModel :=
  mkTableModel (table_of "comments" ["id"; "text"] (None, None)) [].

(** A book belongs to an author and has many comments. *)
Definition books (z : Zero) : DTableModel :=
  mkTableModel (table_of "book" ["id"; "title"] z)
    [ mkJoin (mkRelation BelongsToRelation) authors;
      mkJoin (mkRelation HasManyRelation) comments ].


End Demo.

(** * The theorems on the instance *)

Module Examples.
Import Demo.

Definition users : DQuery := select_from "users".

Definition recent_users : DQuery :=
  Limit 10 (Order ["id DESC"; "name"] (Where "id > ?" [ArgInt 5] users)).

Definition book_query (z : Zero) : DQuery := select_model (books z).

Definition comments_join : DJoin := mkJoin (mkRelation HasManyRelation) comments.



(** C2 at a grouped query (wrapped) and at a plain one. *)
Lemma count_render_witness :
  err (Group ["id"] recent_users) = None /\
  appendQuery (Group ["id"] recent_users) false "" true
  = Ok ("WITH _count_wrapper AS (" +:+
        "SELECT * FROM `users` WHERE (id > 5) GROUP BY `id`" +:+
        ") SELECT count(*) FROM _count_wrapper") /\
  appendQuery recent_users false "" true
  = Ok "SELECT count(*) FROM `users` WHERE (id > 5)" /\
  appendQuery recent_users false "" false
  = Ok ("SELECT * FROM `users` WHERE (id > 5) " +:+
        "ORDER BY `id` DESC, `name` LIMIT 10").
Proof.
  split; [reflexivity|]. split; [|split].
  - rewrite (proj1 (proj2 (count_render_replaces_columns
                             (Group ["id"] recent_users) false "" eq_refl))).
    vm_compute. reflexivity.
  - rewrite (proj1 (proj2 (count_render_replaces_columns
                             recent_users false "" eq_refl))).
    vm_compute. reflexivity.
  - rewrite (proj1 (proj2 (proj2 (count_render_replaces_columns
                                    recent_users false "" eq_refl)))).
    vm_compute. reflexivity.
Defined.

(** C3 at a query without joins, with a [Limit] after the [JoinOn]. *)
Lemma joinOn_without_joins_witness :
  joins users = [] /\
  AppendQuery (Limit 1 (JoinOn "a = b" [] users)) false "" = Err errNoJoins /\
  Rows (Limit 1 (JoinOn "a = b" [] users)) []
  = ([], [EvAppendQuery], Err errNoJoins).
Proof.
  split; [reflexivity|].
  destruct (joinOn_without_joins_defers_error users "a = b" [] eq_refl)
    as (_ & _ & Hall).
  destruct (Hall " AND " [OpLimit 1]) as [Hrender Hexec].
  split; [exact (proj1 (Hrender false "")) | exact (proj1 (Hexec []))].
Defined.

(** C4 as stated fails: [Limit] after a recorded error changes the
    builder. *)
Lemma limit_after_error_counterexample :
  err (JoinOn "a = b" [] users) = Some errNoJoins /\
  limit (JoinOn "a = b" [] users) = 0 /\
  limit (Limit 5 (JoinOn "a = b" [] users)) = 5 /\
  Limit 5 (JoinOn "a = b" [] users) <> JoinOn "a = b" [] users.
Proof.
  split; [reflexivity|]. split; [reflexivity|]. split; [reflexivity|].
  intros Heq. apply (f_equal limit) in Heq. vm_compute in Heq. discriminate.
Qed.

(** C4 as amended, at a [JoinOn] on a query with a join. *)
Lemma config_ops_witness :
  op_applies (OpJoinOn "a = b" [] " AND ") (Join "JOIN t" [] users) /\
  run_op (OpJoinOn "a = b" [] " AND ")
    (with_err (Some errNoJoins) (Join "JOIN t" [] users))
  = with_err (Some errNoJoins)
      (run_op (OpJoinOn "a = b" [] " AND ") (Join "JOIN t" [] users)) /\
  AppendQuery (with_err (Some errNoJoins) users) false "" = Err errNoJoins.
Proof.
  assert (Happ : op_applies (OpJoinOn "a = b" [] " AND ") (Join "JOIN t" [] users))
    by (cbn; discriminate).
  split; [exact Happ|]. split.
  - exact (proj1 (proj1 config_ops_do_not_check_error _ _ _ Happ)).
  - exact (proj1 (proj2 config_ops_do_not_check_error
                    (with_err (Some errNoJoins) users) errNoJoins false ""
                    eq_refl)).
Defined.

(** C5 at a model whose before-select hook fails, and at one whose hooks
    are implemented and whose after-select hook fails. *)
Lemma select_hooks_witness :
  Scan [] (book_query (Some true, Some true)) []
  = (["before select"], [EvBeforeSelect],
     Err (errors_New "before select failed")) /\
  (exists sql,
     Scan [] (book_query (Some false, Some true)) []
     = (["before select"; sql; "follow-up comments"; "after select"],
        [EvBeforeSelect; EvAppendQuery; EvScan sql;
         EvJoinSelect comments_join; EvAfterSelect],
        Err (errors_New "after select failed"))) /\
  Forall (fun ev => is_hook ev = false)
    (trace_of (Scan [tt] users [])).
Proof.
  split; [|split].
  - destruct (select_hooks_wrap_the_query [] (book_query (Some true, Some true)) [])
      as (_ & _ & Hbefore & _).
    destruct (Hbefore _ _ _ eq_refl eq_refl eq_refl) as [Herr _].
    exact (Herr _ eq_refl).
  - destruct (select_hooks_wrap_the_query [] (book_query (Some false, Some true)) [])
      as (_ & _ & _ & Hafter).
    eexists.
    exact (proj1 (Hafter _ _ _ _ _ _ _ _ _ _ _
                    eq_refl eq_refl eq_refl eq_refl eq_refl eq_refl eq_refl)).
  - exact (proj1 (select_hooks_wrap_the_query [tt] users []) eq_refl).
Defined.

(** Two conditions, the second joined by OR. *)
Definition a_or_b (q : DQuery) : DQuery :=
  WhereOr "b = ?" [ArgInt 2] (Where "a = ?" [ArgInt 1] q).

Definition users_over_5 : DQuery := Where "id > ?" [ArgInt 5] users.

(** C8 at a group of two conditions added to a query with a condition: the
    condition of the query stays in front and the group follows it. *)
Lemma WhereGroup_witness :
  a_or_b (with_where [] users_over_5)
  = with_where
      [ mkQueryWithSep (mkQueryWithArgs "a = ?" (Some [ArgInt 1])) " AND ";
        mkQueryWithSep (mkQueryWithArgs "b = ?" (Some [ArgInt 2])) " OR " ]
      (with_where [] users_over_5) /\
  where_ (WhereGroup " AND " a_or_b users_over_5)
  = [ mkQueryWithSep (mkQueryWithArgs "id > ?" (Some [ArgInt 5])) " AND ";
      where_mark " AND "; where_mark "(";
      mkQueryWithSep (mkQueryWithArgs "a = ?" (Some [ArgInt 1])) " AND ";
      mkQueryWithSep (mkQueryWithArgs "b = ?" (Some [ArgInt 2])) " OR ";
      where_mark ")" ] /\
  AppendQuery (WhereGroup " AND " a_or_b users_over_5) false ""
  = Ok "SELECT * FROM `users` WHERE (id > 5) AND ((a = 1) OR (b = 2))".
Proof.
  assert (Hfn : a_or_b (with_where [] users_over_5)
                = with_where
                    [ mkQueryWithSep (mkQueryWithArgs "a = ?" (Some [ArgInt 1]))
                        " AND ";
                      mkQueryWithSep (mkQueryWithArgs "b = ?" (Some [ArgInt 2]))
                        " OR " ]
                    (with_where [] users_over_5))
    by reflexivity.
  split; [exact Hfn|].
  destruct (WhereGroup_scopes_where " AND " a_or_b users_over_5)
    as (_ & _ & _ & _ & _ & _ & Honly).
  destruct (Honly _ Hfn) as (Hres & _).
  rewrite Hres. split; [reflexivity | vm_compute; reflexivity].
Defined.

(** A review belongs to a book: the comments of the book are reached
    through a to-one relation. *)
Definition reviews : DTableModel :=
  mkTableModel (table_of "review" ["id"; "body"] (None, None))
    [ mkJoin (mkRelation BelongsToRelation) (books (None, None)) ].

Definition review_query : DQuery := select_model reviews.

(** C6 at the books: the follow-up query of the comments comes after the
    scan, which returned a row.  At the reviews: the book, a to-one
    relation, gets no query, and the comments of the book, nested in it,
    get theirs, after the scan. *)
Lemma follow_up_witness :
  EvJoinSelect comments_join ∈ trace_of (Scan [] (book_query (None, None)) []) /\
  is_to_one (Type_ (Relation_ comments_join)) = false /\
  (exists pre sql post,
     trace_of (Scan [] (book_query (None, None)) []) = pre ++ EvScan sql :: post /\
     EvJoinSelect comments_join ∈ post) /\
  follow_up_joins (GetJoins reviews) = [comments_join] /\
  exists sql,
    AppendQuery review_query (DB_fmter (db review_query))
      (makeQueryBytes (db review_query)) = Ok sql /\
    trace_of (Scan [] review_query [])
    = [EvAppendQuery; EvScan sql; EvJoinSelect comments_join].
Proof.
  assert (Hin : EvJoinSelect comments_join
                ∈ trace_of (Scan [] (book_query (None, None)) [])).
  { apply list_elem_of_In. vm_compute. auto. }
  split; [exact Hin|].
  destruct (proj1 (follow_up_queries_after_scan [] (book_query (None, None)) [])
              _ Hin)
    as (Hty & pre & sql & post & _ & _ & _ & _ & _ & Htr & Hpost & _).
  split; [exact Hty|]. split; [now exists pre, sql, post|].
  split; [reflexivity|].
  destruct (AppendQuery review_query (DB_fmter (db review_query))
              (makeQueryBytes (db review_query))) as [sql'| |] eqn:Hsql;
    [|vm_compute in Hsql; discriminate..].
  exists sql'. split; [reflexivity|].
  assert (Hmodel : getModel review_query [] = Ok (Some reviews))
    by reflexivity.
  assert (Hbefore : before_phase review_query [] = ([], [], Ok tt))
    by reflexivity.
  assert (Hscan : base_scan review_query sql'
                    (capped review_query (Some reviews)) true []
                  = ([] ++ [sql'], Ok (1, Some reviews)))
    by reflexivity.
  destruct (proj1 (proj2 (proj2 (proj2
              (follow_up_queries_after_scan [] review_query []))))
              _ _ _ _ _ _ _ Hmodel Hbefore Hsql Hscan)
    as [Hrows _].
  assert (Htm : as_tableModel (Some reviews) = Some reviews) by reflexivity.
  destruct (Hrows reviews eq_refl Htm) as ((ta & Htrace & Hta) & _ & Hok).
  assert (Hnil : result_of (selectJoins review_query (GetJoins reviews)
                              ([] ++ [sql'])) = Ok tt)
    by reflexivity.
  rewrite (Hok Hnil) in Htrace. rewrite Htrace.
  destruct Hta as [-> | ->]; [reflexivity|].
  exfalso.
  assert (Hlast : last (trace_of (Scan [] review_query []))
                  = Some EvAfterSelect)
    by (rewrite Htrace; reflexivity).
  vm_compute in Hlast. discriminate.
Defined.

(** The error slot of the builder that a call returned. *)
Definition recorded (r : result DError DQuery) : option (option DError) :=
  match r with
  | Ok q => Some (err q)
  | _ => None
  end.

(** C7 at a query without a model and at a relation the books do not
    have. *)
Lemma Relation_witness :
  tableModel users = None /\
  recorded (Relation "Author" [] users)
  = Some (Some (errors_New "bun: Model(nil)")) /\
  tableModel (book_query (None, None)) = Some (books (None, None)) /\
  (length ([] : list (DQuery -> DQuery)) <= 1)%nat /\
  recorded (Relation "publisher" [] (book_query (None, None)))
  = Some (Some (errNoRelation (table (book_query (None, None))) "publisher")).
Proof.
  split; [reflexivity|]. split; [|split; [reflexivity|split; [apply le_0_n|]]].
  - destruct (proj1 (Relation_defers_error "Author" [] users) eq_refl)
      as (-> & He & _).
    cbn [recorded]. now rewrite He.
  - assert (Hjoin : TableModel_Join (books (None, None)) "publisher"
                      (head ([] : list (DQuery -> DQuery)))
                    = (books (None, None), None))
      by (vm_compute; reflexivity).
    destruct (proj2 (Relation_defers_error "publisher" [] (book_query (None, None)))
                (books (None, None)) (books (None, None))
                eq_refl (le_0_n 1) Hjoin)
      as (-> & He & _).
    cbn [recorded]. now rewrite He.
Defined.

(** C9 on the strings "id DESC", "name" and "a b". *)
Lemma Order_witness :
  no_space "id" /\ (upper "DESC" ∈ sort_directions) /\
  order (Order ["id DESC"] users)
  = [mkQueryWithArgs "? ?" (Some [Ident "id"; Safe "DESC"])] /\
  no_space "name" /\
  order (Order ["name"] users) = [mkQueryWithArgs "name" None] /\
  no_space "a" /\ (upper "b" ∉ sort_directions) /\
  order (Order ["a b"] users) = [mkQueryWithArgs "a b" None].
Proof.
  assert (Hid : no_space "id") by (cbv; intuition discriminate).
  assert (Hname : no_space "name") by (cbv; intuition discriminate).
  assert (Ha : no_space "a") by (cbv; intuition discriminate).
  assert (Hdesc : ToUpper "DESC" ∈ sort_directions)
    by (apply list_elem_of_In; vm_compute; auto).
  assert (Hb : ToUpper "b" ∉ sort_directions).
  { intros Hin. apply list_elem_of_In in Hin. vm_compute in Hin.
    intuition discriminate. }
  destruct Order_classifies_each_string as (_ & _ & _ & Hplain & Hsort & Hother & _).
  split; [exact Hid|]. split; [exact Hdesc|]. split.
  { exact (f_equal order (Hsort "id" "DESC" users Hid Hdesc)). }
  split; [exact Hname|]. split.
  { rewrite (Hplain "name" users); [reflexivity | discriminate | exact Hname]. }
  split; [exact Ha|]. split; [exact Hb|].
  exact (f_equal order (Hother "a" "b" users Ha Hb)).
Defined.

(** C10 at the limits 10, 0 and -1. *)
Lemma limit_offset_witness :
  limit recent_users <> 0 /\
  limit_clause recent_users = " LIMIT 10" /\
  limit (Limit (-1) users) < 0 /\
  limit_clause (Limit (-1) users) = " LIMIT -1" /\
  AppendQuery (Limit 0 (Offset 0 users)) false "" = Ok "SELECT * FROM `users`" /\
  AppendQuery (Limit (-1) (Offset 3 users)) false ""
  = Ok "SELECT * FROM `users` LIMIT -1 OFFSET 3".
Proof.
  assert (H10 : limit recent_users <> 0) by (vm_compute; discriminate).
  assert (Hneg : limit (Limit (-1) users) < 0) by (vm_compute; reflexivity).
  split; [exact H10|]. split; [|split; [exact Hneg|split; [|split]]].
  - rewrite (proj1 (proj2 (proj2 (limit_offset_iff_nonzero recent_users false "")))
               H10).
    reflexivity.
  - rewrite (proj1 (proj2 (proj2 (proj2
               (limit_offset_iff_nonzero (Limit (-1) users) false "")))) Hneg).
    reflexivity.
  - unfold AppendQuery.
    rewrite (proj1 (limit_offset_iff_nonzero (Limit 0 (Offset 0 users)) _ "")).
    vm_compute. reflexivity.
  - unfold AppendQuery.
    rewrite (proj1 (limit_offset_iff_nonzero (Limit (-1) (Offset 3 users)) _ "")).
    vm_compute. reflexivity.
Defined.

(** ** Further properties on the instance *)

(** A query whose column list is set and empty. *)
Definition no_columns : DQuery :=
  on_base (fun b : DBase =>
             mkBaseQuery (db b) (conn b) (err b) (tableModel b) (table b)
               (with_ b) (modelTable b) (tables b) (Some []) (flags b))
    users.

(** X2 at a buffer that ends in a separator. *)
Lemma appendColumns_trim_witness :
  columns no_columns = Some [] /\
  to_one_joins_of no_columns = [] /\
  appendColumns no_columns false "SELECT x, " = Ok "SELECT x".
Proof.
  split; [reflexivity|]. split; [reflexivity|].
  exact (proj2 (appendColumns_empty_list_trims_buffer no_columns false
                  "SELECT x" eq_refl eq_refl)).
Defined.

(** X3 at a join with one condition and a second one added. *)
Lemma joinOn_last_join_witness :
  joins (JoinOn "a = b" [] (Join "JOIN t" [] users))
  = [] ++ [mkJoinQuery (mkQueryWithArgs "JOIN t" (Some []))
             [mkQueryWithSep (mkQueryWithArgs "a = b" (Some [])) " AND "]] /\
  joins (JoinOnOr "c = d" [] (JoinOn "a = b" [] (Join "JOIN t" [] users)))
  = [mkJoinQuery (mkQueryWithArgs "JOIN t" (Some []))
       [mkQueryWithSep (mkQueryWithArgs "a = b" (Some [])) " AND ";
        mkQueryWithSep (mkQueryWithArgs "c = d" (Some [])) " OR "]] /\
  err (JoinOnOr "c = d" [] (JoinOn "a = b" [] (Join "JOIN t" [] users))) = None.
Proof.
  assert (Hj : joins (JoinOn "a = b" [] (Join "JOIN t" [] users))
               = [] ++ [mkJoinQuery (mkQueryWithArgs "JOIN t" (Some []))
                          [mkQueryWithSep (mkQueryWithArgs "a = b" (Some []))
                             " AND "]])
    by reflexivity.
  split; [exact Hj|].
  destruct (proj1 (joinOn_extends_last_join "c = d" [] " OR "
                     (JoinOn "a = b" [] (Join "JOIN t" [] users))) _ _ Hj)
    as (Heq & He & _).
  split.
  - unfold JoinOnOr. rewrite Heq. reflexivity.
  - unfold JoinOnOr. rewrite He. reflexivity.
Defined.

(** X5 and X6 at the union of two queries. *)
Lemma union_witness :
  to_one_joins_of recent_users = [] /\
  appendQuery (Union users recent_users) false "" false
  = Ok ("(SELECT * FROM `users` WHERE (id > 5) " +:+
        "ORDER BY `id` DESC, `name` LIMIT 10)" +:+
        " UNION (SELECT * FROM `users`)").
Proof.
  split; [reflexivity|].
  unfold Union.
  rewrite (set_operation_appends_operand " UNION " users recent_users false ""
             eq_refl).
  vm_compute. reflexivity.
Defined.

Lemma error_free_witness :
  appendQuery (Union users recent_users) false "" false
  = Ok ("(SELECT * FROM `users` WHERE (id > 5) " +:+
        "ORDER BY `id` DESC, `name` LIMIT 10)" +:+
        " UNION (SELECT * FROM `users`)") /\
  error_free (Union users recent_users) = true /\
  error_free (Union (JoinOn "a = b" [] users) recent_users) = false.
Proof.
  assert (Hr : appendQuery (Union users recent_users) false "" false
               = Ok ("(SELECT * FROM `users` WHERE (id > 5) " +:+
                     "ORDER BY `id` DESC, `name` LIMIT 10)" +:+
                     " UNION (SELECT * FROM `users`)"))
    by (vm_compute; reflexivity).
  split; [exact Hr|]. split.
  - exact (render_succeeds_only_without_recorded_error _ _ _ _ _ Hr).
  - vm_compute. reflexivity.
Defined.

(** X7 at the author of the books. *)
Lemma Relation_found_witness :
  tableModel (book_query (None, None)) = Some (books (None, None)) /\
  (length ([] : list (DQuery -> DQuery)) <= 1)%nat /\
  recorded (Relation "author" [] (book_query (None, None))) = Some None.
Proof.
  split; [reflexivity|]. split; [apply le_0_n|].
  assert (Hjoin : TableModel_Join (books (None, None)) "author"
                    (head ([] : list (DQuery -> DQuery)))
                  = (books (None, None),
                     Some (mkJoin (mkRelation BelongsToRelation) authors)))
    by (vm_compute; reflexivity).
  destruct (proj2 (proj2 (Relation_panic_and_success "author" []
                            (book_query (None, None))))
              _ _ _ eq_refl (le_0_n 1) Hjoin)
    as [-> He].
  cbn [recorded]. now rewrite He.
Defined.

(** X8 at a plain column on a query without a model. *)
Lemma plain_column_witness :
  err (Column ["id"] users) = None /\
  table (Column ["id"] users) = None /\
  Args (mkQueryWithArgs "id" None) = None /\
  appendQuery (Column ["id"] users) false "" false = Panic nil_dereference.
Proof.
  assert (He : err (Column ["id"] users) = None) by reflexivity.
  assert (Ht : table (Column ["id"] users) = None) by reflexivity.
  assert (Hc : columns (Column ["id"] users)
               = Some ([] ++ mkQueryWithArgs "id" None :: []))
    by reflexivity.
  split; [exact He|]. split; [exact Ht|]. split; [reflexivity|].
  rewrite (plain_column_without_table_panics (Column ["id"] users) false ""
             [] (mkQueryWithArgs "id" None) []
             He Ht Hc (List.Forall_nil _) eq_refl).
  vm_compute. reflexivity.
Defined.

(** X9 at the books: the comments get a follow-up query, the author does
    not. *)
Lemma selectJoins_witness :
  result_of (selectJoins (book_query (None, None))
               (GetJoins (books (None, None))) []) = Ok tt /\
  trace_of (selectJoins (book_query (None, None))
              (GetJoins (books (None, None))) [])
  = [EvJoinSelect comments_join].
Proof.
  assert (Hok : result_of (selectJoins (book_query (None, None))
                             (GetJoins (books (None, None))) []) = Ok tt)
    by (vm_compute; reflexivity).
  split; [exact Hok|].
  rewrite (proj1 (proj2 (selectJoins_issues_follow_ups_in_order
                           (book_query (None, None))
                           (GetJoins (books (None, None))) [])) Hok).
  vm_compute. reflexivity.
Defined.


(** X11 at a query without a model and without a destination, as in the
    test of the nil model, and at the users with a destination. *)
Lemma Scan_model_witness :
  getModel users [] = Err (errors_New "bun: Model(nil)") /\
  Scan [] users [] = ([], [], Err (errors_New "bun: Model(nil)")) /\
  result_of (Scan [tt] users []) = Ok tt /\
  exists sql,
    AppendQuery users (DB_fmter (db users)) (makeQueryBytes (db users)) = Ok sql /\
    EvScan sql ∈ trace_of (Scan [tt] users []).
Proof.
  split; [reflexivity|]. split.
  - exact (proj1 (Scan_scans_the_render [] users []) _ eq_refl).
  - assert (Hok : result_of (Scan [tt] users []) = Ok tt)
      by (vm_compute; reflexivity).
    split; [exact Hok|].
    exact (proj2 (proj1 (proj2 (Scan_scans_the_render [tt] users [])) Hok)).
Defined.

(** X15 at the books: the columns of the book and the block of the
    author. *)
Lemma column_list_witness :
  open_space "SELECT " /\
  HasSuffix "`author`.id AS `author__id`, `author`.name AS `author__name`" ", "
  = false /\
  appendColumns (book_query (None, None)) false "SELECT "
  = Ok ("SELECT `book`.`id`, `book`.`title`, " +:+
        "`author`.id AS `author__id`, `author`.name AS `author__name`").
Proof.
  assert (Hopen : open_space "SELECT ").
  { exists "SELEC", "T"%char. split; [discriminate | reflexivity]. }
  split; [exact Hopen|]. split; [vm_compute; reflexivity|].
  rewrite (column_list_joins_nonempty_blocks (book_query (None, None)) false
             "SELECT " "`book`.`id`, `book`.`title`"
             ["`author`.id AS `author__id`, `author`.name AS `author__name`"]
             Hopen).
  - vm_compute. reflexivity.
  - vm_compute. reflexivity.
  - vm_compute. reflexivity.
  - vm_compute. reflexivity.
Defined.


(** X16 at the books: the author is visited, the comments are not. *)
Lemma forEachHasOneJoin_witness :
  to_one_joins_of (book_query (None, None))
  = [] ++ mkJoin (mkRelation BelongsToRelation) authors :: [] /\
  forEachHasOneJoin
    (fun _ (_ : unit) => Err (errors_New "stop" : DError))
    (book_query (None, None)) tt
  = Err (errors_New "stop").
Proof.
  assert (Hq : to_one_joins_of (book_query (None, None))
               = [] ++ mkJoin (mkRelation BelongsToRelation) authors :: [])
    by reflexivity.
  split; [exact Hq|].
  exact (proj1 (proj2 (proj2 (proj2
           (forEachHasOneJoin_visits_to_one_until_error
              (fun _ (_ : unit) => Err (errors_New "stop" : DError))
              (book_query (None, None)) tt))))
           _ _ _ tt _ Hq eq_refl eq_refl).
Defined.


(** X17 at the users: the count of a page is the count of the query. *)
Lemma counting_render_witness :
  to_one_joins_of (Where "id > ?" [ArgInt 5] users) = [] /\
  to_one_joins_of (Order ["id DESC"; "name"] (Where "id > ?" [ArgInt 5] users))
  = [] /\
  appendQuery recent_users false "" true
  = Ok "SELECT count(*) FROM `users` WHERE (id > 5)".
Proof.
  assert (H1 : to_one_joins_of (Where "id > ?" [ArgInt 5] users) = [])
    by (vm_compute; reflexivity).
  assert (H2 : to_one_joins_of
                 (Order ["id DESC"; "name"] (Where "id > ?" [ArgInt 5] users))
               = [])
    by (vm_compute; reflexivity).
  split; [exact H1|]. split; [exact H2|].
  unfold recent_users.
  destruct (counting_render_ignores_order_limit_offset
              (Order ["id DESC"; "name"] (Where "id > ?" [ArgInt 5] users))
              false "" H2) as (Hlimit & _).
  destruct (counting_render_ignores_order_limit_offset
              (Where "id > ?" [ArgInt 5] users) false "" H1)
    as (_ & _ & Horder & _).
  rewrite Hlimit, Horder. vm_compute. reflexivity.
Defined.

End Examples.
